(** * The TensorRT driver of LivePortrait: a shallow embedding

    Source: [LivePortrait/commons/utils/tensorrt_driver.py].

    The driver is Python code over three foreign libraries (numpy, pycuda and
    tensorrt).  The embedding keeps the driver's own control flow and data and
    replaces the foreign libraries by small executable models:

    - a numpy array is a record of its data address, element type, shape and
      elements; allocation is a bump allocator in the world state;
    - a [Binding] is a mutable Python object, shared between the
      [bindings], [inputs] and [outputs] tables of the manager: objects live
      in a heap of the world and the tables hold references;
    - the CUDA device is a store of buffers plus an environment that decides
      what a submitted execution does (complete, or raise);
    - every call into a foreign library is recorded in a trace.

    Python code runs in a state-and-exception monad over the world.

    A last part embeds the download of the checkpoints,
    [Face2Vid/commons/config/inference_config.py], over a file system, the
    printed lines and the answers of the network, in explicit state-passing
    style. *)

From Stdlib Require Import ZArith List String Ascii Bool Lia.
From stdpp Require Import base option list strings gmap fin_maps.

Local Open Scope Z_scope.
Local Open Scope string_scope.
Local Open Scope list_scope.

(** ** numpy *)

Module np.

(** Element types: the six that a [Binding] can declare, and two more that
    a caller's array may carry. *)
Inductive dtype :=
| float32 | float16 | int8 | bool_ | int32 | int64 | float64 | uint8.

Definition dtype_eqb (a b : dtype) : bool :=
  match a, b with
  | float32, float32 | float16, float16 | int8, int8 | bool_, bool_
  | int32, int32 | int64, int64 | float64, float64 | uint8, uint8 => true
  | _, _ => false
  end.

Definition itemsize (d : dtype) : Z :=
  match d with
  | float32 => 4 | float16 => 2 | int8 => 1 | bool_ => 1
  | int32 => 4 | int64 => 8 | float64 => 8 | uint8 => 1
  end.

(** Two's-complement wrap-around to a signed integer of [w] bits, the C
    conversion that [astype] applies between integer types. *)
Definition wrap_signed (w : Z) (v : Z) : Z :=
  (v + 2 ^ (w - 1)) mod 2 ^ w - 2 ^ (w - 1).

(** Conversion of one element.  Elements of integer arrays are their
    values; elements of floating arrays are opaque codes, which no code of
    the driver converts. *)
Definition cast (to : dtype) (v : Z) : Z :=
  match to with
  | int8 => wrap_signed 8 v
  | int32 => wrap_signed 32 v
  | int64 => wrap_signed 64 v
  | uint8 => v mod 2 ^ 8
  | bool_ => if Z.eqb v 0 then 0 else 1
  | float32 | float16 | float64 => v
  end.

(** The range of values an element type holds. *)
Definition representable (d : dtype) (v : Z) : Prop :=
  match d with
  | int8 => - 2 ^ 7 <= v < 2 ^ 7
  | int32 => - 2 ^ 31 <= v < 2 ^ 31
  | int64 => - 2 ^ 63 <= v < 2 ^ 63
  | uint8 => 0 <= v < 2 ^ 8
  | bool_ => 0 <= v <= 1
  | float32 | float16 | float64 => True
  end.

Record ndarray := mk_ndarray {
  ctypes_data : Z;          (* [a.ctypes.data], the address of the elements *)
  arr_dtype : dtype;        (* [a.dtype] *)
  arr_shape : list Z;       (* [a.shape] *)
  arr_data : list Z         (* the elements, in row-major order *)
}.

Fixpoint shape_eqb (s t : list Z) : bool :=
  match s, t with
  | [], [] => true
  | x :: s', y :: t' => Z.eqb x y && shape_eqb s' t'
  | _, _ => false
  end.

(** Number of elements of a shape; the empty shape [()] has one. *)
Definition volume (s : list Z) : Z := fold_right Z.mul 1 s.

Definition nbytes (s : list Z) (d : dtype) : Z := volume s * itemsize d.

(** [np.array_equal]: same shape and the same elements. *)
Definition array_equal (a b : ndarray) : bool :=
  shape_eqb (arr_shape a) (arr_shape b) && shape_eqb (arr_data a) (arr_data b).

End np.

(** ** tensorrt: engines as the driver sees them *)

Module trt.

Inductive DataType :=
| FLOAT | HALF | INT8 | INT32 | BOOL | UINT8 | FP8 | BF16 | INT64 | INT4.

Inductive TensorIOMode := NONE | INPUT | OUTPUT.

Definition TensorIOMode_eqb (a b : TensorIOMode) : bool :=
  match a, b with
  | NONE, NONE | INPUT, INPUT | OUTPUT, OUTPUT => true
  | _, _ => false
  end.

(** One I/O tensor of a compiled engine. *)
Record tensor := mk_tensor {
  tensor_name : string;
  tensor_mode : TensorIOMode;
  tensor_dtype : DataType;
  tensor_shape : list Z;
  shape_inference_io : bool
}.

(** A deserialized engine: its I/O tensors in index order.  The engine is
    immutable. *)
Record ICudaEngine := mk_engine { io_tensors : list tensor }.

Definition num_io_tensors (e : ICudaEngine) : nat := length (io_tensors e).

(** [engine.get_tensor_name(i)]: [None] when the index is out of range. *)
Definition get_tensor_name (e : ICudaEngine) (i : nat) : option string :=
  tensor_name <$> io_tensors e !! i.

(** The per-name queries look the tensor up by its name. *)
Definition find_tensor (e : ICudaEngine) (n : string) : option tensor :=
  find (fun t => String.eqb (tensor_name t) n) (io_tensors e).

Definition get_tensor_mode (e : ICudaEngine) (n : string) : TensorIOMode :=
  from_option tensor_mode NONE (find_tensor e n).

Definition get_tensor_dtype (e : ICudaEngine) (n : string) : DataType :=
  from_option tensor_dtype FLOAT (find_tensor e n).

Definition get_tensor_shape (e : ICudaEngine) (n : string) : list Z :=
  from_option tensor_shape [] (find_tensor e n).

Definition is_shape_inference_io (e : ICudaEngine) (n : string) : bool :=
  from_option shape_inference_io false (find_tensor e n).

End trt.

(** ** Exceptions and printed lines *)

(** The f-strings of the driver, kept structured. *)
Inductive message :=
| msg_binding_index (idx : nat)
| msg_wrong_shape (input_idx : nat) (expected got : list Z)
| msg_unsafe_cast (input_idx : nat) (expected got : np.dtype)
| msg_wrong_dtype (input_idx : nat) (expected got : np.dtype)
| msg_model_not_found (model_name : string)
| msg_input_count (model_name : string)
| msg_inputs_not_list
| msg_task_not_found (task : string)
| msg_foreign (text : string).

(** Python exceptions (all of them subclasses of [Exception]). *)
Inductive exn :=
| ValueError (m : message)
| TypeError (m : message)
| IndexError (m : message)
| KeyError (key : string)
| AttributeError
| OSError (m : message)
| RuntimeError (m : message)
| ReferenceError.

(** ** Bindings *)

(** A buffer owned by a [Binding]: pinned host memory or a device array. *)
Record buffer := mk_buffer { ptr : Z; buf_nbytes : Z }.

Record Binding := mk_Binding {
  name : string;
  is_input : bool;
  dtype : np.dtype;
  shape : list Z;
  _host_buf : option buffer;
  _device_buf : option buffer
}.

(** ** The world *)

(** An execution context: its engine and the address bound to each tensor. *)
Record IExecutionContext := mk_context {
  context_engine : trt.ICudaEngine;
  tensor_addresses : gmap string Z
}.

(** Work queued on the CUDA stream. *)
Record work := mk_work {
  work_engine : trt.ICudaEngine;
  work_addresses : gmap string Z
}.

Inductive event :=
| EvDlopen (path : string)
| EvInitPlugins
| EvDeserialize (path : string)
| EvCreateContext (context : nat)
| EvStreamCreate (handle : Z)
| EvPagelockedAlloc (b : buffer)
| EvDeviceAlloc (b : buffer)
| EvMemcpyHtoD (dst : Z) (src : np.ndarray)
| EvSetTensorAddress (context : nat) (tensor_name : string) (address : Z)
| EvExecuteAsync (context : nat) (raised : bool)
| EvSynchronize (raised : bool)
| EvMemcpyDtoH (dst : Z) (src : Z)
| EvPrint (model_name : string) (e : exn).

Record World := mk_World {
  next_addr : Z;                        (* first address never handed out *)
  heap : list Binding;                  (* the Binding objects *)
  context_heap : list IExecutionContext; (* the execution contexts *)
  device_mem : gmap Z (list Z);         (* device buffers, by base pointer *)
  stream_queue : list work;             (* submitted, not yet drained *)
  trace : list event                    (* foreign calls, oldest first *)
}.

(** What the process runs against: the file system, the dynamic loader and the
    device. *)
Record Env := mk_Env {
  dlopen : string -> option exn;
  read_engine : string -> exn + option trt.ICudaEngine;
  submit : trt.ICudaEngine -> gmap string Z -> option exn;
  device_run : trt.ICudaEngine -> gmap string Z -> gmap Z (list Z) ->
               exn + gmap Z (list Z)
}.

(** ** The monad of Python code *)

Definition Py (A : Type) : Type := World -> (exn + A) * World.

#[global] Instance Py_ret : MRet Py := fun A a w => (inr a, w).

#[global] Instance Py_bind : MBind Py := fun A B f m w =>
  match m w with
  | (inl e, w') => (inl e, w')
  | (inr a, w') => f a w'
  end.

Definition raise {A} (e : exn) : Py A := fun w => (inl e, w).

Definition try_except {A} (body : Py A) (handler : exn -> Py A) : Py A :=
  fun w =>
    match body w with
    | (inl e, w') => handler e w'
    | (inr a, w') => (inr a, w')
    end.

Definition get_world : Py World := fun w => (inr w, w).

Definition emit (e : event) : Py unit := fun w =>
  (inr tt, mk_World (next_addr w) (heap w) (context_heap w) (device_mem w)
                    (stream_queue w) (trace w ++ [e])).

(** A fresh address. *)
Definition fresh : Py Z := fun w =>
  (inr (next_addr w),
   mk_World (next_addr w + 1) (heap w) (context_heap w) (device_mem w)
            (stream_queue w) (trace w)).

(** [d[k]] on a Python dict. *)
Definition dict_get {V} (d : gmap string V) (k : string) : Py V :=
  match d !! k with
  | Some v => mret v
  | None => raise (KeyError k)
  end.

(** [for x in l: body x], stopping at the first exception. *)
Fixpoint for_each {A} (l : list A) (body : A -> Py unit) : Py unit :=
  match l with
  | [] => mret tt
  | x :: l' => body x;; for_each l' body
  end.

(** [[f x for x in l]]. *)
Fixpoint comprehension {A B} (l : list A) (f : A -> Py B) : Py (list B) :=
  match l with
  | [] => mret []
  | x :: l' => y ← f x; ys ← comprehension l' f; mret (y :: ys)
  end.

(** [enumerate(l)], from [start]. *)
Fixpoint enumerate_from {A} (start : nat) (l : list A) : list (nat * A) :=
  match l with
  | [] => []
  | x :: l' => (start, x) :: enumerate_from (S start) l'
  end.

Definition enumerate {A} (l : list A) : list (nat * A) := enumerate_from 0 l.

(** [zip], truncating to the shorter list. *)
Fixpoint zip {A B} (l : list A) (k : list B) : list (A * B) :=
  match l, k with
  | x :: l', y :: k' => (x, y) :: zip l' k'
  | _, _ => []
  end.

(** [for x in l: s = body s x]: a loop that rebinds a variable. *)
Fixpoint for_fold {A S} (l : list A) (s : S) (body : S -> A -> Py S) : Py S :=
  match l with
  | [] => mret s
  | x :: l' => s' ← body s x; for_fold l' s' body
  end.

(** [l[i]] on a Python list. *)
Definition list_get {V} (l : list V) (i : nat) : Py V :=
  match l !! i with
  | Some v => mret v
  | None => raise (IndexError (msg_foreign "list index out of range"))
  end.

(** ** Python values returned to the caller *)

#[warnings="-register-all"]
Inductive pyval :=
| VNone
| VInt (z : Z)
| VArray (a : np.ndarray)
| VTuple (items : list pyval)
| VList (items : list pyval).

(** Python's [==] on these values.  A tuple and a list are never equal,
    whatever they hold; arrays inside a sequence are compared as the
    sequence comparison does, identity first. *)
Fixpoint py_eq (a b : pyval) : bool :=
  match a, b with
  | VNone, VNone => true
  | VInt x, VInt y => Z.eqb x y
  | VArray x, VArray y =>
      Z.eqb (np.ctypes_data x) (np.ctypes_data y) || np.array_equal x y
  | VTuple l, VTuple k =>
      (fix go (l k : list pyval) : bool :=
         match l, k with
         | [], [] => true
         | x :: l', y :: k' => py_eq x y && go l' k'
         | _, _ => false
         end) l k
  | VList l, VList k =>
      (fix go (l k : list pyval) : bool :=
         match l, k with
         | [], [] => true
         | x :: l', y :: k' => py_eq x y && go l' k'
         | _, _ => false
         end) l k
  | _, _ => false
  end.

(** What a caller passes as [inputs]. *)
Inductive py_inputs :=
| InList (arrays : list np.ndarray)
| InDict (by_name : gmap string np.ndarray).

(** ** numpy and pycuda calls that touch the world *)

(** [a.astype(d)]: a new array with converted elements. *)
Definition np_astype (a : np.ndarray) (d : np.dtype) : Py np.ndarray :=
  addr ← fresh;
  mret (np.mk_ndarray addr d (np.arr_shape a) (map (np.cast d) (np.arr_data a))).

(** [np.array(a)]: a copy. *)
Definition np_array (a : np.ndarray) : Py np.ndarray :=
  addr ← fresh;
  mret (np.mk_ndarray addr (np.arr_dtype a) (np.arr_shape a) (np.arr_data a)).

(** [np.ascontiguousarray(a)]: arrays are kept in row-major order here, so
    the array is returned as it is. *)
Definition np_ascontiguousarray (a : np.ndarray) : Py np.ndarray := mret a.

(** [np.empty(shape, dtype)]: a new array; its elements are unspecified and
    read as zero here. *)
Definition np_empty (s : list Z) (d : np.dtype) : Py np.ndarray :=
  addr ← fresh;
  mret (np.mk_ndarray addr d s (replicate (Z.to_nat (np.volume s)) 0)).

Definition set_heap (h : list Binding) : Py unit := fun w =>
  (inr tt, mk_World (next_addr w) h (context_heap w) (device_mem w)
                    (stream_queue w) (trace w)).

Definition set_context_heap (c : list IExecutionContext) : Py unit := fun w =>
  (inr tt, mk_World (next_addr w) (heap w) c (device_mem w)
                    (stream_queue w) (trace w)).

Definition set_device_mem (m : gmap Z (list Z)) : Py unit := fun w =>
  (inr tt, mk_World (next_addr w) (heap w) (context_heap w) m
                    (stream_queue w) (trace w)).

Definition set_stream_queue (q : list work) : Py unit := fun w =>
  (inr tt, mk_World (next_addr w) (heap w) (context_heap w) (device_mem w)
                    q (trace w)).

(** [cuda.pagelocked_empty(shape, dtype)]. *)
Definition cuda_pagelocked_empty (s : list Z) (d : np.dtype) : Py buffer :=
  addr ← fresh;
  let b := mk_buffer addr (np.nbytes s d) in
  emit (EvPagelockedAlloc b);;
  mret b.

(** [pycuda.gpuarray.empty(shape, dtype)]. *)
Definition gpuarray_empty (s : list Z) (d : np.dtype) : Py buffer :=
  addr ← fresh;
  let b := mk_buffer addr (np.nbytes s d) in
  w ← get_world;
  set_device_mem (<[addr := replicate (Z.to_nat (np.volume s)) 0]> (device_mem w));;
  emit (EvDeviceAlloc b);;
  mret b.

(** [cuda.memcpy_htod(dst, src)]: synchronous copy of an array to the device. *)
Definition cuda_memcpy_htod (dst : Z) (src : np.ndarray) : Py unit :=
  w ← get_world;
  set_device_mem (<[dst := np.arr_data src]> (device_mem w));;
  emit (EvMemcpyHtoD dst src).

(** [cuda.memcpy_dtoh(dst, src)]: synchronous copy into a host array, which
    is returned with its new elements. *)
Definition cuda_memcpy_dtoh (dst : np.ndarray) (src : Z) : Py np.ndarray :=
  w ← get_world;
  emit (EvMemcpyDtoH (np.ctypes_data dst) src);;
  mret (np.mk_ndarray (np.ctypes_data dst) (np.arr_dtype dst) (np.arr_shape dst)
                      (default (np.arr_data dst) (device_mem w !! src))).

(** ** class Binding *)

(** Reading and writing a [Binding] object through a reference. *)
Definition deref (r : nat) : Py Binding := fun w =>
  match heap w !! r with
  | Some b => (inr b, w)
  | None => (inl ReferenceError, w)
  end.

Definition new_object (b : Binding) : Py nat :=
  w ← get_world;
  set_heap (heap w ++ [b]);;
  mret (length (heap w)).

(** The table of [Binding.__init__].  The runtime modelled here has both
    [INT32] and [INT64], so both conditional entries are present; a type
    outside the table makes the lookup raise. *)
Definition dtype_map (d : trt.DataType) : option np.dtype :=
  match d with
  | trt.FLOAT => Some np.float32
  | trt.HALF => Some np.float16
  | trt.INT8 => Some np.int8
  | trt.BOOL => Some np.bool_
  | trt.INT32 => Some np.int32
  | trt.INT64 => Some np.int64
  | _ => None
  end.

(** [Binding(engine, idx)]; the driver only passes indices. *)
Definition Binding_init (engine : trt.ICudaEngine) (idx : nat) : Py nat :=
  match trt.get_tensor_name engine idx with
  | None | Some "" => raise (IndexError (msg_binding_index idx))
  | Some n =>
      let is_input_ :=
        trt.TensorIOMode_eqb (trt.get_tensor_mode engine n) trt.INPUT in
      match dtype_map (trt.get_tensor_dtype engine n) with
      | None => raise (KeyError "DataType")
      | Some dt =>
          new_object
            (mk_Binding n is_input_ dt (trt.get_tensor_shape engine n) None None)
      end
  end.

(** The [host_buffer] property. *)
Definition host_buffer (self : nat) : Py buffer :=
  b ← deref self;
  match _host_buf b with
  | Some buf => mret buf
  | None =>
      buf ← cuda_pagelocked_empty (shape b) (dtype b);
      w ← get_world;
      set_heap (<[self := mk_Binding (name b) (is_input b) (dtype b) (shape b)
                                     (Some buf) (_device_buf b)]> (heap w));;
      mret buf
  end.

(** The [device_buffer] property. *)
Definition device_buffer (self : nat) : Py buffer :=
  b ← deref self;
  match _device_buf b with
  | Some buf => mret buf
  | None =>
      buf ← gpuarray_empty (shape b) (dtype b);
      w ← get_world;
      set_heap (<[self := mk_Binding (name b) (is_input b) (dtype b) (shape b)
                                     (_host_buf b) (Some buf)]> (heap w));;
      mret buf
  end.

(** [get_async]: the only reader of [host_buffer]; the driver never calls
    it. *)
Definition get_async (self : nat) : Py buffer :=
  d ← device_buffer self;
  h ← host_buffer self;
  emit (EvMemcpyDtoH (ptr h) (ptr d));;
  mret h.

(** ** class TensorRTEngine *)

Record TensorRTEngine := mk_TensorRTEngine {
  cfg : gmap string string;
  model_paths : list (string * string);   (* a dict literal, in its order *)
  plugin_path : string;
  engines : gmap string trt.ICudaEngine;
  contexts : gmap string nat;
  bindings : gmap string (list nat);
  binding_addresses : gmap string (list Z);
  inputs : gmap string (list nat);
  outputs : gmap string (list nat);
  stream : Z
}.

(** [check_input_validity], a static method.  After the narrowing
    [input_array] names the 32-bit copy, and it is that copy which is compared
    with its own widening. *)
Definition check_input_validity (input_idx : nat) (input_array : np.ndarray)
    (input_binding : Binding) : Py np.ndarray :=
  (if negb (np.shape_eqb (np.arr_shape input_array) (shape input_binding)) then
     if negb (np.shape_eqb (shape input_binding) [1]
              && np.shape_eqb (np.arr_shape input_array) []) then
       raise (ValueError (msg_wrong_shape input_idx (shape input_binding)
                                          (np.arr_shape input_array)))
     else mret tt
   else mret tt);;
  if negb (np.dtype_eqb (np.arr_dtype input_array) (dtype input_binding)) then
    if np.dtype_eqb (np.arr_dtype input_array) np.int64
       && np.dtype_eqb (dtype input_binding) np.int32 then
      input_array ← np_astype input_array np.int32;
      widened ← np_astype input_array np.int64;
      if negb (np.array_equal input_array widened) then
        raise (TypeError (msg_unsafe_cast input_idx (dtype input_binding)
                                          (np.arr_dtype input_array)))
      else mret input_array
    else
      raise (TypeError (msg_wrong_dtype input_idx (dtype input_binding)
                                        (np.arr_dtype input_array)))
  else mret input_array.

(** [[b for b in l if p(b)]] over references. *)
Fixpoint filter_objects (p : Binding -> bool) (l : list nat) : Py (list nat) :=
  match l with
  | [] => mret []
  | r :: l' =>
      b ← deref r;
      rest ← filter_objects p l';
      mret (if p b then r :: rest else rest)
  end.

Section Driver.

Variable env : Env.

(** [load_plugins]: [ctypes.CDLL] raises when the library cannot be loaded;
    the result of [init_libnvinfer_plugins] is dropped. *)
Definition load_plugins (path : string) : Py unit :=
  emit (EvDlopen path);;
  match dlopen env path with
  | Some e => raise e
  | None => emit EvInitPlugins
  end.

(** [load_engine]: opening the file may raise; deserialization reports a
    failure by returning [None]. *)
Definition load_engine (engine_file_path : string)
    : Py (option trt.ICudaEngine) :=
  match read_engine env engine_file_path with
  | inl e => raise e
  | inr r => emit (EvDeserialize engine_file_path);; mret r
  end.

(** [engine.create_execution_context()]; on [None] the attribute lookup
    raises. *)
Definition create_execution_context (engine : option trt.ICudaEngine)
    : Py (trt.ICudaEngine * nat) :=
  match engine with
  | None => raise AttributeError
  | Some e =>
      w ← get_world;
      set_context_heap (context_heap w ++ [mk_context e ∅]);;
      emit (EvCreateContext (length (context_heap w)));;
      mret (e, length (context_heap w))
  end.

Definition prepare_buffers (self : TensorRTEngine) (model_name : string)
    : Py unit :=
  ins ← dict_get (inputs self) model_name;
  outs ← dict_get (outputs self) model_name;
  for_each (ins ++ outs) (fun binding => _ ← device_buffer binding; mret tt).

(** One turn of the loop of [initialize_engines].  The six assignments to the
    tables of [self] are made together at the end: an exception in between
    leaves the constructor, and no manager behind. *)
Definition initialize_engine (self : TensorRTEngine)
    (item : string * string) : Py TensorRTEngine :=
  let '(model_name, model_path) := item in
  loaded ← load_engine model_path;
  '(engine, context) ← create_execution_context loaded;
  bs ← comprehension (seq 0 (trt.num_io_tensors engine)) (Binding_init engine);
  addrs ← comprehension bs (fun b => buf ← device_buffer b; mret (ptr buf));
  ins ← filter_objects is_input bs;
  outs ← filter_objects (fun b => negb (is_input b)) bs;
  let self :=
    mk_TensorRTEngine (cfg self) (model_paths self) (plugin_path self)
      (<[model_name := engine]> (engines self))
      (<[model_name := context]> (contexts self))
      (<[model_name := bs]> (bindings self))
      (<[model_name := addrs]> (binding_addresses self))
      (<[model_name := ins]> (inputs self))
      (<[model_name := outs]> (outputs self))
      (stream self) in
  prepare_buffers self model_name;;
  mret self.

Definition initialize_engines (self : TensorRTEngine) : Py TensorRTEngine :=
  for_fold (model_paths self) self initialize_engine.

(** [cuda.Stream()]. *)
Definition cuda_Stream : Py Z :=
  h ← fresh;
  emit (EvStreamCreate h);;
  mret h.

(** [__init__(self, half, **kwargs)]. *)
Definition __init__ (half : bool) (kwargs : gmap string string)
    : Py TensorRTEngine :=
  paths ←
    (if half then
       f ← dict_get kwargs "rt_F_half";
       m ← dict_get kwargs "rt_M_half";
       gw ← dict_get kwargs "rt_GW_half";
       s ← dict_get kwargs "rt_S_half";
       se ← dict_get kwargs "rt_SE_half";
       sl ← dict_get kwargs "rt_SL_half";
       mret [("feature_extractor", f); ("motion_extractor", m);
             ("generator", gw); ("stitching_retargeting", s);
             ("stitching_retargeting_eye", se);
             ("stitching_retargeting_lip", sl)]
     else
       f ← dict_get kwargs "rt_F";
       m ← dict_get kwargs "rt_M";
       gw ← dict_get kwargs "rt_GW";
       s ← dict_get kwargs "rt_S";
       se ← dict_get kwargs "rt_SE";
       sl ← dict_get kwargs "rt_SL";
       mret [("feature_extractor", f); ("motion_extractor", m);
             ("generator", gw); ("stitching_retargeting", s);
             ("stitching_retargeting_eye", se);
             ("stitching_retargeting_lip", sl)]);
  plugin ← dict_get kwargs "grid_sample_3d";
  load_plugins plugin;;
  st ← cuda_Stream;
  initialize_engines
    (mk_TensorRTEngine kwargs paths plugin ∅ ∅ ∅ ∅ ∅ ∅ st).

(** [context.set_tensor_address(name, address)]. *)
Definition set_tensor_address (context : nat) (tensor_name : string)
    (address : Z) : Py unit :=
  w ← get_world;
  match context_heap w !! context with
  | None => raise ReferenceError
  | Some c =>
      set_context_heap
        (<[context := mk_context (context_engine c)
                        (<[tensor_name := address]> (tensor_addresses c))]>
           (context_heap w));;
      emit (EvSetTensorAddress context tensor_name address)
  end.

(** [context.execute_async_v3(stream)]: submission either raises or queues
    the work with the addresses bound at that moment. *)
Definition execute_async_v3 (context : nat) (stream_handle : Z) : Py unit :=
  w ← get_world;
  match context_heap w !! context with
  | None => raise ReferenceError
  | Some c =>
      match submit env (context_engine c) (tensor_addresses c) with
      | Some e => emit (EvExecuteAsync context true);; raise e
      | None =>
          emit (EvExecuteAsync context false);;
          set_stream_queue
            (stream_queue w
             ++ [mk_work (context_engine c) (tensor_addresses c)])
      end
  end.

(** Running the queued work in order, up to the first failure. *)
Fixpoint drain (q : list work) (mem : gmap Z (list Z))
    : option exn * gmap Z (list Z) :=
  match q with
  | [] => (None, mem)
  | k :: q' =>
      match device_run env (work_engine k) (work_addresses k) mem with
      | inl e => (Some e, mem)
      | inr mem' => drain q' mem'
      end
  end.

(** [stream.synchronize()]. *)
Definition synchronize (stream_handle : Z) : Py unit :=
  w ← get_world;
  let '(failure, mem) := drain (stream_queue w) (device_mem w) in
  set_stream_queue [];;
  set_device_mem mem;;
  match failure with
  | Some e => emit (EvSynchronize true);; raise e
  | None => emit (EvSynchronize false)
  end.

(** [run_sequential_tasks(self, model_name, inputs)]. *)
Definition run_sequential_tasks (self : TensorRTEngine) (model_name : string)
    (inputs_arg : py_inputs) : Py pyval :=
  match engines self !! model_name with
  | None => raise (ValueError (msg_model_not_found model_name))
  | Some engine =>
      context ← dict_get (contexts self) model_name;
      binding_addresses_ ← dict_get (binding_addresses self) model_name;
      inputs_bindings ← dict_get (inputs self) model_name;
      outputs_bindings ← dict_get (outputs self) model_name;
      inputs_ ←
        match inputs_arg with
        | InDict d =>
            comprehension inputs_bindings
              (fun b => o ← deref b; dict_get d (name o))
        | InList l => mret l
        end;
      if negb (Nat.eqb (length inputs_) (length inputs_bindings)) then
        raise (ValueError (msg_input_count model_name))
      else
        for_each (enumerate (zip inputs_ inputs_bindings))
          (fun '(i, (input_array, input_binding)) =>
             b ← deref input_binding;
             input_array ← check_input_validity i input_array b;
             input_array ← np_ascontiguousarray input_array;
             buf ← device_buffer input_binding;
             cuda_memcpy_htod (ptr buf) input_array);;
        for_each (seq 0 (trt.num_io_tensors engine))
          (fun i =>
             match trt.get_tensor_name engine i with
             | None => raise (TypeError (msg_foreign "tensor name"))
             | Some tensor_name =>
                 if Nat.ltb i (length inputs_)
                    && trt.is_shape_inference_io engine tensor_name then
                   a ← list_get inputs_ i;
                   set_tensor_address context tensor_name (np.ctypes_data a)
                 else
                   address ← list_get binding_addresses_ i;
                   set_tensor_address context tensor_name address
             end);;
        failed ←
          try_except
            (execute_async_v3 context (stream self);;
             synchronize (stream self);;
             mret None)
            (fun e =>
               emit (EvPrint model_name e);;
               mret (Some (VTuple [VNone; VInt 0])));
        match failed with
        | Some returned => mret returned
        | None =>
            outputs_ ←
              comprehension outputs_bindings
                (fun output =>
                   o ← deref output;
                   host_output ← np_empty (shape o) (dtype o);
                   buf ← device_buffer output;
                   cuda_memcpy_dtoh host_output (ptr buf));
            mret (VList (VArray <$> outputs_))
        end
  end.

(** [inference_tensorrt(self, task, inputs)]. *)
Definition inference_tensorrt (self : TensorRTEngine) (task : string)
    (inputs_arg : py_inputs) : Py pyval :=
  match inputs_arg with
  | InDict _ => raise (TypeError msg_inputs_not_list)
  | InList l =>
      match inputs self !! task with
      | None => raise (ValueError (msg_task_not_found task))
      | Some task_inputs =>
          inputs_ ←
            comprehension (enumerate l)
              (fun '(i, input_array) =>
                 a ← np_array input_array;
                 r ← list_get task_inputs i;
                 b ← deref r;
                 check_input_validity i a b);
          run_sequential_tasks self task (InList inputs_)
      end
  end.

End Driver.

(** * Closed forms, invariants and examples *)

(** ** The monad *)

(** The world with [n] more addresses handed out. *)
Definition bump (n : Z) (w : World) : World :=
  mk_World (next_addr w + n) (heap w) (context_heap w) (device_mem w)
           (stream_queue w) (trace w).

(** The world with more events in its trace. *)
Definition logged (evs : list event) (w : World) : World :=
  mk_World (next_addr w) (heap w) (context_heap w) (device_mem w)
           (stream_queue w) (trace w ++ evs).

(** ** [check_input_validity] *)

(** The shape rule: equal shapes, or a scalar for the unit shape. *)
Definition shape_ok (a : np.ndarray) (b : Binding) : bool :=
  np.shape_eqb (np.arr_shape a) (shape b)
  || (np.shape_eqb (shape b) [1] && np.shape_eqb (np.arr_shape a) []).

(** The type rule as the code applies it: equal types, or 64-bit integers
    for a 32-bit slot, whatever their values. *)
Definition dtype_ok (a : np.ndarray) (b : Binding) : bool :=
  np.dtype_eqb (np.arr_dtype a) (dtype b)
  || (np.dtype_eqb (np.arr_dtype a) np.int64 && np.dtype_eqb (dtype b) np.int32).

(** The exception of [check_input_validity], if any. *)
Definition validation_error (idx : nat) (a : np.ndarray) (b : Binding)
    : option exn :=
  if negb (shape_ok a b) then
    Some (ValueError (msg_wrong_shape idx (shape b) (np.arr_shape a)))
  else if negb (dtype_ok a b) then
    Some (TypeError (msg_wrong_dtype idx (dtype b) (np.arr_dtype a)))
  else None.

(** What [check_input_validity] returns on a valid array: the array itself,
    or its 32-bit copy at a new address. *)
Definition checked (addr : Z) (a : np.ndarray) (b : Binding) : np.ndarray :=
  if np.dtype_eqb (np.arr_dtype a) (dtype b) then a
  else np.mk_ndarray addr np.int32 (np.arr_shape a)
                     (map (np.cast np.int32) (np.arr_data a)).

(** Splitting a conjunction into its parts, and nothing else. *)
Ltac conjs := repeat match goal with |- _ /\ _ => split end.

(** Unfolding the primitives of the monad in a goal. *)
Ltac py_unfold :=
  cbv beta iota zeta delta
    [mbind mret Py_bind Py_ret raise get_world emit fresh set_heap
     set_context_heap set_device_mem set_stream_queue np_astype np_array
     np_ascontiguousarray np_empty dict_get list_get deref].

(** ** The state that construction leaves and [run] keeps *)

(** The device pointer of a binding, read through its reference. *)
Definition device_ptr (h : list Binding) (r : nat) : Z :=
  from_option (fun b => from_option ptr 0 (_device_buf b)) 0 (h !! r).

Definition ref_is_input (h : list Binding) (r : nat) : bool :=
  from_option is_input false (h !! r).

(** The binding has its device buffer, of the size of its tensor, and no
    host buffer. *)
Definition binding_ready (h : list Binding) (r : nat) : Prop :=
  exists b buf,
    h !! r = Some b /\ _device_buf b = Some buf /\
    buf_nbytes buf = np.nbytes (shape b) (dtype b) /\ _host_buf b = None.

(** The binding was built from tensor [i] of the engine. *)
Definition describes (h : list Binding) (e : trt.ICudaEngine) (i r : nat)
    : Prop :=
  exists b n,
    h !! r = Some b /\ trt.get_tensor_name e i = Some n /\ name b = n /\
    is_input b = trt.TensorIOMode_eqb (trt.get_tensor_mode e n) trt.INPUT /\
    dtype_map (trt.get_tensor_dtype e n) = Some (dtype b) /\
    shape b = trt.get_tensor_shape e n.

(** The tables of one model. *)
Definition model_ready (self : TensorRTEngine) (w : World) (m : string)
    (e : trt.ICudaEngine) : Prop :=
  exists c ctx bs,
    contexts self !! m = Some c /\
    context_heap w !! c = Some ctx /\ context_engine ctx = e /\
    bindings self !! m = Some bs /\
    binding_addresses self !! m = Some (device_ptr (heap w) <$> bs) /\
    inputs self !! m = Some (List.filter (ref_is_input (heap w)) bs) /\
    outputs self !! m
      = Some (List.filter (fun r => negb (ref_is_input (heap w) r)) bs) /\
    Forall (binding_ready (heap w)) bs /\
    (forall i r, bs !! i = Some r -> describes (heap w) e i r) /\
    length bs = trt.num_io_tensors e.

(** What holds of every binding the driver ever makes: no host buffer, and a
    device buffer, once there, of the size of the tensor and below the
    allocation frontier. *)
Definition heap_ok (w : World) : Prop :=
  forall r b,
    heap w !! r = Some b ->
    _host_buf b = None /\
    forall buf, _device_buf b = Some buf ->
                buf_nbytes buf = np.nbytes (shape b) (dtype b) /\
                ptr buf < next_addr w.

(** The tables of every loaded model are in place, and only those. *)
Definition tables_ready (self : TensorRTEngine) (w : World) : Prop :=
  forall m,
    match engines self !! m with
    | Some e => model_ready self w m e
    | None => inputs self !! m = None
    end.

(** The invariant of a manager between calls. *)
Definition ready (self : TensorRTEngine) (w : World) : Prop :=
  tables_ready self w /\ stream_queue w = [] /\ heap_ok w.

(** ** The loop that validates and copies the inputs *)

(** The body of the first loop of [run_sequential_tasks]. *)
Definition copy_input (item : nat * (np.ndarray * nat)) : Py unit :=
  let '(i, (input_array, input_binding)) := item in
  b ← deref input_binding;
  input_array ← check_input_validity i input_array b;
  input_array ← np_ascontiguousarray input_array;
  buf ← device_buffer input_binding;
  cuda_memcpy_htod (ptr buf) input_array.

(** The world after one valid input has been copied. *)
Definition copied (i : nat) (a : np.ndarray) (b : Binding) (dst : Z)
    (w : World) : World :=
  mk_World
    (if np.dtype_eqb (np.arr_dtype a) (dtype b) then next_addr w
     else next_addr w + 2)
    (heap w) (context_heap w)
    (<[dst := np.arr_data (checked (next_addr w) a b)]> (device_mem w))
    (stream_queue w)
    (trace w ++ [EvMemcpyHtoD dst (checked (next_addr w) a b)]).

(** An array passes both rules for a binding. *)
Definition valid (a : np.ndarray) (b : Binding) : bool :=
  shape_ok a b && dtype_ok a b.

(** The exception that position [i] of the loop raises, if any. *)
Definition item_error (h : list Binding) (i : nat)
    (item : np.ndarray * nat) : option exn :=
  match h !! item.2 with
  | None => Some ReferenceError
  | Some b => validation_error i item.1 b
  end.

(** The loop in closed form: the exception it stops at, and the world it
    leaves. *)
Fixpoint copies (h : list Binding) (start : nat)
    (items : list (np.ndarray * nat)) (w : World) : option exn * World :=
  match items with
  | [] => (None, w)
  | item :: rest =>
      match item_error h start item with
      | Some e => (Some e, w)
      | None =>
          copies h (S start) rest
            (copied start item.1 (default (mk_Binding "" false np.float32 [] None None)
                                          (h !! item.2))
                    (device_ptr h item.2) w)
      end
  end.

(** The destination and the elements of a host-to-device copy. *)
Definition htod_of (ev : event) : option (Z * list Z) :=
  match ev with
  | EvMemcpyHtoD dst src => Some (dst, np.arr_data src)
  | _ => None
  end.

(** The elements that reach the device for an accepted array: its own, or
    their 32-bit wrap-around when the array was narrowed. *)
Definition device_data (a : np.ndarray) (d : np.dtype) : list Z :=
  if np.dtype_eqb (np.arr_dtype a) d then np.arr_data a
  else map (np.cast np.int32) (np.arr_data a).

Definition ref_dtype (h : list Binding) (r : nat) : np.dtype :=
  from_option dtype np.float32 (h !! r).

Definition expected_copy (h : list Binding) (item : np.ndarray * nat)
    : Z * list Z :=
  (device_ptr h item.2, device_data item.1 (ref_dtype h item.2)).

Definition copy_of (h : list Binding) (item : np.ndarray * nat) (ev : event)
    : Prop :=
  htod_of ev = Some (expected_copy h item).

(** ** The loop that rebuilds the address table *)

(** The body of the second loop of [run_sequential_tasks]. *)
Definition bind_tensor (env : Env) (engine : trt.ICudaEngine) (context : nat)
    (inputs_ : list np.ndarray) (binding_addresses_ : list Z) (i : nat)
    : Py unit :=
  match trt.get_tensor_name engine i with
  | None => raise (TypeError (msg_foreign "tensor name"))
  | Some tensor_name =>
      if Nat.ltb i (length inputs_)
         && trt.is_shape_inference_io engine tensor_name then
        a ← list_get inputs_ i;
        set_tensor_address context tensor_name (np.ctypes_data a)
      else
        address ← list_get binding_addresses_ i;
        set_tensor_address context tensor_name address
  end.

(** The name of tensor [i], and the address that the loop binds it to. *)
Definition name_at (engine : trt.ICudaEngine) (i : nat) : string :=
  default "" (trt.get_tensor_name engine i).

Definition address_at (engine : trt.ICudaEngine) (inputs_ : list np.ndarray)
    (binding_addresses_ : list Z) (i : nat) : Z :=
  if Nat.ltb i (length inputs_)
     && trt.is_shape_inference_io engine (name_at engine i) then
    default 0 (np.ctypes_data <$> inputs_ !! i)
  else default 0 (binding_addresses_ !! i).

(** The world after one [set_tensor_address]. *)
Definition with_address (c : nat) (n : string) (address : Z) (w : World)
    : World :=
  match context_heap w !! c with
  | None => w
  | Some ctx =>
      mk_World (next_addr w) (heap w)
        (<[c := mk_context (context_engine ctx)
                  (<[n := address]> (tensor_addresses ctx))]> (context_heap w))
        (device_mem w) (stream_queue w)
        (trace w ++ [EvSetTensorAddress c n address])
  end.

(** The loop in closed form. *)
Definition rebound (engine : trt.ICudaEngine) (c : nat)
    (inputs_ : list np.ndarray) (addrs : list Z) (idxs : list nat) (w : World)
    : World :=
  fold_left
    (fun w i =>
       with_address c (name_at engine i) (address_at engine inputs_ addrs i) w)
    idxs w.

(** The table written by the loop over [idxs], on top of [table]. *)
Definition rebound_table (engine : trt.ICudaEngine) (inputs_ : list np.ndarray)
    (addrs : list Z) (idxs : list nat) (table : gmap string Z)
    : gmap string Z :=
  fold_left
    (fun t i => <[name_at engine i := address_at engine inputs_ addrs i]> t)
    idxs table.

(** ** Submission and synchronization *)

(** The [try] block of [run_sequential_tasks] with its handler. *)
Definition attempt (env : Env) (context : nat) (stream_handle : Z)
    (model_name : string) : Py (option pyval) :=
  try_except
    (execute_async_v3 env context stream_handle;;
     synchronize env stream_handle;;
     mret None)
    (fun e =>
       emit (EvPrint model_name e);;
       mret (Some (VTuple [VNone; VInt 0]))).

(** What the device does with the work of this call: the exception raised by
    the submission or by the synchronization, or the memory it leaves. *)
Definition device_outcome (env : Env) (ctx : IExecutionContext)
    (mem : gmap Z (list Z)) : exn * bool + gmap Z (list Z) :=
  match submit env (context_engine ctx) (tensor_addresses ctx) with
  | Some e => inl (e, true)
  | None =>
      match device_run env (context_engine ctx) (tensor_addresses ctx) mem with
      | inl e => inl (e, false)
      | inr mem' => inr mem'
      end
  end.

(** The world after the [try] block. *)
Definition attempted (env : Env) (c : nat) (ctx : IExecutionContext)
    (model_name : string) (w : World) : World :=
  match device_outcome env ctx (device_mem w) with
  | inl (e, true) =>
      logged [EvExecuteAsync c true; EvPrint model_name e] w
  | inl (e, false) =>
      mk_World (next_addr w) (heap w) (context_heap w) (device_mem w) []
        (trace w ++ [EvExecuteAsync c false; EvSynchronize true;
                     EvPrint model_name e])
  | inr mem' =>
      mk_World (next_addr w) (heap w) (context_heap w) mem' []
        (trace w ++ [EvExecuteAsync c false; EvSynchronize false])
  end.

(** ** The loop that delivers the outputs *)

(** The body of the comprehension over the output bindings. *)
Definition fetch_output (output : nat) : Py np.ndarray :=
  o ← deref output;
  host_output ← np_empty (shape o) (dtype o);
  buf ← device_buffer output;
  cuda_memcpy_dtoh host_output (ptr buf).

Definition ref_shape (h : list Binding) (r : nat) : list Z :=
  from_option shape [] (h !! r).

(** The array delivered for output [r] when it is allocated at [addr]. *)
Definition output_array (h : list Binding) (mem : gmap Z (list Z)) (addr : Z)
    (r : nat) : np.ndarray :=
  np.mk_ndarray addr (ref_dtype h r) (ref_shape h r)
    (default (replicate (Z.to_nat (np.volume (ref_shape h r))) 0)
             (mem !! device_ptr h r)).

(** The arrays and the copies of the whole loop, from address [addr] on. *)
Fixpoint fetched (h : list Binding) (mem : gmap Z (list Z)) (addr : Z)
    (refs : list nat) : list np.ndarray :=
  match refs with
  | [] => []
  | r :: refs' => output_array h mem addr r :: fetched h mem (addr + 1) refs'
  end.

Fixpoint fetches (h : list Binding) (addr : Z) (refs : list nat) : list event :=
  match refs with
  | [] => []
  | r :: refs' => EvMemcpyDtoH addr (device_ptr h r) :: fetches h (addr + 1) refs'
  end.

(** ** [run_sequential_tasks], phase by phase *)

(** The arrays of a call in binding order: the list itself, or the values of
    the dict under the names of the input bindings. *)
Fixpoint by_names (h : list Binding) (d : gmap string np.ndarray)
    (refs : list nat) : exn + list np.ndarray :=
  match refs with
  | [] => inr []
  | r :: refs' =>
      match h !! r with
      | None => inl ReferenceError
      | Some o =>
          match d !! name o with
          | None => inl (KeyError (name o))
          | Some a =>
              match by_names h d refs' with
              | inl e => inl e
              | inr l => inr (a :: l)
              end
          end
      end
  end.

Definition resolve (h : list Binding) (inputs_bindings : list nat)
    (inputs_arg : py_inputs) : exn + list np.ndarray :=
  match inputs_arg with
  | InList l => inr l
  | InDict d => by_names h d inputs_bindings
  end.

(** The call in closed form, for a model whose tables are [c], [addrs],
    [ins] and [outs], and whose context holds [ctx] when the call starts. *)
Definition run_closed (env : Env) (model_name : string)
    (engine : trt.ICudaEngine) (c : nat) (ctx : IExecutionContext)
    (addrs : list Z) (ins outs : list nat) (inputs_arg : py_inputs)
    (w : World) : (exn + pyval) * World :=
  match resolve (heap w) ins inputs_arg with
  | inl e => (inl e, w)
  | inr l =>
      if negb (Nat.eqb (length l) (length ins)) then
        (inl (ValueError (msg_input_count model_name)), w)
      else
        match copies (heap w) 0 (zip l ins) w with
        | (Some e, w1) => (inl e, w1)
        | (None, w1) =>
            let idxs := seq 0 (trt.num_io_tensors engine) in
            let w2 := rebound engine c l addrs idxs w1 in
            let ctx2 :=
              mk_context (context_engine ctx)
                (rebound_table engine l addrs idxs (tensor_addresses ctx)) in
            let w3 := attempted env c ctx2 model_name w2 in
            match device_outcome env ctx2 (device_mem w2) with
            | inl _ => (inr (VTuple [VNone; VInt 0]), w3)
            | inr _ =>
                (inr (VList (VArray <$> fetched (heap w) (device_mem w3)
                                                (next_addr w3) outs)),
                 logged (fetches (heap w) (next_addr w3) outs)
                        (bump (Z.of_nat (length outs)) w3))
            end
        end
  end.

(** ** The paths of a call *)

Section Paths.

Variables (env : Env) (m : string) (e : trt.ICudaEngine) (c : nat)
          (ctx : IExecutionContext) (addrs : list Z) (ins outs : list nat)
          (inputs_arg : py_inputs) (w : World).

(** The address events of the call and the table they leave, for the
    arrays [l]. *)
Definition binds (l : list np.ndarray) : list event :=
  map (fun i => EvSetTensorAddress c (name_at e i) (address_at e l addrs i))
      (seq 0 (trt.num_io_tensors e)).

Definition bound_context (l : list np.ndarray) : IExecutionContext :=
  mk_context (context_engine ctx)
    (rebound_table e l addrs (seq 0 (trt.num_io_tensors e))
                   (tensor_addresses ctx)).

(** The events of a failed execution. *)
Definition failure_events (ex : exn) (at_submission : bool) : list event :=
  if at_submission then [EvExecuteAsync c true; EvPrint m ex]
  else [EvExecuteAsync c false; EvSynchronize true; EvPrint m ex].

(** Every call of a ready manager takes one of five paths. *)
Inductive run_path : (exn + pyval) * World -> Prop :=
| path_unresolved ex :
    resolve (heap w) ins inputs_arg = inl ex ->
    run_path (inl ex, w)
| path_count l :
    resolve (heap w) ins inputs_arg = inr l ->
    length l <> length ins ->
    run_path (inl (ValueError (msg_input_count m)), w)
| path_invalid l k item ex evs w' :
    resolve (heap w) ins inputs_arg = inr l ->
    length l = length ins ->
    zip l ins !! k = Some item ->
    item_error (heap w) k item = Some ex ->
    (forall j it, (j < k)%nat -> zip l ins !! j = Some it ->
                  item_error (heap w) j it = None) ->
    Forall2 (copy_of (heap w)) (take k (zip l ins)) evs ->
    trace w' = trace w ++ evs ->
    heap w' = heap w ->
    context_heap w' = context_heap w ->
    stream_queue w' = stream_queue w ->
    next_addr w <= next_addr w' ->
    (k = 0%nat -> w' = w) ->
    run_path (inl ex, w')
| path_failed l evs w1 ex at_submission w' :
    resolve (heap w) ins inputs_arg = inr l ->
    length l = length ins ->
    (forall j it, zip l ins !! j = Some it ->
                  item_error (heap w) j it = None) ->
    Forall2 (copy_of (heap w)) (zip l ins) evs ->
    next_addr w <= next_addr w1 ->
    device_outcome env (bound_context l) (device_mem w1)
    = inl (ex, at_submission) ->
    trace w' = trace w ++ evs ++ binds l ++ failure_events ex at_submission ->
    heap w' = heap w ->
    context_heap w' = <[c := bound_context l]> (context_heap w) ->
    stream_queue w' = [] ->
    next_addr w' = next_addr w1 ->
    device_mem w' = device_mem w1 ->
    run_path (inr (VTuple [VNone; VInt 0]), w')
| path_done l evs w1 mem' w' :
    resolve (heap w) ins inputs_arg = inr l ->
    length l = length ins ->
    (forall j it, zip l ins !! j = Some it ->
                  item_error (heap w) j it = None) ->
    Forall2 (copy_of (heap w)) (zip l ins) evs ->
    next_addr w <= next_addr w1 ->
    device_outcome env (bound_context l) (device_mem w1) = inr mem' ->
    trace w' = trace w ++ evs ++ binds l
               ++ [EvExecuteAsync c false; EvSynchronize false]
               ++ fetches (heap w) (next_addr w1) outs ->
    heap w' = heap w ->
    context_heap w' = <[c := bound_context l]> (context_heap w) ->
    stream_queue w' = [] ->
    next_addr w' = next_addr w1 + Z.of_nat (length outs) ->
    device_mem w' = mem' ->
    run_path (inr (VList (VArray <$> fetched (heap w) mem' (next_addr w1) outs)),
              w').

End Paths.

(** ** The invariant is stable *)

(** Bindings are only ever added, or given a device buffer. *)
Definition heap_le (h h' : list Binding) : Prop :=
  forall r b,
    h !! r = Some b ->
    exists b',
      h' !! r = Some b' /\ name b' = name b /\ is_input b' = is_input b /\
      dtype b' = dtype b /\ shape b' = shape b /\
      _host_buf b' = _host_buf b /\
      forall buf, _device_buf b = Some buf -> _device_buf b' = Some buf.

(** Contexts are only ever added, or rebound. *)
Definition contexts_le (cs cs' : list IExecutionContext) : Prop :=
  forall i x,
    cs !! i = Some x ->
    exists x', cs' !! i = Some x' /\ context_engine x' = context_engine x.

(** The tables of a model, as [run_sequential_tasks] reads them. *)
Definition input_refs (h : list Binding) (bs : list nat) : list nat :=
  List.filter (ref_is_input h) bs.

Definition output_refs (h : list Binding) (bs : list nat) : list nat :=
  List.filter (fun r => negb (ref_is_input h r)) bs.

(** ** Construction *)

Definition with_device (b : Binding) (buf : buffer) : Binding :=
  mk_Binding (name b) (is_input b) (dtype b) (shape b) (_host_buf b) (Some buf).

Definition is_device_alloc (ev : event) : bool :=
  match ev with EvDeviceAlloc _ => true | _ => false end.

(** The world with another heap. *)
Definition with_heap (h : list Binding) (w : World) : World :=
  mk_World (next_addr w) h (context_heap w) (device_mem w) (stream_queue w)
           (trace w).

(** The binding that [Binding(engine, i)] makes. *)
Definition built (e : trt.ICudaEngine) (i : nat) (b : Binding) : Prop :=
  exists n,
    trt.get_tensor_name e i = Some n /\ name b = n /\
    is_input b = trt.TensorIOMode_eqb (trt.get_tensor_mode e n) trt.INPUT /\
    dtype_map (trt.get_tensor_dtype e n) = Some (dtype b) /\
    shape b = trt.get_tensor_shape e n /\
    _host_buf b = None /\ _device_buf b = None.

Definition is_engine_event (ev : event) : bool :=
  match ev with
  | EvDeserialize _ | EvCreateContext _ | EvDeviceAlloc _ => true
  | _ => false
  end.

(** The manager with the tables of one more model. *)
Definition with_model (self : TensorRTEngine) (m : string)
    (e : trt.ICudaEngine) (c : nat) (bs : list nat) (addrs : list Z)
    (ins outs : list nat) : TensorRTEngine :=
  mk_TensorRTEngine (cfg self) (model_paths self) (plugin_path self)
    (<[m := e]> (engines self)) (<[m := c]> (contexts self))
    (<[m := bs]> (bindings self)) (<[m := addrs]> (binding_addresses self))
    (<[m := ins]> (inputs self)) (<[m := outs]> (outputs self)) (stream self).

(** The world with one more context, fresh from its engine. *)
Definition with_context (e : trt.ICudaEngine) (w : World) : World :=
  mk_World (next_addr w) (heap w) (context_heap w ++ [mk_context e ∅])
           (device_mem w) (stream_queue w)
           (trace w ++ [EvCreateContext (length (context_heap w))]).

(** The six models of the driver, in the order of the dict literal. *)
Definition model_names : list string :=
  ["feature_extractor"; "motion_extractor"; "generator";
   "stitching_retargeting"; "stitching_retargeting_eye";
   "stitching_retargeting_lip"].

(** The dict literal of [__init__]. *)
Definition read_paths (half : bool) (kwargs : gmap string string)
    : Py (list (string * string)) :=
  if half then
    f ← dict_get kwargs "rt_F_half";
    m ← dict_get kwargs "rt_M_half";
    gw ← dict_get kwargs "rt_GW_half";
    s ← dict_get kwargs "rt_S_half";
    se ← dict_get kwargs "rt_SE_half";
    sl ← dict_get kwargs "rt_SL_half";
    mret [("feature_extractor", f); ("motion_extractor", m);
          ("generator", gw); ("stitching_retargeting", s);
          ("stitching_retargeting_eye", se);
          ("stitching_retargeting_lip", sl)]
  else
    f ← dict_get kwargs "rt_F";
    m ← dict_get kwargs "rt_M";
    gw ← dict_get kwargs "rt_GW";
    s ← dict_get kwargs "rt_S";
    se ← dict_get kwargs "rt_SE";
    sl ← dict_get kwargs "rt_SL";
    mret [("feature_extractor", f); ("motion_extractor", m);
          ("generator", gw); ("stitching_retargeting", s);
          ("stitching_retargeting_eye", se);
          ("stitching_retargeting_lip", sl)].

Definition is_plugin_event (ev : event) : bool :=
  match ev with EvDlopen _ | EvInitPlugins => true | _ => false end.

(** ** The events of a call *)

Definition is_alloc_event (ev : event) : bool :=
  match ev with EvDeviceAlloc _ | EvPagelockedAlloc _ => true | _ => false end.

Definition is_device_failure (ev : event) : bool :=
  match ev with
  | EvExecuteAsync _ true | EvSynchronize true => true
  | _ => false
  end.

Definition is_device_work (ev : event) : bool :=
  match ev with
  | EvExecuteAsync _ _ | EvSynchronize _ | EvSetTensorAddress _ _ _
  | EvMemcpyDtoH _ _ => true
  | _ => false
  end.

(** Neither an allocation nor a failure of the device. *)
Definition quiet (ev : event) : bool :=
  negb (is_alloc_event ev) && negb (is_device_failure ev).

(** ** Calls that stop at validation *)

(** The positions before [k] pass validation. *)
Definition valid_before (h : list Binding) (l : list np.ndarray)
    (ins : list nat) (k : nat) : Prop :=
  forall j a r b,
    (j < k)%nat -> l !! j = Some a -> ins !! j = Some r -> h !! r = Some b ->
    valid a b = true.

(** The shapes differ, and not as a scalar against the unit shape. *)
Definition shape_mismatch (a : np.ndarray) (b : Binding) : Prop :=
  np.arr_shape a <> shape b /\ ~ (shape b = [1] /\ np.arr_shape a = []).

(** * A small installation *)

(** Two engines, an environment whose device works and two whose device
    fails, and the manager that [__init__] builds from them.  The examples
    and the counterexamples below are evaluated on these. *)
Module Demo.

(** Two inputs and one output; the first input is a 32-bit integer. *)
Definition pair_engine : trt.ICudaEngine :=
  trt.mk_engine
    [trt.mk_tensor "x" trt.INPUT trt.INT32 [1] false;
     trt.mk_tensor "y" trt.INPUT trt.FLOAT [2] false;
     trt.mk_tensor "out" trt.OUTPUT trt.FLOAT [2] false].

(** An engine that lists its output before its shape input. *)
Definition shape_engine : trt.ICudaEngine :=
  trt.mk_engine
    [trt.mk_tensor "out" trt.OUTPUT trt.FLOAT [2] false;
     trt.mk_tensor "s" trt.INPUT trt.INT32 [1] true].

Definition files (path : string) : exn + option trt.ICudaEngine :=
  if String.eqb path "S.engine" then inr (Some shape_engine)
  else inr (Some pair_engine).

Definition healthy : Env :=
  mk_Env (fun _ => None) files (fun _ _ => None) (fun _ _ mem => inr mem).

Definition failing_submit : Env :=
  mk_Env (fun _ => None) files
    (fun _ _ => Some (RuntimeError (msg_foreign "enqueue failed")))
    (fun _ _ mem => inr mem).

Definition failing_sync : Env :=
  mk_Env (fun _ => None) files (fun _ _ => None)
    (fun _ _ _ => inl (RuntimeError (msg_foreign "launch failed"))).

Definition kwargs : gmap string string :=
  list_to_map
    [("rt_F", "F.engine"); ("rt_M", "M.engine"); ("rt_GW", "GW.engine");
     ("rt_S", "S.engine"); ("rt_SE", "SE.engine"); ("rt_SL", "SL.engine");
     ("grid_sample_3d", "libgrid_sample_3d_plugin.so")].

(** A process that has allocated nothing yet. *)
Definition boot : World := mk_World 0 [] [] ∅ [] [].

Definition constructed : (exn + TensorRTEngine) * World :=
  Eval vm_compute in __init__ healthy false kwargs boot.

Definition manager : TensorRTEngine :=
  match constructed.1 with
  | inr self => self
  | inl _ => mk_TensorRTEngine ∅ [] "" ∅ ∅ ∅ ∅ ∅ ∅ 0
  end.

Definition world : World := constructed.2.

(** A valid pair of inputs for [pair_engine]. *)
Definition x_ok : np.ndarray := np.mk_ndarray 1000 np.int32 [1] [7].
Definition y_ok : np.ndarray := np.mk_ndarray 1001 np.float32 [2] [5; 6].

(** A second input of the wrong shape. *)
Definition y_bad : np.ndarray := np.mk_ndarray 1001 np.float32 [3] [5; 6; 7].

(** A 64-bit input whose value does not fit 32 bits. *)
Definition x_wide : np.ndarray := np.mk_ndarray 1000 np.int64 [1] [2 ^ 31].

(** The shape input of [shape_engine]. *)
Definition s_ok : np.ndarray := np.mk_ndarray 1002 np.int32 [1] [2].

End Demo.

(** * Notions used in the claims *)

(** ** Sequences of calls *)

(** The worlds that a manager reaches by calls to [run_sequential_tasks],
    in any environment and with any arguments. *)
Inductive runs (self : TensorRTEngine) : World -> World -> Prop :=
| runs_none w : runs self w w
| runs_call env m inputs_arg r w w1 w2 :
    run_sequential_tasks env self m inputs_arg w = (r, w1) ->
    runs self w1 w2 ->
    runs self w w2.

(** ** Calls that reach the device *)

(** A device that never raises. *)
Definition healthy_device (env : Env) : Prop :=
  forall e table,
    submit env e table = None /\
    forall mem, exists mem', device_run env e table mem = inr mem'.

(** ** The outputs of a call *)

(** What the engine says of a tensor when asked by its name. *)
Definition reported_input (e : trt.ICudaEngine) (t : trt.tensor) : bool :=
  trt.TensorIOMode_eqb (trt.get_tensor_mode e (trt.tensor_name t)) trt.INPUT.

Definition ref_name (h : list Binding) (r : nat) : string :=
  from_option name "" (h !! r).

(** Array [a] is what the call delivers for the output binding [r]: it has
    the shape and the type of the binding, and its elements are those of the
    device buffer of the binding, copied by a device-to-host copy of this
    call. *)
Definition delivers (w w' : World) (evs : list event) (r : nat)
    (a : np.ndarray) : Prop :=
  exists b buf,
    heap w !! r = Some b /\ is_input b = false /\ _device_buf b = Some buf /\
    np.arr_shape a = shape b /\ np.arr_dtype a = dtype b /\
    np.arr_data a
    = default (replicate (Z.to_nat (np.volume (shape b))) 0)
              (device_mem w' !! ptr buf) /\
    In (EvMemcpyDtoH (np.ctypes_data a) (ptr buf)) evs.

(** ** The address table of a call *)

Definition is_input_tensor (t : trt.tensor) : bool :=
  trt.TensorIOMode_eqb (trt.tensor_mode t) trt.INPUT.

(** The tensors that are inputs come first, [n] of them. *)
Definition inputs_first (e : trt.ICudaEngine) : Prop :=
  exists n, forall i t,
    trt.io_tensors e !! i = Some t -> is_input_tensor t = Nat.ltb i n.

(** The position of tensor [i] among the inputs of the engine. *)
Definition input_position (e : trt.ICudaEngine) (i : nat) : nat :=
  length (List.filter is_input_tensor (take i (trt.io_tensors e))).

(** The address that C8 gives to tensor [t], of index [i] and binding [r]:
    the address of the array supplied for it when it is a shape-inference
    input, the address of its device buffer otherwise. *)
Definition claimed_address (e : trt.ICudaEngine) (l : list np.ndarray)
    (h : list Binding) (r i : nat) (t : trt.tensor) : option Z :=
  if is_input_tensor t && trt.shape_inference_io t then
    np.ctypes_data <$> l !! input_position e i
  else Some (device_ptr h r).

(** The address that the code gives to it: by the index of the tensor. *)
Definition indexed_address (l : list np.ndarray) (h : list Binding)
    (r i : nat) (t : trt.tensor) : option Z :=
  if Nat.ltb i (length l) && trt.shape_inference_io t then
    np.ctypes_data <$> l !! i
  else Some (device_ptr h r).

(** ** Engines whose inputs do not come first *)

(** An engine with an output shape tensor between its two inputs, and the
    installation that has it as its second model. *)
Definition mixed_engine : trt.ICudaEngine :=
  trt.mk_engine
    [trt.mk_tensor "a" trt.INPUT trt.FLOAT [2] false;
     trt.mk_tensor "o" trt.OUTPUT trt.INT32 [1] true;
     trt.mk_tensor "b" trt.INPUT trt.FLOAT [2] false].

Definition mixed_files (path : string) : exn + option trt.ICudaEngine :=
  if String.eqb path "M.engine" then inr (Some mixed_engine)
  else Demo.files path.

Definition mixed_device : Env :=
  mk_Env (fun _ => None) mixed_files (fun _ _ => None)
         (fun _ _ mem => inr mem).

Definition mixed_constructed : (exn + TensorRTEngine) * World :=
  Eval vm_compute in __init__ mixed_device false Demo.kwargs Demo.boot.

Definition mixed_manager : TensorRTEngine :=
  match mixed_constructed.1 with
  | inr self => self
  | inl _ => Demo.manager
  end.

Definition mixed_world : World := mixed_constructed.2.

(** The two inputs of [mixed_engine]. *)
Definition a_in : np.ndarray := np.mk_ndarray 2000 np.float32 [2] [1; 2].
Definition b_in : np.ndarray := np.mk_ndarray 3000 np.float32 [2] [3; 4].

(** * Notions used in the further properties *)

Definition with_host (b : Binding) (buf : buffer) : Binding :=
  mk_Binding (name b) (is_input b) (dtype b) (shape b) (Some buf)
             (_device_buf b).

(** A binding with nothing allocated, alone in a new process. *)
Definition lone_binding : Binding :=
  mk_Binding "t" true np.float32 [2; 3] None None.

Definition lone_world : World := mk_World 0 [lone_binding] [] ∅ [] [].

(** The binding of a tensor whose type the table of [Binding.__init__]
    maps to [dt]: the tensor's own name, direction and shape, and no buffer
    yet. *)
Definition binding_of_tensor (t : trt.tensor) (dt : np.dtype) : Binding :=
  mk_Binding (trt.tensor_name t)
             (trt.TensorIOMode_eqb (trt.tensor_mode t) trt.INPUT)
             dt (trt.tensor_shape t) None None.

(** The types differ, and not as 64-bit integers against a 32-bit slot. *)
Definition dtype_mismatch (a : np.ndarray) (b : Binding) : Prop :=
  np.arr_dtype a <> dtype b /\
  ~ (np.arr_dtype a = np.int64 /\ dtype b = np.int32).

(** A float array offered for the integer input of the two-input engine. *)
Definition x_float : np.ndarray := np.mk_ndarray 1000 np.float32 [1] [7].

(** The arrays of a call given by name: those of both inputs of the first
    model and one more, and those of its first input only. *)
Definition by_name_xy : gmap string np.ndarray :=
  list_to_map [("y", Demo.y_ok); ("unused", Demo.y_bad); ("x", Demo.x_ok)].

Definition by_name_x : gmap string np.ndarray :=
  list_to_map [("x", Demo.x_ok)].

(** The world with another allocation frontier. *)
Definition at_addr (addr : Z) (w : World) : World :=
  mk_World addr (heap w) (context_heap w) (device_mem w) (stream_queue w)
           (trace w).

(** [np.array(a)] when the next free address is [addr]. *)
Definition copy_at (addr : Z) (a : np.ndarray) : np.ndarray :=
  np.mk_ndarray addr (np.arr_dtype a) (np.arr_shape a) (np.arr_data a).

(** The comprehension of [inference_tensorrt] in closed form: the exception
    it stops at or the arrays it makes, and the next free address. *)
Fixpoint prevalidated (h : list Binding) (task_inputs : list nat)
    (start : nat) (l : list np.ndarray) (addr : Z)
    : (exn + list np.ndarray) * Z :=
  match l with
  | [] => (inr [], addr)
  | a :: l' =>
      match task_inputs !! start with
      | None =>
          (inl (IndexError (msg_foreign "list index out of range")), addr + 1)
      | Some r =>
          match h !! r with
          | None => (inl ReferenceError, addr + 1)
          | Some b =>
              match validation_error start (copy_at addr a) b with
              | Some e => (inl e, addr + 1)
              | None =>
                  let addr1 :=
                    if np.dtype_eqb (np.arr_dtype a) (dtype b) then addr + 1
                    else addr + 1 + 2 in
                  match prevalidated h task_inputs (S start) l' addr1 with
                  | (inl e, addr') => (inl e, addr')
                  | (inr rest, addr') =>
                      (inr (checked (addr + 1) (copy_at addr a) b :: rest),
                       addr')
                  end
              end
          end
      end
  end.

(** The keys that [__init__] reads for the engine files, by precision, and
    all the keys it reads, in the order in which it reads them. *)
Definition path_keys (half : bool) : list string :=
  if half then
    ["rt_F_half"; "rt_M_half"; "rt_GW_half"; "rt_S_half"; "rt_SE_half";
     "rt_SL_half"]
  else ["rt_F"; "rt_M"; "rt_GW"; "rt_S"; "rt_SE"; "rt_SL"].

Definition required_keys (half : bool) : list string :=
  path_keys half ++ ["grid_sample_3d"].

(** The first of [keys] that the dict lacks. *)
Fixpoint first_missing (kwargs : gmap string string) (keys : list string)
    : option string :=
  match keys with
  | [] => None
  | k :: keys' =>
      match kwargs !! k with
      | Some _ => first_missing kwargs keys'
      | None => Some k
      end
  end.

(** The models with the paths configured for them. *)
Definition configured (half : bool) (kwargs : gmap string string)
    : list (string * string) :=
  zip model_names (omap (fun k => kwargs !! k) (path_keys half)).

(** A configuration without the path of the generator. *)
Definition kwargs_without_generator : gmap string string :=
  delete "rt_GW" Demo.kwargs.

(** An environment in which the plugin library cannot be loaded. *)
Definition no_plugin : Env :=
  mk_Env (fun _ => Some (OSError (msg_foreign "cannot open shared object file")))
         Demo.files (fun _ _ => None) (fun _ _ mem => inr mem).

(** The exception that [Binding(engine, i)] raises, if any. *)
Definition binding_error (e : trt.ICudaEngine) (i : nat) : option exn :=
  match trt.get_tensor_name e i with
  | None | Some "" => Some (IndexError (msg_binding_index i))
  | Some n =>
      match dtype_map (trt.get_tensor_dtype e n) with
      | None => Some (KeyError "DataType")
      | Some _ => None
      end
  end.

(** The exception of the first binding that cannot be made. *)
Fixpoint tensors_error (e : trt.ICudaEngine) (idxs : list nat) : option exn :=
  match idxs with
  | [] => None
  | i :: idxs' =>
      match binding_error e i with
      | Some ex => Some ex
      | None => tensors_error e idxs'
      end
  end.

(** The exception that loading the model at [path] raises, if any: that of
    opening the file, that of using the [None] of a failed deserialization,
    or that of the first binding that cannot be made. *)
Definition load_error (env : Env) (path : string) : option exn :=
  match read_engine env path with
  | inl ex => Some ex
  | inr None => Some AttributeError
  | inr (Some e) => tensors_error e (seq 0 (trt.num_io_tensors e))
  end.

(** An environment in which the file of the generator cannot be opened. *)
Definition no_generator : Env :=
  mk_Env (fun _ => None)
         (fun path =>
            if String.eqb path "GW.engine"
            then inl (OSError (msg_foreign "No such file or directory"))
            else Demo.files path)
         (fun _ _ => None) (fun _ _ mem => inr mem).

Definition is_dtoh (ev : event) : bool :=
  match ev with EvMemcpyDtoH _ _ => true | _ => false end.

(** A second manager, constructed in the process of the first. *)
Definition second_constructed : (exn + TensorRTEngine) * World :=
  Eval vm_compute in __init__ Demo.healthy false Demo.kwargs Demo.world.

Definition second_manager : TensorRTEngine :=
  match second_constructed.1 with
  | inr self => self
  | inl _ => Demo.manager
  end.

Definition second_world : World := second_constructed.2.

(** * The download of the checkpoints ([inference_config.py])

    The module downloads each checkpoint into the working directory unless a
    file of that name is there.  The file system, the lines printed and the
    answers of the network are the state and the environment of this part. *)

(** ** Strings *)

(** [s.split(sep)] for a separator of one character: never empty. *)
Fixpoint str_split (sep : ascii) (s : string) : list string :=
  match s with
  | EmptyString => [EmptyString]
  | String c s' =>
      if Ascii.eqb c sep then EmptyString :: str_split sep s'
      else
        match str_split sep s' with
        | piece :: pieces => String c piece :: pieces
        | [] => [String c EmptyString]
        end
  end.

Fixpoint contains (c : ascii) (s : string) : bool :=
  match s with
  | EmptyString => false
  | String c' s' => Ascii.eqb c' c || contains c s'
  end.

(** [url.split('/')[-1].split('?')[0]]. *)
Definition filename_of (url : string) : string :=
  hd EmptyString
     (str_split "?"%char (List.last (str_split "/"%char url) EmptyString)).

(** [os.path.join(a, b)] on a POSIX system. *)
Definition os_path_join (a b : string) : string :=
  if match b with String c _ => Ascii.eqb c "/" | EmptyString => false end
  then b
  else if String.eqb a EmptyString then b
  else if Ascii.eqb (List.last (list_ascii_of_string a) "/"%char) "/"%char
  then a +:+ b
  else a +:+ "/" +:+ b.

(** ** Files, printed lines and responses *)

Inductive node := File (data : list Byte.byte) | Directory.

Inductive line :=
| line_downloading (outf : string)
| line_error
| line_downloaded (outf : string).

Record Disk := mk_Disk {
  files : gmap string node;
  stdout : list line
}.

(** What [requests.get(url, stream=True)] gives: the status, which the
    code never reads; the [content-length] header, absent, or not a number
    (then [int] raises), or a number; the chunks that [iter_content] yields
    and the exception that it raises after them, if the connection breaks. *)
Record Response := mk_Response {
  status_code : Z;
  content_length : option (exn + Z);
  chunks : list (list Byte.byte);
  broken : option exn
}.

Record Net := mk_Net {
  requests_get : string -> exn + Response;
  open_wb : gmap string node -> string -> option exn
}.

Definition os_path_exists (d : Disk) (path : string) : bool :=
  bool_decide (is_Some (files d !! path)).

Definition print (l : line) (d : Disk) : Disk :=
  mk_Disk (files d) (stdout d ++ [l]).

(** [file.write(data)] on the file opened at [path]. *)
Definition file_write (path : string) (data : list Byte.byte) (d : Disk)
    : Disk :=
  match files d !! path with
  | Some (File old) => mk_Disk (<[path := File (old ++ data)]> (files d)) (stdout d)
  | _ => d
  end.

(** The loop over [response.iter_content(block_size)]: the counter of the
    progress bar and the disk after each chunk. *)
Fixpoint write_chunks (path : string) (l : list (list Byte.byte)) (n : Z)
    (d : Disk) : Z * Disk :=
  match l with
  | [] => (n, d)
  | data :: l' =>
      write_chunks path l' (n + Z.of_nat (length data)) (file_write path data d)
  end.

(** [downloading(url, outf)]. *)
Definition downloading (net : Net) (url outf : string) (d : Disk)
    : (exn + unit) * Disk :=
  if negb (os_path_exists d outf) then
    let d := print (line_downloading outf) d in
    match requests_get net url with
    | inl e => (inl e, d)
    | inr response =>
        match default (inr 0) (content_length response) with
        | inl e => (inl e, d)
        | inr total_size_in_bytes =>
            match open_wb net (files d) outf with
            | Some e => (inl e, d)
            | None =>
                let d := mk_Disk (<[outf := File []]> (files d)) (stdout d) in
                let '(n, d) := write_chunks outf (chunks response) 0 d in
                match broken response with
                | Some e => (inl e, d)
                | None =>
                    let d :=
                      if negb (Z.eqb total_size_in_bytes 0)
                         && negb (Z.eqb n total_size_in_bytes)
                      then print line_error d else d in
                    (inr tt, print (line_downloaded outf) d)
                end
            end
        end
    end
  else (inr tt, d).

(** A disk with nothing on it, a server that announces five bytes and sends
    three, and one whose connection breaks after the first chunk. *)
Definition empty_disk : Disk := mk_Disk ∅ [].

Definition short_response : Response :=
  mk_Response 200 (Some (inr 5)) [[Byte.x61; Byte.x62]; [Byte.x63]] None.

Definition short_server : Net :=
  mk_Net (fun _ => inr short_response) (fun _ _ => None).

Definition breaking_server : Net :=
  mk_Net (fun _ =>
            inr (mk_Response 200 (Some (inr 5)) [[Byte.x61; Byte.x62]]
                   (Some (OSError (msg_foreign "Connection broken")))))
         (fun _ _ => None).

(** * Properties *)

(** ** The monad *)

Lemma bind_unfold {A B} (m : Py A) (f : A -> Py B) (w : World) :
  (m ≫= f) w =
  match m w with
  | (inl e, w') => (inl e, w')
  | (inr a, w') => f a w'
  end.
Proof. reflexivity. Qed.

Lemma bind_returns {A B} (m : Py A) (f : A -> Py B) w a w' :
  m w = (inr a, w') -> (m ≫= f) w = f a w'.
Proof. intros H. rewrite bind_unfold, H. reflexivity. Qed.

(** ** numpy facts *)

Lemma shape_eqb_eq s t : np.shape_eqb s t = true <-> s = t.
Proof.
  revert t. induction s as [|x s IH]; intros [|y t]; simpl; try (split; congruence).
  rewrite andb_true_iff, Z.eqb_eq, IH. split.
  - intros [-> ->]. reflexivity.
  - intros H. injection H. auto.
Qed.

Lemma shape_eqb_refl s : np.shape_eqb s s = true.
Proof. apply shape_eqb_eq. reflexivity. Qed.

Lemma shape_eqb_neq s t : np.shape_eqb s t = false <-> s <> t.
Proof.
  rewrite <- shape_eqb_eq. destruct (np.shape_eqb s t); split; congruence.
Qed.

Lemma wrap_signed_range w v :
  0 < w -> - 2 ^ (w - 1) <= np.wrap_signed w v < 2 ^ (w - 1).
Proof.
  intros Hw. unfold np.wrap_signed.
  assert (H2 : 2 ^ w = 2 * 2 ^ (w - 1)).
  { rewrite <- Z.pow_succ_r by lia. f_equal. lia. }
  assert (Hp : 0 < 2 ^ (w - 1)) by (apply Z.pow_pos_nonneg; lia).
  pose proof (Z.mod_pos_bound (v + 2 ^ (w - 1)) (2 ^ w)) as Hb. lia.
Qed.

Lemma wrap_signed_id w v :
  0 < w -> - 2 ^ (w - 1) <= v < 2 ^ (w - 1) -> np.wrap_signed w v = v.
Proof.
  intros Hw Hv. unfold np.wrap_signed.
  assert (H2 : 2 ^ w = 2 * 2 ^ (w - 1)).
  { rewrite <- Z.pow_succ_r by lia. f_equal. lia. }
  rewrite Z.mod_small by lia. lia.
Qed.

(** Widening a 32-bit value to 64 bits keeps it. *)
Lemma widen_narrowed v :
  np.cast np.int64 (np.cast np.int32 v) = np.cast np.int32 v.
Proof.
  simpl. apply wrap_signed_id; [lia|].
  pose proof (wrap_signed_range 32 v ltac:(lia)) as H.
  change (32 - 1) with 31 in H. change (64 - 1) with 63.
  assert (2 ^ 31 <= 2 ^ 63) by (apply Z.pow_le_mono_r; lia). lia.
Qed.

Lemma widen_narrowed_list l :
  map (np.cast np.int64) (map (np.cast np.int32) l) = map (np.cast np.int32) l.
Proof.
  induction l as [|v l IH]; [reflexivity|].
  cbn [map]. rewrite widen_narrowed, IH. reflexivity.
Qed.

(** A value survives the narrowing to 32 bits exactly when it is
    representable there. *)
Lemma narrow_lossless v :
  np.cast np.int32 v = v <-> np.representable np.int32 v.
Proof.
  simpl. split.
  - intros H. rewrite <- H.
    pose proof (wrap_signed_range 32 v ltac:(lia)) as R. exact R.
  - intros H. apply wrap_signed_id; [lia | exact H].
Qed.

Lemma narrow_lossless_list l :
  map (np.cast np.int32) l = l <-> Forall (np.representable np.int32) l.
Proof.
  induction l as [|v l IH]; [split; [constructor | reflexivity]|].
  cbn [map]. split.
  - intros [= Hv Hl]. constructor; [apply narrow_lossless, Hv | apply IH, Hl].
  - intros H. inversion H as [|? ? Hv Hl]; subst.
    f_equal; [apply narrow_lossless, Hv | apply IH, Hl].
Qed.

(** ** [check_input_validity] *)

Lemma check_input_validity_spec idx a b w :
  check_input_validity idx a b w =
  match validation_error idx a b with
  | Some e => (inl e, w)
  | None =>
      (inr (checked (next_addr w) a b),
       if np.dtype_eqb (np.arr_dtype a) (dtype b) then w else bump 2 w)
  end.
Proof.
  unfold check_input_validity, validation_error, shape_ok, dtype_ok, checked.
  destruct a as [addr dt sh data], b as [n inp bdt bsh hb db]; simpl.
  assert (Hnarrow :
    (np_astype (np.mk_ndarray addr dt sh data) np.int32
       ≫= λ input_array : np.ndarray,
            np_astype input_array np.int64
              ≫= λ widened : np.ndarray,
                   if negb (np.array_equal input_array widened)
                   then raise (TypeError (msg_unsafe_cast idx bdt
                                            (np.arr_dtype input_array)))
                   else mret input_array) w
    = (inr (np.mk_ndarray (next_addr w) np.int32 sh
              (map (np.cast np.int32) data)), bump 2 w)).
  { py_unfold. unfold np.array_equal. simpl.
    rewrite shape_eqb_refl, widen_narrowed_list, shape_eqb_refl. simpl.
    unfold bump; simpl. rewrite <- Z.add_assoc. reflexivity. }
  rewrite bind_unfold.
  destruct (np.shape_eqb sh bsh) eqn:Hs; simpl.
  - destruct (np.dtype_eqb dt bdt) eqn:Hd; simpl; [reflexivity|].
    destruct (np.dtype_eqb dt np.int64 && np.dtype_eqb bdt np.int32) eqn:Hn;
      simpl; [exact Hnarrow | reflexivity].
  - destruct (np.shape_eqb bsh [1] && np.shape_eqb sh []) eqn:Hu; simpl;
      [|reflexivity].
    destruct (np.dtype_eqb dt bdt) eqn:Hd; simpl; [reflexivity|].
    destruct (np.dtype_eqb dt np.int64 && np.dtype_eqb bdt np.int32) eqn:Hn;
      simpl; [exact Hnarrow | reflexivity].
Qed.

(** ** Primitive steps *)

Lemma deref_some r b w : heap w !! r = Some b -> deref r w = (inr b, w).
Proof. intros H. unfold deref. rewrite H. reflexivity. Qed.

Lemma device_buffer_cached r b buf w :
  heap w !! r = Some b -> _device_buf b = Some buf ->
  device_buffer r w = (inr buf, w).
Proof.
  intros Hr Hb. unfold device_buffer.
  rewrite (bind_returns _ _ _ _ _ (deref_some _ _ _ Hr)), Hb. reflexivity.
Qed.

Lemma binding_ready_ptr h r b buf :
  h !! r = Some b -> _device_buf b = Some buf -> device_ptr h r = ptr buf.
Proof. intros Hr Hb. unfold device_ptr. rewrite Hr. simpl. rewrite Hb. reflexivity. Qed.

(** ** The loop that validates and copies the inputs *)

Lemma copy_input_spec i a r b buf w :
  heap w !! r = Some b -> _device_buf b = Some buf ->
  copy_input (i, (a, r)) w =
  match validation_error i a b with
  | Some e => (inl e, w)
  | None => (inr tt, copied i a b (ptr buf) w)
  end.
Proof.
  intros Hr Hb. unfold copy_input.
  rewrite (bind_returns _ _ _ _ _ (deref_some _ _ _ Hr)).
  rewrite bind_unfold, check_input_validity_spec.
  destruct (validation_error i a b) as [e|]; [reflexivity|].
  unfold np_ascontiguousarray. rewrite bind_unfold.
  change ((mret (checked (next_addr w) a b) : Py np.ndarray)
            (if np.dtype_eqb (np.arr_dtype a) (dtype b) then w else bump 2 w))
    with (inr (A := exn) (checked (next_addr w) a b),
          if np.dtype_eqb (np.arr_dtype a) (dtype b) then w else bump 2 w).
  cbv beta iota.
  rewrite (bind_returns _ _ _ buf
             (if np.dtype_eqb (np.arr_dtype a) (dtype b) then w else bump 2 w)).
  2:{ apply device_buffer_cached with b; [|exact Hb].
      destruct (np.dtype_eqb (np.arr_dtype a) (dtype b)); exact Hr. }
  unfold cuda_memcpy_htod, copied. py_unfold.
  destruct (np.dtype_eqb (np.arr_dtype a) (dtype b)); reflexivity.
Qed.

Lemma validation_error_none idx a b :
  validation_error idx a b = None <-> valid a b = true.
Proof.
  unfold validation_error, valid.
  destruct (shape_ok a b), (dtype_ok a b); simpl; split; congruence.
Qed.

Lemma for_each_copy_input h items :
  Forall (fun item : np.ndarray * nat => binding_ready h item.2) items ->
  forall start w,
    heap w = h ->
    for_each (enumerate_from start items) copy_input w =
    match copies h start items w with
    | (Some e, w1) => (inl e, w1)
    | (None, w1) => (inr tt, w1)
    end.
Proof.
  induction 1 as [|[a r] items Hr _ IH]; intros start w Hw; [reflexivity|].
  destruct Hr as (b & buf & Hb & Hbuf & _ & _). simpl in Hb.
  cbn [enumerate_from for_each copies].
  unfold item_error. cbn [fst snd]. rewrite Hb. cbn [default].
  rewrite bind_unfold.
  rewrite (copy_input_spec start a r b buf)
    by first [exact Hbuf | rewrite Hw; exact Hb].
  rewrite (binding_ready_ptr h r b buf Hb Hbuf).
  destruct (validation_error start a b) as [e|]; [reflexivity|].
  apply IH. exact Hw.
Qed.

Lemma copies_facts h items :
  forall start w,
  exists k evs,
    let '(o, w1) := copies h start items w in
    heap w1 = heap w /\ context_heap w1 = context_heap w /\
    stream_queue w1 = stream_queue w /\ next_addr w <= next_addr w1 /\
    trace w1 = trace w ++ evs /\
    Forall2 (copy_of h) (take k items) evs /\
    (k = 0%nat -> w1 = w) /\
    (forall j item, (j < k)%nat -> items !! j = Some item ->
                    item_error h (start + j) item = None) /\
    match o with
    | None => k = length items
    | Some e =>
        exists item, items !! k = Some item /\
                     item_error h (start + k) item = Some e
    end.
Proof.
  induction items as [|[a r] items IH]; intros start w.
  - exists 0%nat, []. simpl. rewrite app_nil_r.
    repeat split; try reflexivity; try lia. constructor.
  - cbn [copies].
    destruct (item_error h start (a, r)) as [e|] eqn:He.
    + exists 0%nat, []. simpl. rewrite app_nil_r.
      repeat split; try reflexivity; try lia; [constructor|].
      exists (a, r). rewrite Nat.add_0_r. split; [reflexivity | exact He].
    + set (b := default _ _). set (w0 := copied start _ b _ w).
      destruct (IH (S start) w0) as (k & evs & IHk).
      exists (S k), (EvMemcpyHtoD (device_ptr h r) (checked (next_addr w) a b) :: evs).
      destruct (copies h (S start) items w0) as [o w1].
      destruct IHk as (Hh & Hc & Hq & Hn & Ht & Hev & _ & Hval & Ho).
      assert (Hb : h !! r = Some b).
      { unfold item_error in He. subst b. cbn [fst snd] in *.
        destruct (h !! r); [reflexivity | discriminate]. }
      repeat split; try assumption.
      * subst w0. unfold copied in Hn. cbn [next_addr] in Hn.
        destruct (np.dtype_eqb _ _); lia.
      * rewrite Ht. subst w0. unfold copied. cbn [trace].
        rewrite <- app_assoc. reflexivity.
      * cbn [take]. constructor; [|exact Hev].
        unfold copy_of, expected_copy, htod_of, device_data, ref_dtype, checked.
        cbn [fst snd]. rewrite Hb. simpl.
        destruct (np.dtype_eqb (np.arr_dtype a) (dtype b)); reflexivity.
      * discriminate.
      * intros [|j] item Hj Hitem.
        -- simpl in Hitem. injection Hitem as <-. rewrite Nat.add_0_r. exact He.
        -- simpl in Hitem. replace (start + S j)%nat with (S start + j)%nat by lia.
           apply Hval; [lia | exact Hitem].
      * destruct o as [e|].
        -- destruct Ho as (item & Hitem & Herr). exists item. split; [exact Hitem|].
           replace (start + S k)%nat with (S start + k)%nat by lia. exact Herr.
        -- simpl. congruence.
Qed.

(** ** The loop that rebuilds the address table *)

Lemma set_tensor_address_spec c n address w :
  is_Some (context_heap w !! c) ->
  set_tensor_address c n address w = (inr tt, with_address c n address w).
Proof.
  intros [ctx H]. unfold set_tensor_address, with_address. py_unfold.
  rewrite H. reflexivity.
Qed.

Lemma with_address_context c n address w ctx :
  context_heap w !! c = Some ctx ->
  context_heap (with_address c n address w) !! c
  = Some (mk_context (context_engine ctx)
            (<[n := address]> (tensor_addresses ctx))).
Proof.
  intros H. unfold with_address. rewrite H. cbn [context_heap].
  apply list_lookup_insert_eq. eapply lookup_lt_Some. exact H.
Qed.

Lemma get_tensor_name_lookup engine i t :
  trt.io_tensors engine !! i = Some t ->
  trt.get_tensor_name engine i = Some (trt.tensor_name t).
Proof. intros H. unfold trt.get_tensor_name. rewrite H. reflexivity. Qed.

Lemma name_at_lookup engine i t :
  trt.io_tensors engine !! i = Some t -> name_at engine i = trt.tensor_name t.
Proof.
  intros H. unfold name_at. rewrite (get_tensor_name_lookup _ _ _ H).
  reflexivity.
Qed.

Lemma bind_tensor_spec env engine c inputs_ addrs i w :
  is_Some (context_heap w !! c) ->
  (i < trt.num_io_tensors engine)%nat ->
  (i < length addrs)%nat ->
  bind_tensor env engine c inputs_ addrs i w =
  (inr tt,
   with_address c (name_at engine i) (address_at engine inputs_ addrs i) w).
Proof.
  intros Hc Hi Ha. unfold bind_tensor, address_at.
  destruct (lookup_lt_is_Some_2 (trt.io_tensors engine) i Hi) as [t Ht].
  rewrite (get_tensor_name_lookup _ _ _ Ht), (name_at_lookup _ _ _ Ht).
  destruct (lookup_lt_is_Some_2 addrs i Ha) as [x Hx].
  destruct (Nat.ltb i (length inputs_)
            && trt.is_shape_inference_io engine (trt.tensor_name t)) eqn:Hsel.
  - apply andb_true_iff in Hsel as [Hlt _]. apply Nat.ltb_lt in Hlt.
    destruct (lookup_lt_is_Some_2 inputs_ i Hlt) as [a Hget].
    rewrite bind_unfold. unfold list_get. rewrite Hget. cbn.
    apply set_tensor_address_spec. exact Hc.
  - rewrite bind_unfold. unfold list_get. rewrite Hx. cbn.
    apply set_tensor_address_spec. exact Hc.
Qed.

Lemma for_each_bind_tensor env engine c inputs_ addrs idxs :
  Forall (fun i => (i < trt.num_io_tensors engine)%nat
                   /\ (i < length addrs)%nat) idxs ->
  forall w,
    is_Some (context_heap w !! c) ->
    for_each idxs (bind_tensor env engine c inputs_ addrs) w
    = (inr tt, rebound engine c inputs_ addrs idxs w).
Proof.
  induction 1 as [|i idxs [Hi Ha] _ IH]; intros w Hc; [reflexivity|].
  cbn [for_each]. rewrite bind_unfold, bind_tensor_spec by assumption.
  unfold rebound. cbn [fold_left]. apply IH.
  destruct Hc as [ctx Hc]. erewrite with_address_context by exact Hc. eauto.
Qed.

Lemma rebound_facts engine c inputs_ addrs idxs :
  forall w ctx,
    context_heap w !! c = Some ctx ->
    let w' := rebound engine c inputs_ addrs idxs w in
    next_addr w' = next_addr w /\ heap w' = heap w /\
    device_mem w' = device_mem w /\ stream_queue w' = stream_queue w /\
    context_heap w'
    = <[c := mk_context (context_engine ctx)
              (rebound_table engine inputs_ addrs idxs (tensor_addresses ctx))]>
        (context_heap w) /\
    trace w'
    = trace w
      ++ map (fun i => EvSetTensorAddress c (name_at engine i)
                         (address_at engine inputs_ addrs i)) idxs.
Proof.
  induction idxs as [|i idxs IH]; intros w ctx Hc.
  - cbn. rewrite app_nil_r. repeat split.
    destruct ctx. symmetry. apply list_insert_id. exact Hc.
  - unfold rebound, rebound_table. cbn [fold_left map].
    set (w0 := with_address c _ _ w).
    pose proof (with_address_context c (name_at engine i)
                  (address_at engine inputs_ addrs i) w ctx Hc) as Hc0.
    fold w0 in Hc0.
    destruct (IH w0 _ Hc0) as (Hn & Hh & Hm & Hq & Hx & Ht).
    unfold rebound, rebound_table in *. cbn [context_engine tensor_addresses] in *.
    rewrite Hn, Hh, Hm, Hq, Hx, Ht.
    subst w0. unfold with_address. rewrite Hc. cbn.
    rewrite list_insert_insert_eq, <- app_assoc. repeat split.
Qed.

(** ** Submission and synchronization *)

Lemma attempt_spec env c st model_name ctx w :
  context_heap w !! c = Some ctx ->
  stream_queue w = [] ->
  attempt env c st model_name w =
  (inr (match device_outcome env ctx (device_mem w) with
        | inl _ => Some (VTuple [VNone; VInt 0])
        | inr _ => None
        end),
   attempted env c ctx model_name w).
Proof.
  intros Hc Hq.
  unfold attempt, attempted, device_outcome, try_except, execute_async_v3,
    synchronize, logged.
  py_unfold. rewrite Hc.
  destruct (submit env (context_engine ctx) (tensor_addresses ctx)) as [e|].
  - cbn. rewrite <- app_assoc. reflexivity.
  - cbn. rewrite Hq. cbn.
    destruct (device_run env (context_engine ctx) (tensor_addresses ctx)
                (device_mem w)) as [e|mem']; cbn;
      repeat rewrite <- app_assoc; reflexivity.
Qed.

(** ** The loop that delivers the outputs *)

Lemma fetch_output_spec r w :
  binding_ready (heap w) r ->
  fetch_output r w =
  (inr (output_array (heap w) (device_mem w) (next_addr w) r),
   logged [EvMemcpyDtoH (next_addr w) (device_ptr (heap w) r)] (bump 1 w)).
Proof.
  intros (b & buf & Hb & Hbuf & _ & _). unfold fetch_output.
  rewrite (bind_returns _ _ _ _ _ (deref_some _ _ _ Hb)).
  rewrite bind_unfold. unfold np_empty at 1. py_unfold.
  erewrite device_buffer_cached; [|exact Hb|exact Hbuf].
  unfold cuda_memcpy_dtoh, output_array, ref_dtype, ref_shape. py_unfold.
  rewrite (binding_ready_ptr _ _ _ _ Hb Hbuf). cbn. rewrite Hb. cbn.
  reflexivity.
Qed.

Lemma comprehension_fetch_output refs :
  forall w,
    Forall (binding_ready (heap w)) refs ->
    comprehension refs fetch_output w =
    (inr (fetched (heap w) (device_mem w) (next_addr w) refs),
     logged (fetches (heap w) (next_addr w) refs)
            (bump (Z.of_nat (length refs)) w)).
Proof.
  induction refs as [|r refs IH]; intros w Hall.
  - cbn. unfold logged, bump. cbn. rewrite app_nil_r, Z.add_0_r.
    destruct w; reflexivity.
  - inversion Hall as [|? ? Hr Hrest]; subst.
    cbn [comprehension]. rewrite bind_unfold, fetch_output_spec by exact Hr.
    rewrite bind_unfold, IH by exact Hrest.
    cbn [fetched fetches length]. unfold logged, bump. cbn.
    rewrite <- app_assoc. cbn.
    replace (next_addr w + 1 + Z.of_nat (length refs))
      with (next_addr w + Z.pos (Pos.of_succ_nat (length refs))) by lia.
    reflexivity.
Qed.

(** ** [run_sequential_tasks], phase by phase *)

Lemma comprehension_by_names d refs w :
  comprehension refs (fun b => o ← deref b; dict_get d (name o)) w
  = (by_names (heap w) d refs, w).
Proof.
  induction refs as [|r refs IH]; [reflexivity|].
  cbn [comprehension by_names]. rewrite bind_unfold, bind_unfold.
  unfold deref at 1. destruct (heap w !! r) as [o|]; [|reflexivity].
  unfold dict_get at 1. destruct (d !! name o) as [a|]; [|reflexivity].
  cbn. rewrite bind_unfold, IH.
  destruct (by_names (heap w) d refs); reflexivity.
Qed.

Lemma run_unfold env self model_name inputs_arg engine :
  engines self !! model_name = Some engine ->
  run_sequential_tasks env self model_name inputs_arg =
  (context ← dict_get (contexts self) model_name;
   binding_addresses_ ← dict_get (binding_addresses self) model_name;
   inputs_bindings ← dict_get (inputs self) model_name;
   outputs_bindings ← dict_get (outputs self) model_name;
   inputs_ ←
     match inputs_arg with
     | InDict d =>
         comprehension inputs_bindings
           (fun b => o ← deref b; dict_get d (name o))
     | InList l => mret l
     end;
   if negb (Nat.eqb (length inputs_) (length inputs_bindings)) then
     raise (ValueError (msg_input_count model_name))
   else
     for_each (enumerate_from 0 (zip inputs_ inputs_bindings)) copy_input;;
     for_each (seq 0 (trt.num_io_tensors engine))
       (bind_tensor env engine context inputs_ binding_addresses_);;
     failed ← attempt env context (stream self) model_name;
     match failed with
     | Some returned => mret returned
     | None =>
         outputs_ ← comprehension outputs_bindings fetch_output;
         mret (VList (VArray <$> outputs_))
     end).
Proof.
  intros H. unfold run_sequential_tasks. rewrite H. reflexivity.
Qed.

Lemma bind_mret {A B} (a : A) (f : A -> Py B) (w : World) :
  (mret a ≫= f) w = f a w.
Proof. reflexivity. Qed.

Lemma zip_lookup {A B} (l : list A) (k : list B) i x y :
  zip l k !! i = Some (x, y) <-> l !! i = Some x /\ k !! i = Some y.
Proof.
  revert k i. induction l as [|a l IH]; intros [|b k] [|i]; cbn;
    try (split; [discriminate | intros [? ?]; discriminate]).
  - split; [intros [= -> ->]; auto | intros [[= ->] [= ->]]; reflexivity].
  - apply IH.
Qed.

Lemma zip_length {A B} (l : list A) (k : list B) :
  length l = length k -> length (zip l k) = length l.
Proof.
  revert k. induction l as [|a l IH]; intros [|b k] H; cbn in *;
    try discriminate; [reflexivity|].
  f_equal. apply IH. lia.
Qed.

Lemma zip_ready {A} (P : nat -> Prop) (l : list A) (k : list nat) :
  Forall P k -> Forall (fun item : A * nat => P item.2) (zip l k).
Proof.
  intros H. revert l. induction H as [|b k Hb _ IH]; intros [|a l]; cbn;
    constructor; auto.
Qed.

Lemma seq_in_range n :
  Forall (fun i => (i < n)%nat /\ (i < n)%nat) (seq 0 n).
Proof.
  apply List.Forall_forall. intros i Hi. apply in_seq in Hi. lia.
Qed.

Lemma run_sequential_tasks_closed env self m e c ctx addrs ins outs
    inputs_arg w :
  engines self !! m = Some e ->
  contexts self !! m = Some c ->
  context_heap w !! c = Some ctx ->
  binding_addresses self !! m = Some addrs ->
  length addrs = trt.num_io_tensors e ->
  inputs self !! m = Some ins ->
  outputs self !! m = Some outs ->
  Forall (binding_ready (heap w)) ins ->
  Forall (binding_ready (heap w)) outs ->
  stream_queue w = [] ->
  run_sequential_tasks env self m inputs_arg w
  = run_closed env m e c ctx addrs ins outs inputs_arg w.
Proof.
  intros He Hc Hctx Haddrs Hlen Hins Houts Rins Routs Hq.
  rewrite (run_unfold _ _ _ _ _ He). unfold dict_get.
  rewrite Hc, Haddrs, Hins, Houts. rewrite !bind_mret.
  unfold run_closed.
  rewrite bind_unfold.
  assert (Hres :
    match inputs_arg with
    | InList l => mret l
    | InDict d =>
        comprehension ins (fun b => o ← deref b; dict_get d (name o))
    end w = (resolve (heap w) ins inputs_arg, w)).
  { destruct inputs_arg as [l|d]; [reflexivity|].
    apply comprehension_by_names. }
  unfold dict_get in Hres. rewrite Hres. clear Hres.
  destruct (resolve (heap w) ins inputs_arg) as [ex|l]; [reflexivity|].
  destruct (negb (Nat.eqb (length l) (length ins))) eqn:Hcount; [reflexivity|].
  rewrite bind_unfold.
  rewrite (for_each_copy_input (heap w)) by (try reflexivity; apply zip_ready, Rins).
  destruct (copies_facts (heap w) (zip l ins) 0%nat w) as (k & evs & F).
  destruct (copies (heap w) 0 (zip l ins) w) as [[ex|] w1]; [reflexivity|].
  destruct F as (Hh1 & Hc1 & Hq1 & _).
  rewrite bind_unfold.
  rewrite for_each_bind_tensor;
    [| rewrite <- Hlen; apply seq_in_range | rewrite Hc1, Hctx; eauto].
  rewrite <- Hc1 in Hctx.
  destruct (rebound_facts e c l addrs (seq 0 (trt.num_io_tensors e)) w1 ctx Hctx)
    as (Hn2 & Hh2 & Hm2 & Hq2 & Hc2 & Ht2).
  set (w2 := rebound e c l addrs _ w1) in *.
  set (ctx2 := mk_context _ _) in *.
  assert (Hctx2 : context_heap w2 !! c = Some ctx2).
  { rewrite Hc2. apply list_lookup_insert_eq. eapply lookup_lt_Some, Hctx. }
  rewrite bind_unfold.
  rewrite (attempt_spec env c (stream self) m ctx2 w2 Hctx2)
    by (rewrite Hq2, Hq1; exact Hq).
  cbv beta iota zeta.
  assert (Hh3 : heap (attempted env c ctx2 m w2) = heap w).
  { unfold attempted.
    destruct (device_outcome env ctx2 (device_mem w2)) as [[ex []]|mem'];
      cbn; congruence. }
  destruct (device_outcome env ctx2 (device_mem w2)) as [[ex sub]|mem'] eqn:Hout;
    [reflexivity|].
  rewrite bind_unfold.
  rewrite comprehension_fetch_output by (rewrite Hh3; exact Routs).
  rewrite Hh3. reflexivity.
Qed.

(** ** The paths of a call *)

Lemma run_closed_path env m e c ctx addrs ins outs inputs_arg w :
  context_heap w !! c = Some ctx ->
  stream_queue w = [] ->
  run_path env m e c ctx addrs ins outs inputs_arg w
    (run_closed env m e c ctx addrs ins outs inputs_arg w).
Proof.
  intros context_there queue_empty.
  unfold run_closed.
  destruct (resolve (heap w) ins inputs_arg) as [ex|l] eqn:Hres;
    [apply path_unresolved; exact Hres|].
  destruct (Nat.eqb (length l) (length ins)) eqn:Hcount; cbn [negb].
  2:{ apply path_count with l; [exact Hres|]. apply Nat.eqb_neq, Hcount. }
  apply Nat.eqb_eq in Hcount.
  destruct (copies_facts (heap w) (zip l ins) 0%nat w) as (k & evs & F).
  destruct (copies (heap w) 0 (zip l ins) w) as [[ex|] w1].
  - destruct F as (Hh & Hc & Hq & Hn & Ht & Hev & H0 & Hval & item & Hk & Hex).
    eapply path_invalid; eauto.
  - destruct F as (Hh & Hc & Hq & Hn & Ht & Hev & _ & Hval & Hk).
    rewrite Hk, firstn_all in Hev.
    assert (Hvalid : forall j it, zip l ins !! j = Some it ->
                                  item_error (heap w) j it = None).
    { intros j it Hj. apply (Hval j it); [|exact Hj].
      rewrite Hk. eapply lookup_lt_Some, Hj. }
    rewrite <- Hc in context_there.
    destruct (rebound_facts e c l addrs (seq 0 (trt.num_io_tensors e))
                w1 ctx context_there) as (Hn2 & Hh2 & Hm2 & Hq2 & Hc2 & Ht2).
    cbv zeta.
    set (w2 := rebound e c l addrs _ w1) in *.
    fold (bound_context e ctx addrs l) in *. fold (binds e c addrs l) in Ht2.
    unfold attempted.
    destruct (device_outcome env (bound_context e ctx addrs l) (device_mem w2))
      as [[ex sub]|mem'] eqn:Hout.
    + rewrite Hm2 in Hout.
      eapply path_failed with (w1 := w1) (evs := evs); eauto.
      * destruct sub; cbn; rewrite Ht2, Ht, <- !app_assoc; reflexivity.
      * destruct sub; cbn; congruence.
      * destruct sub; cbn; congruence.
      * destruct sub; cbn; congruence.
      * destruct sub; cbn; congruence.
      * destruct sub; cbn; congruence.
    + rewrite Hm2 in Hout. cbn [next_addr device_mem].
      rewrite Hn2.
      eapply path_done with (w1 := w1) (evs := evs); eauto.
      * cbn. rewrite Ht2, Ht, <- !app_assoc. reflexivity.
      * cbn. congruence.
      * cbn. congruence.
Qed.

(** ** The invariant is stable *)

Lemma heap_le_refl h : heap_le h h.
Proof. intros r b H. exists b. repeat split; auto. Qed.

Lemma heap_le_trans h1 h2 h3 : heap_le h1 h2 -> heap_le h2 h3 -> heap_le h1 h3.
Proof.
  intros H12 H23 r b Hb.
  destruct (H12 r b Hb) as (b2 & Hb2 & ? & ? & ? & ? & ? & Hd2).
  destruct (H23 r b2 Hb2) as (b3 & Hb3 & ? & ? & ? & ? & ? & Hd3).
  exists b3. repeat split; try congruence. auto.
Qed.

Lemma contexts_le_refl cs : contexts_le cs cs.
Proof. intros i x H. exists x. auto. Qed.

Lemma contexts_le_insert cs c x y :
  cs !! c = Some x -> context_engine y = context_engine x ->
  contexts_le cs (<[c := y]> cs).
Proof.
  intros Hc He i z Hz. destruct (decide (i = c)) as [->|Hne].
  - exists y. split; [|congruence].
    apply list_lookup_insert_eq. eapply lookup_lt_Some, Hc.
  - exists z. split; [|reflexivity].
    rewrite list_lookup_insert_ne by congruence. exact Hz.
Qed.

Lemma binding_ready_mono h h' r :
  heap_le h h' -> binding_ready h r ->
  binding_ready h' r /\ device_ptr h' r = device_ptr h r /\
  ref_is_input h' r = ref_is_input h r.
Proof.
  intros Hle (b & buf & Hb & Hbuf & Hsize & Hhost).
  destruct (Hle r b Hb) as (b' & Hb' & Hn & Hi & Hd & Hs & Hh & Hdev).
  split; [|split].
  - exists b', buf. repeat split; [exact Hb' | auto | congruence | congruence].
  - unfold device_ptr. rewrite Hb, Hb'. cbn. rewrite Hbuf, (Hdev _ Hbuf).
    reflexivity.
  - unfold ref_is_input. rewrite Hb, Hb'. cbn. exact Hi.
Qed.

Lemma describes_mono h h' e i r :
  heap_le h h' -> describes h e i r -> describes h' e i r.
Proof.
  intros Hle (b & n & Hb & Hn & Hname & Hin & Hdt & Hsh).
  destruct (Hle r b Hb) as (b' & Hb' & En & Ei & Ed & Es & _ & _).
  exists b', n. repeat split; try congruence.
Qed.

Lemma filter_ext_Forall {A} (P : A -> Prop) (f g : A -> bool) (l : list A) :
  Forall P l -> (forall x, P x -> f x = g x) -> List.filter f l = List.filter g l.
Proof.
  intros H Hfg. induction H as [|x l Hx _ IH]; [reflexivity|].
  cbn. rewrite (Hfg x Hx), IH. reflexivity.
Qed.

Lemma map_ext_Forall {A B} (P : A -> Prop) (f g : A -> B) (l : list A) :
  Forall P l -> (forall x, P x -> f x = g x) -> f <$> l = g <$> l.
Proof.
  intros H Hfg. induction H as [|x l Hx _ IH]; [reflexivity|].
  cbn. rewrite (Hfg x Hx). f_equal. exact IH.
Qed.

Lemma model_ready_mono self w w' m e :
  heap_le (heap w) (heap w') ->
  contexts_le (context_heap w) (context_heap w') ->
  model_ready self w m e -> model_ready self w' m e.
Proof.
  intros Hh Hc (c & ctx & bs & Hcm & Hctx & He & Hbs & Haddr & Hins & Houts
                  & Hready & Hdesc & Hlen).
  destruct (Hc c ctx Hctx) as (ctx' & Hctx' & He').
  exists c, ctx', bs.
  repeat split; try assumption; try congruence.
  - rewrite Haddr. f_equal.
    apply map_ext_Forall with (P := binding_ready (heap w)); [exact Hready|].
    intros r Hr. symmetry. apply (binding_ready_mono _ _ _ Hh Hr).
  - rewrite Hins. f_equal.
    apply filter_ext_Forall with (P := binding_ready (heap w)); [exact Hready|].
    intros r Hr. symmetry. apply (binding_ready_mono _ _ _ Hh Hr).
  - rewrite Houts. f_equal.
    apply filter_ext_Forall with (P := binding_ready (heap w)); [exact Hready|].
    intros r Hr. f_equal. symmetry. apply (binding_ready_mono _ _ _ Hh Hr).
  - eapply Forall_impl; [exact Hready|].
    intros r Hr. apply (binding_ready_mono _ _ _ Hh Hr).
  - intros i r Hi. eapply describes_mono; eauto.
Qed.

Lemma Forall_filter_list {A} (P : A -> Prop) (f : A -> bool) (l : list A) :
  Forall P l -> Forall P (List.filter f l).
Proof.
  intros H. induction H as [|x l Hx _ IH]; cbn; [constructor|].
  destruct (f x); [constructor|]; assumption.
Qed.

(** A call on a ready manager follows one of the paths. *)
Lemma run_path_of_ready env self m e inputs_arg w :
  ready self w ->
  engines self !! m = Some e ->
  exists c ctx bs,
    contexts self !! m = Some c /\
    context_heap w !! c = Some ctx /\ context_engine ctx = e /\
    bindings self !! m = Some bs /\
    inputs self !! m = Some (input_refs (heap w) bs) /\
    outputs self !! m = Some (output_refs (heap w) bs) /\
    Forall (binding_ready (heap w)) bs /\
    (forall i r, bs !! i = Some r -> describes (heap w) e i r) /\
    length bs = trt.num_io_tensors e /\
    run_path env m e c ctx (device_ptr (heap w) <$> bs)
      (input_refs (heap w) bs) (output_refs (heap w) bs) inputs_arg w
      (run_sequential_tasks env self m inputs_arg w).
Proof.
  intros (Htab & Hq & Hok) He.
  specialize (Htab m). rewrite He in Htab.
  destruct Htab as (c & ctx & bs & Hcm & Hctx & Hce & Hbs & Haddr & Hins
                      & Houts & Hready & Hdesc & Hlen).
  exists c, ctx, bs. repeat split; try assumption.
  erewrite run_sequential_tasks_closed; eauto.
  - apply run_closed_path; assumption.
  - rewrite length_fmap. exact Hlen.
  - apply Forall_filter_list, Hready.
  - apply Forall_filter_list, Hready.
Qed.

Lemma heap_ok_mono w w' :
  heap w' = heap w -> next_addr w <= next_addr w' -> heap_ok w -> heap_ok w'.
Proof.
  intros Hh Hn Hok r b Hb. rewrite Hh in Hb.
  destruct (Hok r b Hb) as [Hhost Hdev]. split; [exact Hhost|].
  intros buf Hbuf. destruct (Hdev buf Hbuf). split; [assumption | lia].
Qed.

Lemma tables_ready_mono self w w' :
  heap_le (heap w) (heap w') ->
  contexts_le (context_heap w) (context_heap w') ->
  tables_ready self w -> tables_ready self w'.
Proof.
  intros Hh Hc Ht m. specialize (Ht m).
  destruct (engines self !! m); [|exact Ht].
  eapply model_ready_mono; eauto.
Qed.

(** Whatever the outcome of a call, the manager is ready for the next one,
    and its bindings are the same objects with the same buffers. *)
Lemma run_keeps_ready env self m inputs_arg w r w' :
  ready self w ->
  run_sequential_tasks env self m inputs_arg w = (r, w') ->
  ready self w' /\ heap w' = heap w /\ next_addr w <= next_addr w'.
Proof.
  intros Hready Hrun.
  destruct (engines self !! m) as [e|] eqn:He.
  2:{ unfold run_sequential_tasks in Hrun. rewrite He in Hrun.
      injection Hrun as <- <-. split; [exact Hready | split; [reflexivity | lia]]. }
  destruct (run_path_of_ready env self m e inputs_arg w Hready He)
    as (c & ctx & bs & Hcm & Hctx & Hce & _ & _ & _ & _ & _ & _ & Hpath).
  rewrite Hrun in Hpath.
  destruct Hready as (Htab & Hq & Hok).
  assert (Key : heap w' = heap w /\ next_addr w <= next_addr w' /\
                stream_queue w' = [] /\
                contexts_le (context_heap w) (context_heap w')).
  { inversion Hpath; subst.
    - repeat split; [lia | exact Hq | apply contexts_le_refl].
    - repeat split; [lia | exact Hq | apply contexts_le_refl].
    - repeat split; try assumption; [congruence|].
      match goal with H : context_heap w' = _ |- _ => rewrite H end.
      apply contexts_le_refl.
    - repeat split; try assumption; [lia|].
      match goal with H : context_heap w' = _ |- _ => rewrite H end.
      eapply contexts_le_insert; [exact Hctx | reflexivity].
    - repeat split; try assumption; [lia|].
      match goal with H : context_heap w' = _ |- _ => rewrite H end.
      eapply contexts_le_insert; [exact Hctx | reflexivity]. }
  destruct Key as (Hh & Hn & Hq' & Hc).
  split; [|split; assumption].
  split; [|split; [exact Hq'|]].
  - apply (tables_ready_mono self w w');
      [rewrite Hh; apply heap_le_refl | exact Hc | exact Htab].
  - apply (heap_ok_mono w w' Hh Hn Hok).
Qed.

(** ** Construction *)

Lemma heap_le_insert h r b buf :
  h !! r = Some b ->
  (forall old, _device_buf b = Some old -> old = buf) ->
  heap_le h (<[r := with_device b buf]> h).
Proof.
  intros Hb Hold i x Hx. destruct (decide (i = r)) as [->|Hne].
  - assert (x = b) as -> by congruence.
    exists (with_device b buf). split.
    + apply list_lookup_insert_eq. eapply lookup_lt_Some, Hb.
    + repeat split. intros old Ho. cbn. f_equal. symmetry. auto.
  - exists x. rewrite list_lookup_insert_ne by congruence.
    repeat split; auto.
Qed.

(** The [device_buffer] property on any binding of a well-kept heap: the
    buffer is there afterwards, with the size of the tensor. *)
Lemma device_buffer_spec r b w :
  heap_ok w ->
  heap w !! r = Some b ->
  exists buf w' evs,
    device_buffer r w = (inr buf, w') /\
    heap w' = <[r := with_device b buf]> (heap w) /\
    (forall old, _device_buf b = Some old -> old = buf) /\
    heap_ok w' /\ next_addr w <= next_addr w' /\
    context_heap w' = context_heap w /\ stream_queue w' = stream_queue w /\
    trace w' = trace w ++ evs /\ forallb is_device_alloc evs = true.
Proof.
  intros Hok Hb. unfold device_buffer.
  rewrite (bind_returns _ _ _ _ _ (deref_some _ _ _ Hb)).
  destruct (_device_buf b) as [buf|] eqn:Hbuf.
  - exists buf, w, []. cbn. rewrite app_nil_r.
    split; [reflexivity|].
    split.
    { symmetry. apply list_insert_id. rewrite Hb. f_equal.
      destruct b; unfold with_device; cbn in *. congruence. }
    split; [intros old [= ->]; reflexivity|].
    split; [exact Hok|].
    repeat split; lia.
  - set (buf := mk_buffer (next_addr w) (np.nbytes (shape b) (dtype b))).
    eexists buf, _, [EvDeviceAlloc buf].
    unfold gpuarray_empty. py_unfold. cbn.
    split; [reflexivity|]. cbn.
    split; [reflexivity|].
    split; [discriminate|].
    split; [|repeat split; lia].
    intros i x Hx. cbn in Hx.
    destruct (decide (i = r)) as [->|Hne].
    + rewrite list_lookup_insert_eq in Hx by (eapply lookup_lt_Some, Hb).
      injection Hx as <-. cbn. split; [apply (Hok r b Hb)|].
      intros ? [= <-]. cbn. split; [reflexivity | lia].
    + rewrite list_lookup_insert_ne in Hx by congruence.
      destruct (Hok i x Hx) as [Hh Hd]. split; [exact Hh|].
      intros old Ho. destruct (Hd old Ho). cbn. split; [assumption | lia].
Qed.

Lemma forallb_app_true {A} (f : A -> bool) (l k : list A) :
  forallb f l = true -> forallb f k = true -> forallb f (l ++ k) = true.
Proof. intros Hl Hk. rewrite forallb_app, Hl, Hk. reflexivity. Qed.

(** The comprehension that fills [binding_addresses]. *)
Lemma comprehension_device_buffer refs :
  forall w,
    heap_ok w ->
    Forall (fun r => is_Some (heap w !! r)) refs ->
    exists addrs w' evs,
      comprehension refs (fun b => buf ← device_buffer b; mret (ptr buf)) w
      = (inr addrs, w') /\
      heap_le (heap w) (heap w') /\ length (heap w') = length (heap w) /\
      heap_ok w' /\ next_addr w <= next_addr w' /\
      context_heap w' = context_heap w /\ stream_queue w' = stream_queue w /\
      trace w' = trace w ++ evs /\ forallb is_device_alloc evs = true /\
      Forall (binding_ready (heap w')) refs /\
      addrs = device_ptr (heap w') <$> refs.
Proof.
  induction refs as [|r refs IH]; intros w Hok Hall.
  - exists [], w, []. cbn. rewrite app_nil_r.
    split; [reflexivity|]. split; [apply heap_le_refl|].
    split; [reflexivity|]. split; [exact Hok|].
    repeat split; try lia. constructor.
  - inversion Hall as [|? ? [b Hb] Hrest]; subst.
    destruct (device_buffer_spec r b w Hok Hb)
      as (buf & w1 & evs1 & Hrun1 & Hh1 & Hold & Hok1 & Hn1 & Hc1 & Hq1 & Ht1 & Ha1).
    assert (Hle1 : heap_le (heap w) (heap w1)).
    { rewrite Hh1. apply heap_le_insert; assumption. }
    assert (Hrest1 : Forall (fun r => is_Some (heap w1 !! r)) refs).
    { eapply Forall_impl; [exact Hrest|]. intros i [x Hx].
      destruct (Hle1 i x Hx) as (x' & Hx' & _). eauto. }
    destruct (IH w1 Hok1 Hrest1)
      as (addrs & w2 & evs2 & Hrun2 & Hle2 & Hlen2 & Hok2 & Hn2 & Hc2 & Hq2
            & Ht2 & Ha2 & Hready2 & Haddrs).
    exists (ptr buf :: addrs), w2, (evs1 ++ evs2).
    assert (Hl : heap w1 !! r = Some (with_device b buf)).
    { rewrite Hh1. apply list_lookup_insert_eq. eapply lookup_lt_Some, Hb. }
    assert (Hr1 : binding_ready (heap w1) r).
    { destruct (Hok1 r _ Hl) as [Hhost Hdev].
      exists (with_device b buf), buf.
      repeat split; [exact Hl | apply (Hdev buf eq_refl) | exact Hhost]. }
    destruct (binding_ready_mono _ _ r Hle2 Hr1) as (Hr2 & Hp2 & _).
    conjs.
    + cbn [comprehension]. rewrite bind_unfold, bind_unfold, Hrun1.
      cbn. rewrite bind_unfold, Hrun2. reflexivity.
    + eapply heap_le_trans; eassumption.
    + rewrite Hlen2, Hh1. apply length_insert.
    + exact Hok2.
    + lia.
    + congruence.
    + congruence.
    + rewrite Ht2, Ht1, app_assoc. reflexivity.
    + apply forallb_app_true; assumption.
    + constructor; assumption.
    + cbn. rewrite Hp2. f_equal; [|exact Haddrs].
      unfold device_ptr. rewrite Hl. reflexivity.
Qed.

Lemma Binding_init_spec e i w r w' :
  Binding_init e i w = (r, w') ->
  match r with
  | inl _ => w' = w
  | inr ref =>
      ref = length (heap w) /\
      exists b, built e i b /\ w' = with_heap (heap w ++ [b]) w
  end.
Proof.
  unfold Binding_init.
  destruct (trt.get_tensor_name e i) as [n|] eqn:Hn.
  2:{ intros [= <- <-]. reflexivity. }
  destruct n as [|ch n'].
  { intros [= <- <-]. reflexivity. }
  destruct (dtype_map (trt.get_tensor_dtype e (String ch n'))) as [dt|] eqn:Hdt.
  2:{ intros [= <- <-]. reflexivity. }
  unfold new_object. py_unfold. intros [= <- <-].
  split; [reflexivity|]. eexists. split; [|reflexivity].
  exists (String ch n'). cbn. auto 10.
Qed.

Lemma comprehension_Binding_init e idxs :
  forall w r w',
    comprehension idxs (Binding_init e) w = (r, w') ->
    exists news,
      w' = with_heap (heap w ++ news) w /\
      Forall (fun b => _host_buf b = None /\ _device_buf b = None) news /\
      forall bs, r = inr bs ->
                 bs = seq (length (heap w)) (length idxs) /\
                 Forall2 (built e) idxs news.
Proof.
  induction idxs as [|i idxs IH]; intros w r w' Hrun.
  - injection Hrun as <- <-. exists []. unfold with_heap.
    rewrite app_nil_r. split; [destruct w; reflexivity|].
    split; [constructor|]. intros bs [= <-]. split; [reflexivity | constructor].
  - cbn [comprehension] in Hrun. rewrite bind_unfold in Hrun.
    destruct (Binding_init e i w) as [[ex|ref] w1] eqn:H1;
      pose proof (Binding_init_spec _ _ _ _ _ H1) as S1; cbn in S1.
    + injection Hrun as <- <-. subst w1. exists []. unfold with_heap.
      rewrite app_nil_r. split; [destruct w; reflexivity|].
      split; [constructor|]. discriminate.
    + destruct S1 as (-> & b & Hb & ->).
      rewrite bind_unfold in Hrun.
      destruct (comprehension idxs (Binding_init e) (with_heap (heap w ++ [b]) w))
        as [[ex|bs'] w2] eqn:H2;
        destruct (IH _ _ _ H2) as (news & -> & Hnone & Hbs);
        injection Hrun as <- <-;
        exists (b :: news); unfold with_heap; cbn;
        rewrite <- app_assoc; (split; [reflexivity|]);
        (split; [constructor; [|exact Hnone];
                 destruct Hb as (? & ? & ? & ? & ? & ? & ? & ?); auto|]).
      * discriminate.
      * intros bs [= <-]. destruct (Hbs bs' eq_refl) as (-> & Hall).
        cbn. rewrite length_app. cbn.
        replace (length (heap w) + 1)%nat with (S (length (heap w))) by lia.
        split; [reflexivity|]. constructor; assumption.
Qed.

Lemma filter_objects_spec p refs w :
  Forall (fun r => is_Some (heap w !! r)) refs ->
  filter_objects p refs w
  = (inr (List.filter (fun r => from_option p false (heap w !! r)) refs), w).
Proof.
  induction 1 as [|r refs [b Hb] _ IH]; [reflexivity|].
  cbn [filter_objects List.filter].
  rewrite (bind_returns _ _ _ _ _ (deref_some _ _ _ Hb)).
  rewrite bind_unfold, IH. rewrite Hb. cbn. reflexivity.
Qed.

(** [prepare_buffers] finds every buffer in place. *)
Lemma for_each_device_buffer refs w :
  Forall (binding_ready (heap w)) refs ->
  for_each refs (fun binding => _ ← device_buffer binding; mret tt) w
  = (inr tt, w).
Proof.
  induction 1 as [|r refs (b & buf & Hb & Hbuf & _) _ IH]; [reflexivity|].
  cbn [for_each]. rewrite bind_unfold, bind_unfold.
  rewrite (device_buffer_cached r b buf w Hb Hbuf). cbn. exact IH.
Qed.

Lemma device_alloc_engine_event evs :
  forallb is_device_alloc evs = true -> forallb is_engine_event evs = true.
Proof.
  induction evs as [|ev evs IH]; [reflexivity|]. cbn.
  rewrite !andb_true_iff. intros [H1 H2]. split; [|auto].
  destruct ev; try discriminate; reflexivity.
Qed.

Lemma heap_le_app h news : heap_le h (h ++ news).
Proof.
  intros r b Hb. exists b. split; [|repeat split; auto].
  apply lookup_app_l_Some. exact Hb.
Qed.

Lemma contexts_le_app cs more : contexts_le cs (cs ++ more).
Proof.
  intros i x Hx. exists x. split; [|reflexivity].
  apply lookup_app_l_Some. exact Hx.
Qed.

Lemma model_ready_with_model_ne self m e c bs addrs ins outs w m' e' :
  m <> m' ->
  model_ready self w m' e' ->
  model_ready (with_model self m e c bs addrs ins outs) w m' e'.
Proof.
  intros Hne (c' & ctx & bs' & H). exists c', ctx, bs'. cbn.
  rewrite !lookup_insert_ne by exact Hne. exact H.
Qed.

Lemma tables_ready_with_model self m e c bs addrs ins outs w :
  tables_ready self w ->
  model_ready (with_model self m e c bs addrs ins outs) w m e ->
  tables_ready (with_model self m e c bs addrs ins outs) w.
Proof.
  intros Ht Hm m'. cbn. destruct (decide (m = m')) as [<-|Hne].
  - rewrite lookup_insert_eq. exact Hm.
  - rewrite !lookup_insert_ne by exact Hne. specialize (Ht m').
    destruct (engines self !! m'); [|exact Ht].
    apply model_ready_with_model_ne; assumption.
Qed.

Lemma heap_ok_app w news :
  heap_ok w ->
  Forall (fun b => _host_buf b = None /\ _device_buf b = None) news ->
  heap_ok (with_heap (heap w ++ news) w).
Proof.
  intros Hok Hnew r b Hb. cbn in Hb.
  apply lookup_app_Some in Hb as [Hb|[_ Hb]].
  - exact (Hok r b Hb).
  - rewrite Forall_lookup in Hnew. destruct (Hnew _ _ Hb) as [Hh Hd].
    split; [exact Hh|]. intros buf Hbuf. congruence.
Qed.

Lemma load_engine_spec env path w :
  load_engine env path w =
  match read_engine env path with
  | inl ex => (inl ex, w)
  | inr loaded => (inr loaded, logged [EvDeserialize path] w)
  end.
Proof. unfold load_engine. destruct (read_engine env path); reflexivity. Qed.

Lemma create_execution_context_spec loaded w :
  create_execution_context loaded w =
  match loaded with
  | None => (inl AttributeError, w)
  | Some e => (inr (e, length (context_heap w)), with_context e w)
  end.
Proof. destruct loaded; reflexivity. Qed.

Lemma seq_lookup_app {A} (h news : list A) (n i r : nat) :
  length news = n ->
  seq (length h) n !! i = Some r ->
  r = (length h + i)%nat /\ (h ++ news) !! r = news !! i /\ (i < n)%nat.
Proof.
  intros Hlen Hi. apply lookup_seq in Hi as [-> Hlt].
  split; [reflexivity|]. split; [|exact Hlt].
  rewrite lookup_app_r by lia. f_equal. lia.
Qed.

Lemma initialize_engine_spec env self m path w r w' :
  tables_ready self w -> heap_ok w ->
  initialize_engine env self (m, path) w = (r, w') ->
  (exists evs, trace w' = trace w ++ evs /\
               forallb is_engine_event evs = true) /\
  stream_queue w' = stream_queue w /\
  forall self',
    r = inr self' ->
    tables_ready self' w' /\ heap_ok w' /\
    cfg self' = cfg self /\ model_paths self' = model_paths self /\
    plugin_path self' = plugin_path self /\ stream self' = stream self /\
    exists e, engines self' = <[m := e]> (engines self).
Proof.
  intros Htab Hok Hrun. unfold initialize_engine in Hrun.
  rewrite bind_unfold, load_engine_spec in Hrun.
  destruct (read_engine env path) as [ex|loaded].
  { injection Hrun as <- <-. split; [exists []; rewrite app_nil_r; auto|].
    split; [reflexivity | discriminate]. }
  rewrite bind_unfold, create_execution_context_spec in Hrun.
  destruct loaded as [e|].
  2:{ injection Hrun as <- <-. split; [exists [EvDeserialize path]; auto|].
      split; [reflexivity | discriminate]. }
  cbv beta iota in Hrun.
  set (wA := with_context e (logged [EvDeserialize path] w)) in Hrun.
  set (c := length (context_heap (logged [EvDeserialize path] w))) in Hrun.
  rewrite bind_unfold in Hrun.
  destruct (comprehension (seq 0 (trt.num_io_tensors e)) (Binding_init e) wA)
    as [[ex|bs] wB] eqn:HB;
    destruct (comprehension_Binding_init _ _ _ _ _ HB) as (news & -> & Hnone & Hbs).
  { injection Hrun as <- <-.
    split; [exists [EvDeserialize path; EvCreateContext c]; cbn;
            rewrite <- app_assoc; auto|].
    split; [reflexivity | discriminate]. }
  destruct (Hbs bs eq_refl) as (-> & Hbuilt). clear Hbs.
  assert (Hlen : length news = trt.num_io_tensors e).
  { apply Forall2_length in Hbuilt. rewrite length_seq in Hbuilt. auto. }
  set (wB := with_heap (heap wA ++ news) wA) in *.
  assert (HokA : heap_ok wA) by exact Hok.
  assert (HokB : heap_ok wB) by (apply heap_ok_app; assumption).
  set (bs := seq (length (heap wA)) (length (seq 0 (trt.num_io_tensors e)))) in *.
  assert (Hrefs : Forall (fun r => is_Some (heap wB !! r)) bs).
  { apply Forall_lookup. intros i r0 Hi. subst bs. rewrite length_seq in Hi.
    destruct (seq_lookup_app (heap wA) news _ i r0 Hlen Hi) as (-> & Hl & Hlt).
    cbn. cbn in Hl. rewrite Hl. apply lookup_lt_is_Some_2. lia. }
  rewrite bind_unfold in Hrun.
  destruct (comprehension_device_buffer bs wB HokB Hrefs)
    as (addrs & wC & evsC & HC & HleC & HlenC & HokC & HnC & HcC & HqC & HtC
          & HaC & HreadyC & Haddrs).
  rewrite HC in Hrun.
  assert (HrefsC : Forall (fun r => is_Some (heap wC !! r)) bs).
  { eapply Forall_impl; [exact HreadyC|]. intros r0 (b & ? & Hb & _). eauto. }
  rewrite bind_unfold, (filter_objects_spec _ _ _ HrefsC) in Hrun.
  rewrite bind_unfold, (filter_objects_spec _ _ _ HrefsC) in Hrun.
  set (ins := List.filter _ bs) in Hrun at 1.
  set (outs := List.filter _ bs) in Hrun at 1.
  set (self' := mk_TensorRTEngine _ _ _ _ _ _ _ _ _ _) in Hrun.
  assert (Hprep : prepare_buffers self' m wC = (inr tt, wC)).
  { unfold prepare_buffers, dict_get. subst self'. cbn.
    rewrite !lookup_insert_eq, !bind_mret.
    apply for_each_device_buffer, Forall_app. split; apply Forall_filter_list, HreadyC. }
  rewrite bind_unfold, Hprep in Hrun. injection Hrun as <- <-.
  split.
  { exists ([EvDeserialize path; EvCreateContext c] ++ evsC).
    rewrite HtC. cbn. rewrite <- !app_assoc. split; [reflexivity|].
    cbn. apply device_alloc_engine_event, HaC. }
  split; [rewrite HqC; reflexivity|].
  intros ? [= <-].
  assert (HleA : heap_le (heap w) (heap wC)).
  { eapply heap_le_trans; [|exact HleC]. apply (heap_le_app (heap w) news). }
  assert (HcA : contexts_le (context_heap w) (context_heap wC)).
  { rewrite HcC. apply (contexts_le_app (context_heap w)). }
  conjs; try reflexivity; [| exact HokC | exists e; reflexivity].
  change self' with (with_model self m e c bs addrs ins outs).
  apply tables_ready_with_model.
  { eapply tables_ready_mono; [exact HleA | exact HcA | exact Htab]. }
  exists c, (mk_context e ∅), bs. cbn. rewrite !lookup_insert_eq.
  conjs; try reflexivity.
  - rewrite HcC. cbn. subst c. cbn.
    rewrite lookup_app_r by lia. rewrite Nat.sub_diag. reflexivity.
  - rewrite Haddrs. reflexivity.
  - f_equal. subst outs.
    apply filter_ext_Forall with (P := fun r => is_Some (heap wC !! r));
      [exact HrefsC|].
    intros r0 [b Hb]. unfold ref_is_input. rewrite Hb. reflexivity.
  - exact HreadyC.
  - intros i r0 Hi. apply describes_mono with (h := heap wB); [exact HleC|].
    subst bs. rewrite length_seq in Hi.
    destruct (seq_lookup_app (heap wA) news _ i r0 Hlen Hi) as (-> & Hl & Hlt).
    destruct (lookup_lt_is_Some_2 news i ltac:(lia)) as [b Hb].
    assert (Hi0 : seq 0 (trt.num_io_tensors e) !! i = Some i).
    { apply lookup_seq. split; [reflexivity | exact Hlt]. }
    pose proof (Forall2_lookup_lr _ _ _ _ _ _ Hbuilt Hi0 Hb)
      as (n & Hn & Hname & Hin & Hdt & Hsh & _).
    exists b, n. cbn. cbn in Hl. rewrite Hl.
    conjs; assumption.
  - subst bs. rewrite !length_seq. reflexivity.
Qed.

Lemma initialize_engines_spec env paths :
  forall self w r w',
    tables_ready self w -> heap_ok w ->
    for_fold paths self (initialize_engine env) w = (r, w') ->
    (exists evs, trace w' = trace w ++ evs /\
                 forallb is_engine_event evs = true) /\
    stream_queue w' = stream_queue w /\
    forall self',
      r = inr self' ->
      tables_ready self' w' /\ heap_ok w' /\
      cfg self' = cfg self /\ model_paths self' = model_paths self /\
      plugin_path self' = plugin_path self /\ stream self' = stream self /\
      forall m, In m (map fst paths) \/ is_Some (engines self !! m) ->
                is_Some (engines self' !! m).
Proof.
  induction paths as [|[m path] paths IH]; intros self w r w' Htab Hok Hrun.
  - injection Hrun as <- <-. split; [exists []; rewrite app_nil_r; auto|].
    split; [reflexivity|]. intros ? [= <-]. conjs; auto. intros m [[]|H]. exact H.
  - cbn [for_fold] in Hrun. rewrite bind_unfold in Hrun.
    destruct (initialize_engine env self (m, path) w) as [[ex|self1] w1] eqn:H1;
      destruct (initialize_engine_spec _ _ _ _ _ _ _ Htab Hok H1)
        as ((evs1 & Ht1 & Ha1) & Hq1 & Hs1).
    + injection Hrun as <- <-. split; [eauto|]. split; [exact Hq1 | discriminate].
    + destruct (Hs1 self1 eq_refl)
        as (Htab1 & Hok1 & Hcfg1 & Hmp1 & Hpp1 & Hst1 & e & He1).
      destruct (IH self1 w1 r w' Htab1 Hok1 Hrun)
        as ((evs2 & Ht2 & Ha2) & Hq2 & Hs2).
      split.
      { exists (evs1 ++ evs2). rewrite Ht2, Ht1, app_assoc.
        split; [reflexivity | apply forallb_app_true; assumption]. }
      split; [congruence|].
      intros self' ->.
      destruct (Hs2 self' eq_refl) as (Htab2 & Hok2 & ? & ? & ? & ? & Hdom).
      conjs; try congruence; try assumption.
      intros m' Hm'. apply Hdom. rewrite He1.
      destruct (decide (m = m')) as [<-|Hne].
      * right. rewrite lookup_insert_eq. eauto.
      * rewrite lookup_insert_ne by exact Hne.
        destruct Hm' as [[Heq|Hin]|Hs]; [contradiction | left; exact Hin | right; exact Hs].
Qed.

Lemma init_unfold env half kwargs :
  __init__ env half kwargs =
  (paths ← read_paths half kwargs;
   plugin ← dict_get kwargs "grid_sample_3d";
   load_plugins env plugin;;
   st ← cuda_Stream;
   initialize_engines env
     (mk_TensorRTEngine kwargs paths plugin ∅ ∅ ∅ ∅ ∅ ∅ st)).
Proof. reflexivity. Qed.

Lemma dict_get_spec {V} (d : gmap string V) k w :
  dict_get d k w =
  match d !! k with
  | Some v => (inr v, w)
  | None => (inl (KeyError k), w)
  end.
Proof. unfold dict_get. destruct (d !! k); reflexivity. Qed.

Lemma read_paths_spec half kwargs w r w' :
  read_paths half kwargs w = (r, w') ->
  w' = w /\ forall paths, r = inr paths -> map fst paths = model_names.
Proof.
  unfold read_paths. destruct half;
    repeat (rewrite bind_unfold, dict_get_spec;
            match goal with
            | |- context [kwargs !! ?k] => destruct (kwargs !! k)
            end;
            [|intros [= <- <-]; split; [reflexivity | discriminate]]);
    intros [= <- <-]; (split; [reflexivity|]); intros ? [= <-]; reflexivity.
Qed.

Lemma engine_events_not_plugin evs :
  forallb is_engine_event evs = true ->
  forallb (fun ev => negb (is_plugin_event ev)) evs = true.
Proof.
  induction evs as [|ev evs IH]; [reflexivity|]. cbn.
  rewrite !andb_true_iff. intros [H1 H2]. split; [|auto].
  destruct ev; try discriminate; reflexivity.
Qed.

Lemma load_plugins_spec env path w :
  load_plugins env path w =
  match dlopen env path with
  | Some ex => (inl ex, logged [EvDlopen path] w)
  | None => (inr tt, logged [EvDlopen path; EvInitPlugins] w)
  end.
Proof.
  unfold load_plugins, logged. py_unfold.
  destruct (dlopen env path); cbn; rewrite <- ?app_assoc; reflexivity.
Qed.

Lemma cuda_Stream_spec w :
  cuda_Stream w
  = (inr (next_addr w), logged [EvStreamCreate (next_addr w)] (bump 1 w)).
Proof. reflexivity. Qed.

(** Construction, from any well-kept world. *)
Lemma init_spec env half kwargs w r w' :
  heap_ok w ->
  __init__ env half kwargs w = (r, w') ->
  stream_queue w' = stream_queue w /\
  (exists evs,
     trace w' = trace w ++ evs /\
     (evs = [] \/
      (exists p, evs = [EvDlopen p]) \/
      exists p rest,
        evs = EvDlopen p :: EvInitPlugins :: rest /\
        forallb (fun ev => negb (is_plugin_event ev)) rest = true) /\
     forall self,
       r = inr self ->
       exists rest,
         evs = EvDlopen (plugin_path self) :: EvInitPlugins
               :: EvStreamCreate (stream self) :: rest /\
         forallb is_engine_event rest = true) /\
  forall self,
    r = inr self ->
    tables_ready self w' /\ heap_ok w' /\
    forall m, In m model_names -> is_Some (engines self !! m).
Proof.
  intros Hok Hrun. rewrite init_unfold, bind_unfold in Hrun.
  destruct (read_paths half kwargs w) as [[ex|paths] w0] eqn:Hp;
    destruct (read_paths_spec _ _ _ _ _ Hp) as (-> & Hnames).
  { injection Hrun as <- <-. split; [reflexivity|].
    split; [|discriminate]. exists []. rewrite app_nil_r.
    split; [reflexivity|]. split; [auto | discriminate]. }
  rewrite bind_unfold, dict_get_spec in Hrun.
  destruct (kwargs !! "grid_sample_3d") as [plugin|].
  2:{ injection Hrun as <- <-. split; [reflexivity|].
      split; [|discriminate]. exists []. rewrite app_nil_r.
      split; [reflexivity|]. split; [auto | discriminate]. }
  rewrite bind_unfold, load_plugins_spec in Hrun.
  destruct (dlopen env plugin) as [ex|].
  { injection Hrun as <- <-. split; [reflexivity|].
    split; [|discriminate]. exists [EvDlopen plugin].
    split; [reflexivity|]. split; [eauto | discriminate]. }
  set (w1 := logged [EvDlopen plugin; EvInitPlugins] w) in Hrun.
  rewrite bind_unfold, cuda_Stream_spec in Hrun.
  set (w2 := logged _ (bump 1 w1)) in Hrun.
  set (self0 := mk_TensorRTEngine _ _ _ _ _ _ _ _ _ _) in Hrun.
  assert (Hok2 : heap_ok w2).
  { apply (heap_ok_mono w w2); [reflexivity | cbn; lia | exact Hok]. }
  assert (Htab0 : tables_ready self0 w2).
  { intros m. cbn. rewrite !lookup_empty. reflexivity. }
  unfold initialize_engines in Hrun. cbn [model_paths self0] in Hrun.
  destruct (initialize_engines_spec env paths self0 w2 r w' Htab0 Hok2 Hrun)
    as ((evs & Ht & Ha) & Hq & Hs).
  split; [exact Hq|].
  split.
  - exists (EvDlopen plugin :: EvInitPlugins :: EvStreamCreate (next_addr w1) :: evs).
    split; [rewrite Ht; cbn; rewrite <- !app_assoc; reflexivity|].
    split.
    + right. right. exists plugin, (EvStreamCreate (next_addr w1) :: evs).
      split; [reflexivity|]. cbn. apply engine_events_not_plugin, Ha.
    + intros self ->. destruct (Hs self eq_refl) as (_ & _ & _ & _ & Hpp & Hst & _).
      exists evs. rewrite Hpp, Hst. split; [reflexivity | exact Ha].
  - intros self ->. destruct (Hs self eq_refl) as (Htab & Hok' & _ & _ & _ & _ & Hdom).
    conjs; [exact Htab | exact Hok' |].
    intros m Hm. apply Hdom. left. rewrite (Hnames paths eq_refl). exact Hm.
Qed.

(** ** The events of a call *)

Lemma quiet_no_alloc evs :
  forallb quiet evs = true ->
  forallb (fun ev => negb (is_alloc_event ev)) evs = true.
Proof.
  induction evs as [|ev evs IH]; [reflexivity|]. cbn. unfold quiet at 1.
  rewrite !andb_true_iff. intros [[H1 _] H2]. auto.
Qed.

Lemma quiet_no_failure evs :
  forallb quiet evs = true -> existsb is_device_failure evs = false.
Proof.
  induction evs as [|ev evs IH]; [reflexivity|]. cbn. unfold quiet at 1.
  rewrite !andb_true_iff. intros [[_ H1] H2].
  rewrite (IH H2). destruct (is_device_failure ev); [discriminate | reflexivity].
Qed.

Lemma copies_quiet h items evs :
  Forall2 (copy_of h) items evs -> forallb quiet evs = true.
Proof.
  induction 1 as [|item ev items evs Hc _ IH]; [reflexivity|].
  cbn. rewrite IH, andb_true_r.
  unfold copy_of, htod_of in Hc. destruct ev; try discriminate. reflexivity.
Qed.

Lemma copies_no_device_work h items evs :
  Forall2 (copy_of h) items evs -> existsb is_device_work evs = false.
Proof.
  induction 1 as [|item ev items evs Hc _ IH]; [reflexivity|].
  cbn. rewrite IH, orb_false_r.
  unfold copy_of, htod_of in Hc. destruct ev; try discriminate. reflexivity.
Qed.

Lemma binds_quiet e c addrs l : forallb quiet (binds e c addrs l) = true.
Proof.
  unfold binds. induction (seq 0 (trt.num_io_tensors e)) as [|i idxs IH];
    [reflexivity | exact IH].
Qed.

Lemma fetches_quiet h refs : forall addr, forallb quiet (fetches h addr refs) = true.
Proof. induction refs as [|r refs IH]; intros addr; [reflexivity | apply IH]. Qed.

Lemma failure_events_spec m c ex sub :
  forallb (fun ev => negb (is_alloc_event ev)) (failure_events m c ex sub) = true /\
  existsb is_device_failure (failure_events m c ex sub) = true /\
  last (failure_events m c ex sub) = Some (EvPrint m ex).
Proof. destruct sub; repeat split. Qed.

(** The new events of a call: no allocation of a buffer; a failure of the
    device among them exactly when [(None, 0)] is returned. *)
Lemma run_events env self m inputs_arg w r w' :
  ready self w ->
  run_sequential_tasks env self m inputs_arg w = (r, w') ->
  exists evs,
    trace w' = trace w ++ evs /\
    forallb (fun ev => negb (is_alloc_event ev)) evs = true /\
    (existsb is_device_failure evs = true <-> r = inr (VTuple [VNone; VInt 0])) /\
    (forall ex, r = inl ex -> existsb is_device_work evs = false).
Proof.
  intros Hready Hrun.
  destruct (engines self !! m) as [e|] eqn:He.
  2:{ unfold run_sequential_tasks in Hrun. rewrite He in Hrun.
      injection Hrun as <- <-. exists []. rewrite app_nil_r.
      repeat split; try discriminate. }
  destruct (run_path_of_ready env self m e inputs_arg w Hready He)
    as (c & ctx & bs & _ & _ & _ & _ & _ & _ & _ & _ & _ & Hpath).
  rewrite Hrun in Hpath. inversion Hpath; subst.
  - exists []. rewrite app_nil_r. repeat split; try discriminate.
  - exists []. rewrite app_nil_r. repeat split; try discriminate.
  - exists evs. split; [assumption|].
    match goal with H : Forall2 _ _ evs |- _ =>
      pose proof (copies_quiet _ _ _ H) as Hquiet;
      pose proof (copies_no_device_work _ _ _ H) as Hwork end.
    split; [apply quiet_no_alloc, Hquiet|].
    split; [|intros; exact Hwork].
    rewrite (quiet_no_failure _ Hquiet). split; discriminate.
  - eexists. split; [eassumption|].
    match goal with H : Forall2 _ _ evs |- _ =>
      pose proof (copies_quiet _ _ _ H) as Hquiet end.
    destruct (failure_events_spec m c ex at_submission) as (Hf1 & Hf2 & _).
    split; [|split; [|discriminate]].
    + rewrite !forallb_app, (quiet_no_alloc _ Hquiet),
        (quiet_no_alloc _ (binds_quiet _ _ _ _)), Hf1. reflexivity.
    + rewrite !existsb_app, Hf2, !orb_true_r. split; reflexivity.
  - eexists. split; [eassumption|].
    match goal with H : Forall2 _ _ evs |- _ =>
      pose proof (copies_quiet _ _ _ H) as Hquiet end.
    split; [|split; [|discriminate]].
    + rewrite !forallb_app, (quiet_no_alloc _ Hquiet),
        (quiet_no_alloc _ (binds_quiet _ _ _ _)),
        (quiet_no_alloc _ (fetches_quiet _ _ _)). reflexivity.
    + rewrite !existsb_app, (quiet_no_failure _ Hquiet),
        (quiet_no_failure _ (binds_quiet _ _ _ _)),
        (quiet_no_failure _ (fetches_quiet _ _ _)). cbn.
      split; discriminate.
Qed.

(** ** Calls that stop at validation *)

Lemma item_error_at h j a r b :
  h !! r = Some b -> item_error h j (a, r) = validation_error j a b.
Proof. intros H. unfold item_error. cbn. rewrite H. reflexivity. Qed.

Lemma valid_before_items h l ins k :
  valid_before h l ins k ->
  Forall (binding_ready h) ins ->
  forall j it, (j < k)%nat -> zip l ins !! j = Some it ->
               item_error h j it = None.
Proof.
  intros Hv Hr j [a r] Hj Hit. apply zip_lookup in Hit as [Ha Hi].
  rewrite Forall_lookup in Hr. destruct (Hr _ _ Hi) as (b & _ & Hb & _).
  rewrite (item_error_at _ _ _ _ _ Hb). apply validation_error_none. eauto.
Qed.

Lemma items_valid_before h l ins k :
  (forall j it, (j < k)%nat -> zip l ins !! j = Some it ->
                item_error h j it = None) ->
  valid_before h l ins k.
Proof.
  intros Hv j a r b Hj Ha Hi Hb.
  apply (validation_error_none j). rewrite <- (item_error_at h j a r b Hb).
  apply Hv; [exact Hj|]. apply zip_lookup. auto.
Qed.

(** A call whose first invalid array is at position [k] raises the exception
    of that position, after it has copied the [k] arrays before it and
    nothing else. *)
Lemma run_first_invalid env self m e ins inputs_arg l w k a r b ex :
  ready self w ->
  engines self !! m = Some e ->
  inputs self !! m = Some ins ->
  resolve (heap w) ins inputs_arg = inr l ->
  length l = length ins ->
  valid_before (heap w) l ins k ->
  l !! k = Some a -> ins !! k = Some r -> heap w !! r = Some b ->
  validation_error k a b = Some ex ->
  exists w' evs,
    run_sequential_tasks env self m inputs_arg w = (inl ex, w') /\
    trace w' = trace w ++ evs /\
    Forall2 (copy_of (heap w)) (take k (zip l ins)) evs /\
    heap w' = heap w /\ context_heap w' = context_heap w /\
    stream_queue w' = stream_queue w /\ next_addr w <= next_addr w' /\
    (k = 0%nat -> w' = w).
Proof.
  intros Hready He Hins Hres Hlen Hbefore Ha Hr Hb Hex.
  destruct (run_path_of_ready env self m e inputs_arg w Hready He)
    as (c & ctx & bs & _ & _ & _ & _ & Hins' & _ & Hrb & _ & _ & Hpath).
  rewrite Hins in Hins'. injection Hins' as Hins'.
  assert (Hrins : Forall (binding_ready (heap w)) ins)
    by (rewrite Hins'; apply Forall_filter_list, Hrb).
  rewrite <- Hins' in Hpath.
  assert (Hitem : zip l ins !! k = Some (a, r)) by (apply zip_lookup; auto).
  assert (Herr : item_error (heap w) k (a, r) = Some ex)
    by (rewrite (item_error_at _ _ _ _ _ Hb); exact Hex).
  destruct (run_sequential_tasks env self m inputs_arg w) as [res w'].
  exists w'.
  inversion Hpath; subst;
    try match goal with
        | H1 : resolve _ _ _ = _, H2 : resolve _ _ _ = _ |- _ =>
            rewrite H1 in H2; first [discriminate | injection H2 as ->]
        end;
    try contradiction.
  - (* the call stopped at some position k0: it is k *)
    match goal with
    | Hk0 : zip _ _ !! ?k0 = Some ?it, He0 : item_error _ ?k0 ?it = Some ?ex0,
      Hv0 : forall j it, (j < ?k0)%nat -> _ |- _ =>
        assert (k0 = k) as ->;
        [ destruct (Nat.lt_trichotomy k0 k) as [Hlt|[Heq|Hgt]];
          [ pose proof (valid_before_items _ _ _ _ Hbefore Hrins k0 it Hlt Hk0);
            congruence
          | exact Heq
          | pose proof (Hv0 k (a, r) Hgt Hitem); congruence ]
        | assert (it = (a, r)) as -> by congruence;
          assert (ex0 = ex) as -> by congruence ]
    end.
    exists evs. conjs; auto.
  - match goal with
    | Hv0 : forall j it, zip _ _ !! j = Some it -> _ |- _ =>
        pose proof (Hv0 k (a, r) Hitem); congruence
    end.
  - match goal with
    | Hv0 : forall j it, zip _ _ !! j = Some it -> _ |- _ =>
        pose proof (Hv0 k (a, r) Hitem); congruence
    end.
Qed.

(** Every exception of a call on a loaded model comes from one of three
    places. *)
Lemma run_raise_inv env self m e ins inputs_arg w ex w' :
  ready self w ->
  engines self !! m = Some e ->
  inputs self !! m = Some ins ->
  run_sequential_tasks env self m inputs_arg w = (inl ex, w') ->
  resolve (heap w) ins inputs_arg = inl ex \/
  (exists l, resolve (heap w) ins inputs_arg = inr l /\
             length l <> length ins /\
             ex = ValueError (msg_input_count m)) \/
  (exists l k a r b,
     resolve (heap w) ins inputs_arg = inr l /\ length l = length ins /\
     l !! k = Some a /\ ins !! k = Some r /\ heap w !! r = Some b /\
     validation_error k a b = Some ex /\ valid_before (heap w) l ins k).
Proof.
  intros Hready He Hins Hrun.
  destruct (run_path_of_ready env self m e inputs_arg w Hready He)
    as (c & ctx & bs & _ & _ & _ & _ & Hins' & _ & Hrb & _ & _ & Hpath).
  rewrite Hins in Hins'. injection Hins' as Hins'.
  assert (Hrins : Forall (binding_ready (heap w)) ins)
    by (rewrite Hins'; apply Forall_filter_list, Hrb).
  rewrite <- Hins' in Hpath.
  rewrite Hrun in Hpath. inversion Hpath; subst.
  - left. assumption.
  - right. left. eauto.
  - right. right. destruct item as [a r].
    match goal with H : zip _ _ !! _ = Some _ |- _ =>
      apply zip_lookup in H as [Ha Hi] end.
    rewrite Forall_lookup in Hrins. destruct (Hrins _ _ Hi) as (b & _ & Hb & _).
    exists l, k, a, r, b. conjs; try assumption.
    + rewrite <- (item_error_at _ _ _ _ _ Hb). assumption.
    + apply items_valid_before. assumption.
Qed.

(** A call that returns has passed validation at every position. *)
Lemma run_return_inv env self m e ins inputs_arg w v w' :
  ready self w ->
  engines self !! m = Some e ->
  inputs self !! m = Some ins ->
  run_sequential_tasks env self m inputs_arg w = (inr v, w') ->
  exists l,
    resolve (heap w) ins inputs_arg = inr l /\ length l = length ins /\
    valid_before (heap w) l ins (length l).
Proof.
  intros Hready He Hins Hrun.
  destruct (run_path_of_ready env self m e inputs_arg w Hready He)
    as (c & ctx & bs & _ & _ & _ & _ & Hins' & _ & Hrb & _ & _ & Hpath).
  rewrite Hins in Hins'. injection Hins' as Hins'.
  rewrite <- Hins' in Hpath.
  rewrite Hrun in Hpath. inversion Hpath; subst; exists l;
    (conjs; [assumption | assumption |]);
    apply items_valid_before; intros j it _ Hj; auto.
Qed.

Lemma shape_ok_false a b : shape_ok a b = false <-> shape_mismatch a b.
Proof.
  unfold shape_ok, shape_mismatch.
  destruct (np.shape_eqb (np.arr_shape a) (shape b)) eqn:H1;
    destruct (np.shape_eqb (shape b) [1]) eqn:H2;
    destruct (np.shape_eqb (np.arr_shape a) []) eqn:H3; cbn;
    rewrite ?shape_eqb_eq, ?shape_eqb_neq in *;
    split; try discriminate; try tauto; intros _; tauto.
Qed.

Lemma validation_error_shape idx a b :
  validation_error idx a b
  = Some (ValueError (msg_wrong_shape idx (shape b) (np.arr_shape a)))
  <-> shape_mismatch a b.
Proof.
  rewrite <- shape_ok_false. unfold validation_error.
  destruct (shape_ok a b); cbn; [|tauto].
  destruct (dtype_ok a b); cbn; split; discriminate.
Qed.

(** The exceptions of validation are [ValueError] and [TypeError], and they
    carry the position. *)
Lemma validation_error_kind idx a b ex :
  validation_error idx a b = Some ex ->
  ex = ValueError (msg_wrong_shape idx (shape b) (np.arr_shape a)) \/
  ex = TypeError (msg_wrong_dtype idx (dtype b) (np.arr_dtype a)).
Proof.
  unfold validation_error.
  destruct (shape_ok a b); cbn; [|intros [= <-]; auto].
  destruct (dtype_ok a b); cbn; [discriminate | intros [= <-]; auto].
Qed.

(** * A small installation *)

Lemma demo_constructed_eq :
  __init__ Demo.healthy false Demo.kwargs Demo.boot
  = (inr Demo.manager, Demo.world).
Proof. vm_compute. reflexivity. Qed.

Lemma demo_boot_ok : heap_ok Demo.boot.
Proof. intros r b H. cbn in H. rewrite lookup_nil in H. discriminate. Qed.

Lemma demo_manager_ready : ready Demo.manager Demo.world.
Proof.
  destruct (init_spec _ _ _ _ _ _ demo_boot_ok demo_constructed_eq) as (Hq & _ & Hs).
  destruct (Hs Demo.manager eq_refl) as (Htab & Hok & _).
  split; [exact Htab|]. split; [exact Hq | exact Hok].
Qed.

(** * The claims *)

(** C1 (the code departs from it).  A 64-bit integer array for a 32-bit
    slot is never rejected by [check_input_validity], whatever its values:
    the array returned holds the two's-complement wrap-around of each value,
    which is the original value exactly when that value is representable in
    32 bits.  For the value 2^31, which is not, the call succeeds and the
    value copied to the device is -2^31. *)
Theorem narrowing_is_never_rejected :
  (forall idx addr sh data bname binput hb db w,
     check_input_validity idx (np.mk_ndarray addr np.int64 sh data)
       (mk_Binding bname binput np.int32 sh hb db) w
     = (inr (np.mk_ndarray (next_addr w) np.int32 sh
               (map (np.cast np.int32) data)),
        bump 2 w)) /\
  (forall data,
     map (np.cast np.int32) data = data
     <-> Forall (np.representable np.int32) data) /\
  ~ np.representable np.int32 (2 ^ 31) /\
  exists outs w',
    run_sequential_tasks Demo.healthy Demo.manager "feature_extractor"
      (InList [Demo.x_wide; Demo.y_ok]) Demo.world
    = (inr (VList outs), w') /\
    exists dst src,
      In (EvMemcpyHtoD dst src) (trace w') /\
      np.arr_data src = [- 2 ^ 31].
Proof.
  split; [|split; [|split]].
  - intros. rewrite check_input_validity_spec.
    unfold validation_error, shape_ok, dtype_ok, checked. cbn.
    rewrite shape_eqb_refl. reflexivity.
  - apply narrow_lossless_list.
  - cbn. lia.
  - eexists _, _. split; [vm_compute; reflexivity|].
    eexists _, _. split.
    + cbn. repeat first [left; reflexivity | right].
    + reflexivity.
Qed.

(** C4.  In a call to [run_sequential_tasks] an array whose shape differs
    from the declared shape of its binding is rejected with a validation
    error, except when the declared shape is [(1,)] and the array is a
    scalar: the call raises (a [ValueError] or a [TypeError]) whenever the
    shapes mismatch in that sense, and, when the arrays before position [k]
    are valid, it raises the shape error of position [k] exactly then. *)
Theorem shape_rule_of_run env self m e ins inputs_arg l w k a r b :
  ready self w ->
  engines self !! m = Some e ->
  inputs self !! m = Some ins ->
  resolve (heap w) ins inputs_arg = inr l ->
  length l = length ins ->
  l !! k = Some a -> ins !! k = Some r -> heap w !! r = Some b ->
  (shape_mismatch a b ->
   exists ex w',
     run_sequential_tasks env self m inputs_arg w = (inl ex, w') /\
     exists msg, ex = ValueError msg \/ ex = TypeError msg) /\
  (valid_before (heap w) l ins k ->
   ((exists w',
       run_sequential_tasks env self m inputs_arg w
       = (inl (ValueError (msg_wrong_shape k (shape b) (np.arr_shape a))), w'))
    <-> shape_mismatch a b)).
Proof.
  intros Hready He Hins Hres Hlen Ha Hr Hb. split.
  - intros Hmis. apply validation_error_shape with (idx := k) in Hmis.
    destruct (run_sequential_tasks env self m inputs_arg w) as [[ex|v] w'] eqn:Hrun.
    + exists ex, w'. split; [reflexivity|].
      destruct (run_raise_inv _ _ _ _ _ _ _ _ _ Hready He Hins Hrun)
        as [Hbad|[(l0 & Hres0 & Hne & ->)|(l0 & k0 & a0 & r0 & b0 & _ & _ & _ & _ & _ & Hv & _)]].
      * congruence.
      * eauto.
      * destruct (validation_error_kind _ _ _ _ Hv) as [-> | ->]; eauto.
    + destruct (run_return_inv _ _ _ _ _ _ _ _ _ Hready He Hins Hrun)
        as (l0 & Hres0 & _ & Hvalid).
      assert (l0 = l) as -> by congruence.
      assert (Hk : (k < length l)%nat) by (eapply lookup_lt_Some, Ha).
      pose proof (Hvalid k a r b Hk Ha Hr Hb) as Hok.
      apply (validation_error_none k) in Hok. congruence.
  - intros Hbefore. split.
    + intros [w' Hrun].
      destruct (run_raise_inv _ _ _ _ _ _ _ _ _ Hready He Hins Hrun)
        as [Hbad|[(l0 & Hres0 & Hne & Hex)|(l0 & k0 & a0 & r0 & b0 & Hres0 & _
                                              & Ha0 & Hr0 & Hb0 & Hv & _)]].
      * congruence.
      * discriminate.
      * assert (l0 = l) as -> by congruence.
        destruct (validation_error_kind _ _ _ _ Hv) as [Hk|Hk]; [|discriminate].
        injection Hk as <- _ _.
        assert (a0 = a) as -> by congruence.
        assert (r0 = r) as -> by congruence.
        assert (b0 = b) as -> by congruence.
        apply (validation_error_shape k). exact Hv.
    + intros Hmis. apply validation_error_shape with (idx := k) in Hmis.
      destruct (run_first_invalid env _ _ _ _ _ _ _ _ _ _ _ _ Hready He Hins
                  Hres Hlen Hbefore Ha Hr Hb Hmis) as (w' & _ & Hrun & _).
      eauto.
Qed.

(** A call with a three-element array for the binding of shape [(2,)]. *)
Lemma shape_rule_of_run_witness :
  exists ex w',
    run_sequential_tasks Demo.healthy Demo.manager "feature_extractor"
      (InList [Demo.x_ok; Demo.y_bad]) Demo.world = (inl ex, w') /\
    exists msg, ex = ValueError msg \/ ex = TypeError msg.
Proof.
  refine (proj1 (shape_rule_of_run Demo.healthy Demo.manager
                   "feature_extractor" Demo.pair_engine [0; 1]%nat
                   (InList [Demo.x_ok; Demo.y_bad]) [Demo.x_ok; Demo.y_bad]
                   Demo.world 1 Demo.y_bad 1
                   (mk_Binding "y" true np.float32 [2] None
                      (Some (mk_buffer 2 8)))
                   demo_manager_ready _ _ _ _ _ _ _) _).
  - vm_compute. reflexivity.
  - vm_compute. reflexivity.
  - reflexivity.
  - reflexivity.
  - reflexivity.
  - reflexivity.
  - vm_compute. reflexivity.
  - split; [discriminate|]. intros [_ H]. discriminate.
Defined.

(** C5.  For a model name that is not among the engines of the manager,
    [run_sequential_tasks] raises the configuration error
    [ValueError "Model name ... not found in engines."] and
    [inference_tensorrt], given its list, raises
    [ValueError "Task ... not found in the model inputs."]; the world after
    the call is the world before it, so nothing was allocated and nothing
    was sent to the device.  (Given something that is not a list,
    [inference_tensorrt] has already raised its [TypeError], also without
    touching the world.) *)
Theorem unknown_model_is_rejected env self model_name w :
  ready self w ->
  engines self !! model_name = None ->
  (forall inputs_arg,
     run_sequential_tasks env self model_name inputs_arg w
     = (inl (ValueError (msg_model_not_found model_name)), w)) /\
  (forall arrays,
     inference_tensorrt env self model_name (InList arrays) w
     = (inl (ValueError (msg_task_not_found model_name)), w)) /\
  (forall by_name,
     inference_tensorrt env self model_name (InDict by_name) w
     = (inl (TypeError msg_inputs_not_list), w)).
Proof.
  intros (Htab & _ & _) He. specialize (Htab model_name). rewrite He in Htab.
  split; [|split].
  - intros inputs_arg. unfold run_sequential_tasks. rewrite He. reflexivity.
  - intros arrays. unfold inference_tensorrt. rewrite Htab. reflexivity.
  - intros by_name. reflexivity.
Qed.

(** The manager of the small installation and a name it does not know. *)
Lemma unknown_model_is_rejected_witness :
  run_sequential_tasks Demo.healthy Demo.manager "upscaler"
    (InList [Demo.x_ok]) Demo.world
  = (inl (ValueError (msg_model_not_found "upscaler")), Demo.world) /\
  inference_tensorrt Demo.healthy Demo.manager "upscaler"
    (InList [Demo.x_ok]) Demo.world
  = (inl (ValueError (msg_task_not_found "upscaler")), Demo.world).
Proof.
  assert (Hnone : engines Demo.manager !! "upscaler" = None)
    by (vm_compute; reflexivity).
  destruct (unknown_model_is_rejected Demo.healthy Demo.manager "upscaler"
              Demo.world demo_manager_ready Hnone) as (Hrun & Hinfer & _).
  split; [apply Hrun | apply Hinfer].
Defined.

(** C2, as stated, fails: in this call the first array is valid and the
    second has the wrong shape; the shape error of position 1 is raised
    after the first array has been copied into its device buffer. *)
Lemma copy_precedes_later_rejection :
  exists w',
    run_sequential_tasks Demo.healthy Demo.manager "feature_extractor"
      (InList [Demo.x_ok; Demo.y_bad]) Demo.world
    = (inl (ValueError (msg_wrong_shape 1 [2] [3])), w') /\
    trace w' = trace Demo.world ++ [EvMemcpyHtoD 1 Demo.x_ok] /\
    device_mem Demo.world !! 1 = Some [0] /\
    device_mem w' !! 1 = Some [7].
Proof.
  eexists. split; [vm_compute; reflexivity|].
  split; [|split]; vm_compute; reflexivity.
Qed.

(** C2, amended.  When the arrays before position [k] are valid and the
    array at position [k] is not, the call raises the validation error of
    position [k]; by then exactly the [k] arrays before it have been copied
    to their device buffers, in order, and nothing else has happened: no
    address is bound, nothing is submitted, the bindings and the contexts are
    as before.  When [k] is 0 the world is unchanged. *)
Theorem validation_error_after_earlier_copies
    env self m e ins inputs_arg l w k a r b ex :
  ready self w ->
  engines self !! m = Some e ->
  inputs self !! m = Some ins ->
  resolve (heap w) ins inputs_arg = inr l ->
  length l = length ins ->
  valid_before (heap w) l ins k ->
  l !! k = Some a -> ins !! k = Some r -> heap w !! r = Some b ->
  validation_error k a b = Some ex ->
  exists w' evs,
    run_sequential_tasks env self m inputs_arg w = (inl ex, w') /\
    trace w' = trace w ++ evs /\
    Forall2 (copy_of (heap w)) (take k (zip l ins)) evs /\
    heap w' = heap w /\ context_heap w' = context_heap w /\
    stream_queue w' = stream_queue w /\
    (k = 0%nat -> w' = w).
Proof.
  intros Hready He Hins Hres Hlen Hbefore Ha Hr Hb Hex.
  destruct (run_first_invalid env _ _ _ _ _ _ _ _ _ _ _ _ Hready He Hins
              Hres Hlen Hbefore Ha Hr Hb Hex)
    as (w' & evs & Hrun & Ht & Hev & Hh & Hc & Hq & _ & H0).
  exists w', evs. conjs; assumption.
Qed.

(** The call of the counterexample: one copy, then the error. *)
Lemma validation_error_after_earlier_copies_witness :
  exists w' evs,
    run_sequential_tasks Demo.healthy Demo.manager "feature_extractor"
      (InList [Demo.x_ok; Demo.y_bad]) Demo.world
    = (inl (ValueError (msg_wrong_shape 1 [2] [3])), w') /\
    trace w' = trace Demo.world ++ evs /\
    Forall2 (copy_of (heap Demo.world))
            (take 1 (zip [Demo.x_ok; Demo.y_bad] [0; 1]%nat)) evs /\
    heap w' = heap Demo.world /\
    context_heap w' = context_heap Demo.world /\
    stream_queue w' = stream_queue Demo.world /\
    (1%nat = 0%nat -> w' = Demo.world).
Proof.
  refine (validation_error_after_earlier_copies Demo.healthy Demo.manager
            "feature_extractor" Demo.pair_engine [0; 1]%nat
            (InList [Demo.x_ok; Demo.y_bad]) [Demo.x_ok; Demo.y_bad]
            Demo.world 1 Demo.y_bad 1
            (mk_Binding "y" true np.float32 [2] None (Some (mk_buffer 2 8)))
            (ValueError (msg_wrong_shape 1 [2] [3]))
            demo_manager_ready _ _ _ _ _ _ _ _ _).
  - vm_compute. reflexivity.
  - vm_compute. reflexivity.
  - reflexivity.
  - reflexivity.
  - intros j a r b Hj Ha Hr Hb.
    destruct j as [|j]; [|lia].
    injection Ha as <-. injection Hr as <-.
    vm_compute in Hb. injection Hb as <-. reflexivity.
  - reflexivity.
  - reflexivity.
  - vm_compute. reflexivity.
  - reflexivity.
Defined.

(** ** Sequences of calls *)

Lemma runs_keep_ready self w w' :
  runs self w w' ->
  ready self w ->
  ready self w' /\ heap w' = heap w /\
  exists evs,
    trace w' = trace w ++ evs /\
    forallb (fun ev => negb (is_alloc_event ev)) evs = true.
Proof.
  induction 1 as [w|env m inputs_arg r w w1 w2 Hrun _ IH]; intros Hready.
  - split; [exact Hready|]. split; [reflexivity|].
    exists []. rewrite app_nil_r. auto.
  - destruct (run_keeps_ready _ _ _ _ _ _ _ Hready Hrun) as (Hready1 & Hh1 & _).
    destruct (run_events _ _ _ _ _ _ _ Hready Hrun) as (evs1 & Ht1 & Ha1 & _).
    destruct (IH Hready1) as (Hready2 & Hh2 & evs2 & Ht2 & Ha2).
    split; [exact Hready2|]. split; [congruence|].
    exists (evs1 ++ evs2). rewrite Ht2, Ht1, app_assoc.
    split; [reflexivity | apply forallb_app_true; assumption].
Qed.

(** C3, as stated, fails: after construction the bindings have no host
    buffer.  Here are the input bindings of the first model of the small
    installation. *)
Lemma host_buffers_are_not_allocated :
  __init__ Demo.healthy false Demo.kwargs Demo.boot
  = (inr Demo.manager, Demo.world) /\
  inputs Demo.manager !! "feature_extractor" = Some [0; 1]%nat /\
  heap Demo.world !! 0%nat
  = Some (mk_Binding "x" true np.int32 [1] None (Some (mk_buffer 1 4))) /\
  heap Demo.world !! 1%nat
  = Some (mk_Binding "y" true np.float32 [2] None (Some (mk_buffer 2 8))).
Proof. repeat split; vm_compute; reflexivity. Qed.

(** C3, amended.  After a successful construction every binding of each of
    the six models (its inputs and its outputs) has its device buffer, of
    byte size shape volume times element size, and no host buffer: the host
    buffer is made on first use only, and nothing uses it.  Calls to
    [run_sequential_tasks] then leave the bindings as they are and allocate
    no buffer of a binding. *)
Theorem construction_allocates_device_buffers env half kwargs w self w' :
  heap_ok w ->
  stream_queue w = [] ->
  __init__ env half kwargs w = (inr self, w') ->
  (forall m,
     In m model_names ->
     exists bs,
       bindings self !! m = Some bs /\
       inputs self !! m = Some (input_refs (heap w') bs) /\
       outputs self !! m = Some (output_refs (heap w') bs) /\
       Forall (fun r =>
                 exists b buf,
                   heap w' !! r = Some b /\ _device_buf b = Some buf /\
                   buf_nbytes buf = np.volume (shape b) * np.itemsize (dtype b) /\
                   _host_buf b = None) bs) /\
  (forall w'',
     runs self w' w'' ->
     heap w'' = heap w' /\
     exists evs,
       trace w'' = trace w' ++ evs /\
       forallb (fun ev => negb (is_alloc_event ev)) evs = true).
Proof.
  intros Hok Hq Hinit.
  destruct (init_spec _ _ _ _ _ _ Hok Hinit) as (Hq' & _ & Hs).
  destruct (Hs self eq_refl) as (Htab & Hok' & Hdom).
  split.
  - intros m Hm. destruct (Hdom m Hm) as [e He].
    specialize (Htab m). rewrite He in Htab.
    destruct Htab as (c & ctx & bs & _ & _ & _ & Hbs & _ & Hins & Houts & Hr & _).
    exists bs. conjs; assumption.
  - intros w'' Hruns.
    assert (Hready : ready self w').
    { split; [exact Htab|]. split; [congruence | exact Hok']. }
    destruct (runs_keep_ready _ _ _ Hruns Hready) as (_ & Hh & Hev).
    split; assumption.
Qed.

(** The construction of the small installation, followed by one call. *)
Lemma construction_allocates_device_buffers_witness :
  (exists bs,
     bindings Demo.manager !! "generator" = Some bs /\
     Forall (fun r =>
               exists b buf,
                 heap Demo.world !! r = Some b /\ _device_buf b = Some buf /\
                 buf_nbytes buf = np.volume (shape b) * np.itemsize (dtype b) /\
                 _host_buf b = None) bs) /\
  forall r w'',
    run_sequential_tasks Demo.healthy Demo.manager "generator"
      (InList [Demo.x_ok; Demo.y_ok]) Demo.world = (r, w'') ->
    heap w'' = heap Demo.world.
Proof.
  destruct (construction_allocates_device_buffers Demo.healthy false
              Demo.kwargs Demo.boot Demo.manager Demo.world
              demo_boot_ok eq_refl demo_constructed_eq) as [Hbufs Hruns].
  split.
  - assert (Hin : In "generator" model_names) by (cbn; auto).
    destruct (Hbufs "generator" Hin) as (bs & Hbs & _ & _ & Hall).
    exists bs. split; assumption.
  - intros r w'' Hrun. apply Hruns.
    eapply runs_call; [exact Hrun | apply runs_none].
Defined.

(** C9, as stated, fails: the plugin is loaded and registered by every
    construction.  A second manager in the same process registers it a
    second time, after the engines of the first have been deserialized. *)
Lemma second_manager_loads_plugins_again :
  exists self1 w1 self2 w2,
    __init__ Demo.healthy false Demo.kwargs Demo.boot = (inr self1, w1) /\
    __init__ Demo.healthy false Demo.kwargs w1 = (inr self2, w2) /\
    length (List.filter (fun ev => match ev with
                                   | EvInitPlugins => true
                                   | _ => false
                                   end) (trace w2)) = 2%nat /\
    exists pre post,
      trace w2 = pre ++ EvInitPlugins :: post /\
      In (EvDeserialize "F.engine") pre.
Proof.
  exists Demo.manager, Demo.world.
  destruct (__init__ Demo.healthy false Demo.kwargs Demo.world)
    as [[ex|self2] w2] eqn:H2; [vm_compute in H2; discriminate|].
  exists self2, w2.
  split; [exact demo_constructed_eq|]. split; [reflexivity|].
  assert (Ht : trace w2 = trace (__init__ Demo.healthy false Demo.kwargs Demo.world).2)
    by (rewrite H2; reflexivity).
  rewrite Ht. clear.
  split; [vm_compute; reflexivity|].
  exists (trace Demo.world ++ [EvDlopen "libgrid_sample_3d_plugin.so"]).
  eexists. split; [vm_compute; reflexivity|].
  vm_compute. auto 10.
Qed.

(** C9, amended.  Every successful construction of a manager loads and
    registers the plugin exactly once, as its first two foreign calls, and so
    before any engine of that manager is deserialized.  There is no state
    that makes this once per process. *)
Theorem plugins_loaded_once_per_construction env half kwargs w self w' :
  heap_ok w ->
  __init__ env half kwargs w = (inr self, w') ->
  exists rest,
    trace w' = trace w ++ EvDlopen (plugin_path self) :: EvInitPlugins :: rest /\
    forallb (fun ev => negb (is_plugin_event ev)) rest = true.
Proof.
  intros Hok Hinit.
  destruct (init_spec _ _ _ _ _ _ Hok Hinit) as (_ & (evs & Ht & _ & Hs) & _).
  destruct (Hs self eq_refl) as (rest & -> & Hrest).
  exists (EvStreamCreate (stream self) :: rest). split; [exact Ht|].
  cbn. apply engine_events_not_plugin, Hrest.
Qed.

(** The construction of the small installation. *)
Lemma plugins_loaded_once_per_construction_witness :
  exists rest,
    trace Demo.world
    = trace Demo.boot
      ++ EvDlopen (plugin_path Demo.manager) :: EvInitPlugins :: rest /\
    forallb (fun ev => negb (is_plugin_event ev)) rest = true.
Proof.
  exact (plugins_loaded_once_per_construction Demo.healthy false Demo.kwargs
           Demo.boot Demo.manager Demo.world demo_boot_ok demo_constructed_eq).
Defined.

(** ** Calls that reach the device *)

(** What a call returns, when it returns: the pair [(None, 0)], or a list
    of arrays. *)
Lemma run_value_inv env self m inputs_arg w v w' :
  ready self w ->
  run_sequential_tasks env self m inputs_arg w = (inr v, w') ->
  v = VTuple [VNone; VInt 0] \/ exists arrays, v = VList (VArray <$> arrays).
Proof.
  intros Hready Hrun.
  destruct (engines self !! m) as [e|] eqn:He.
  2:{ unfold run_sequential_tasks in Hrun. rewrite He in Hrun. discriminate. }
  destruct (run_path_of_ready env self m e inputs_arg w Hready He)
    as (c & ctx & bs & _ & _ & _ & _ & _ & _ & _ & _ & _ & Hpath).
  rewrite Hrun in Hpath. inversion Hpath; subst; eauto.
Qed.

(** With valid arrays and a device that does not raise, a call returns the
    list of its outputs. *)
Lemma run_succeeds env self m e ins outs arrays w :
  ready self w ->
  engines self !! m = Some e ->
  inputs self !! m = Some ins ->
  outputs self !! m = Some outs ->
  length arrays = length ins ->
  valid_before (heap w) arrays ins (length arrays) ->
  healthy_device env ->
  exists results w',
    run_sequential_tasks env self m (InList arrays) w
    = (inr (VList (VArray <$> results)), w') /\
    length results = length outs.
Proof.
  intros Hready He Hins Houts Hlen Hvalid Hdev.
  destruct (run_path_of_ready env self m e (InList arrays) w Hready He)
    as (c & ctx & bs & _ & _ & _ & _ & Hins' & Houts' & Hrb & _ & _ & Hpath).
  rewrite Hins in Hins'. injection Hins' as Hins'.
  rewrite Houts in Houts'. injection Houts' as Houts'.
  assert (Hrins : Forall (binding_ready (heap w)) ins)
    by (rewrite Hins'; apply Forall_filter_list, Hrb).
  rewrite <- Hins', <- Houts' in Hpath.
  destruct (run_sequential_tasks env self m (InList arrays) w) as [res w'].
  inversion Hpath; subst;
    repeat match goal with
           | H : resolve _ _ (InList _) = _ |- _ =>
               cbn in H; first [discriminate | injection H as <-]
           end;
    try contradiction.
  - match goal with
    | Hk : zip _ _ !! ?k = Some ?it, Hex : item_error _ ?k ?it = Some _ |- _ =>
        assert (Hlt : (k < length arrays)%nat)
          by (rewrite <- (zip_length arrays _ Hlen);
              eapply lookup_lt_Some, Hk);
        pose proof (valid_before_items _ _ _ _ Hvalid Hrins k it Hlt Hk);
        congruence
    end.
  - match goal with
    | H : device_outcome env ?c0 ?mem = inl _ |- _ =>
        unfold device_outcome in H;
        destruct (Hdev (context_engine c0) (tensor_addresses c0)) as [Hs Hr];
        rewrite Hs in H; destruct (Hr mem) as [mem' Hm];
        rewrite Hm in H; discriminate
    end.
  - eexists _, w'. split; [reflexivity|].
    clear. generalize (next_addr w1).
    induction (output_refs (heap w) bs) as [|r outs IH]; intros addr; cbn;
      [reflexivity|].
    f_equal. apply IH.
Qed.

(** A call that returns [(None, 0)] has printed the failure, with the name
    of the model, as its last act, and has left the bindings alone. *)
Lemma run_failure_inv env self m inputs_arg w w' :
  ready self w ->
  run_sequential_tasks env self m inputs_arg w
  = (inr (VTuple [VNone; VInt 0]), w') ->
  exists evs ex,
    trace w' = trace w ++ evs /\ last evs = Some (EvPrint m ex) /\
    heap w' = heap w.
Proof.
  intros Hready Hrun.
  destruct (engines self !! m) as [e|] eqn:He.
  2:{ unfold run_sequential_tasks in Hrun. rewrite He in Hrun. discriminate. }
  destruct (run_path_of_ready env self m e inputs_arg w Hready He)
    as (c & ctx & bs & _ & _ & _ & _ & _ & _ & _ & _ & _ & Hpath).
  rewrite Hrun in Hpath. inversion Hpath; subst.
  eexists _, ex. split; [eassumption|]. split; [|assumption].
  rewrite !last_app.
  destruct (failure_events_spec m c ex at_submission) as (_ & _ & ->).
  reflexivity.
Qed.

(** C6.  When the submission or the synchronization of a call raises, the
    call returns the pair [(None, 0)] and raises nothing; the last thing it
    does is print the failure with the name of the model.  The manager is
    the same value, its bindings and their buffers are the same, and it is
    ready as before: a later call with valid arrays, on a device that does
    not raise, returns its list of outputs. *)
Theorem device_failure_is_caught env self m inputs_arg w r w' evs :
  ready self w ->
  run_sequential_tasks env self m inputs_arg w = (r, w') ->
  trace w' = trace w ++ evs ->
  existsb is_device_failure evs = true ->
  r = inr (VTuple [VNone; VInt 0]) /\
  (exists ex, last evs = Some (EvPrint m ex)) /\
  heap w' = heap w /\
  ready self w' /\
  forall env' e ins outs arrays,
    healthy_device env' ->
    engines self !! m = Some e ->
    inputs self !! m = Some ins ->
    outputs self !! m = Some outs ->
    length arrays = length ins ->
    valid_before (heap w') arrays ins (length arrays) ->
    exists results w'',
      run_sequential_tasks env' self m (InList arrays) w'
      = (inr (VList (VArray <$> results)), w'') /\
      length results = length outs.
Proof.
  intros Hready Hrun Ht Hfail.
  destruct (run_events _ _ _ _ _ _ _ Hready Hrun) as (evs0 & Ht0 & _ & Hiff & _).
  assert (evs0 = evs) as -> by (rewrite Ht0 in Ht; eapply app_inv_head, Ht).
  apply Hiff in Hfail. subst r.
  destruct (run_failure_inv _ _ _ _ _ _ Hready Hrun) as (evs1 & ex & Ht1 & Hlast & Hh).
  assert (evs1 = evs) as -> by (rewrite Ht1 in Ht; eapply app_inv_head, Ht).
  destruct (run_keeps_ready _ _ _ _ _ _ _ Hready Hrun) as (Hready' & _ & _).
  conjs; try assumption; try reflexivity; [eauto|].
  intros env' e ins outs arrays Hdev He Hins Houts Hlen Hvalid.
  eapply run_succeeds; eassumption.
Qed.

(** A call whose submission raises, on the small installation. *)
Lemma device_failure_is_caught_witness :
  (run_sequential_tasks Demo.failing_submit Demo.manager "feature_extractor"
     (InList [Demo.x_ok; Demo.y_ok]) Demo.world).1
  = inr (VTuple [VNone; VInt 0]).
Proof.
  refine (proj1 (device_failure_is_caught Demo.failing_submit Demo.manager
                   "feature_extractor" (InList [Demo.x_ok; Demo.y_ok])
                   Demo.world _
                   (run_sequential_tasks Demo.failing_submit Demo.manager
                      "feature_extractor" (InList [Demo.x_ok; Demo.y_ok])
                      Demo.world).2
                   [EvMemcpyHtoD 1 Demo.x_ok; EvMemcpyHtoD 2 Demo.y_ok;
                    EvSetTensorAddress 0 "x" 1; EvSetTensorAddress 0 "y" 2;
                    EvSetTensorAddress 0 "out" 3; EvExecuteAsync 0 true;
                    EvPrint "feature_extractor"
                      (RuntimeError (msg_foreign "enqueue failed"))]
                   demo_manager_ready _ _ _)).
  - apply surjective_pairing.
  - vm_compute. reflexivity.
  - reflexivity.
Defined.

(** C10.  A call returns the pair [(None, 0)] exactly when the submission
    or the synchronization raised in it, and every other call that returns
    gives a list of arrays.  The pair is never equal to such a list, be the
    list empty: a tuple and a list differ, as values and under [==]. *)
Theorem no_result_exactly_on_device_failure env self m inputs_arg w r w' evs :
  ready self w ->
  run_sequential_tasks env self m inputs_arg w = (r, w') ->
  trace w' = trace w ++ evs ->
  (r = inr (VTuple [VNone; VInt 0]) <-> existsb is_device_failure evs = true) /\
  (forall v,
     r = inr v -> existsb is_device_failure evs = false ->
     exists arrays, v = VList (VArray <$> arrays)) /\
  (forall items,
     VTuple [VNone; VInt 0] <> VList items /\
     py_eq (VTuple [VNone; VInt 0]) (VList items) = false /\
     py_eq (VList items) (VTuple [VNone; VInt 0]) = false).
Proof.
  intros Hready Hrun Ht.
  destruct (run_events _ _ _ _ _ _ _ Hready Hrun) as (evs0 & Ht0 & _ & Hiff & _).
  assert (evs0 = evs) as -> by (rewrite Ht0 in Ht; eapply app_inv_head, Ht).
  split; [symmetry; exact Hiff|]. split.
  - intros v -> Hnone.
    destruct (run_value_inv _ _ _ _ _ _ _ Hready Hrun) as [->|Hlist];
      [|exact Hlist].
    destruct Hiff as [_ Hback]. rewrite Hback in Hnone by reflexivity.
    discriminate.
  - intros items. repeat split. discriminate.
Qed.

(** A call whose synchronization raises, on the small installation. *)
Lemma no_result_exactly_on_device_failure_witness :
  (run_sequential_tasks Demo.failing_sync Demo.manager "feature_extractor"
     (InList [Demo.x_ok; Demo.y_ok]) Demo.world).1
  = inr (VTuple [VNone; VInt 0])
  <-> existsb is_device_failure
        [EvMemcpyHtoD 1 Demo.x_ok; EvMemcpyHtoD 2 Demo.y_ok;
         EvSetTensorAddress 0 "x" 1; EvSetTensorAddress 0 "y" 2;
         EvSetTensorAddress 0 "out" 3; EvExecuteAsync 0 false;
         EvSynchronize true;
         EvPrint "feature_extractor"
           (RuntimeError (msg_foreign "launch failed"))] = true.
Proof.
  refine (proj1 (no_result_exactly_on_device_failure Demo.failing_sync
                   Demo.manager "feature_extractor"
                   (InList [Demo.x_ok; Demo.y_ok]) Demo.world _
                   (run_sequential_tasks Demo.failing_sync Demo.manager
                      "feature_extractor" (InList [Demo.x_ok; Demo.y_ok])
                      Demo.world).2 _
                   demo_manager_ready _ _)).
  - apply surjective_pairing.
  - vm_compute. reflexivity.
Defined.

(** ** The outputs of a call *)

Lemma fetched_lookup h mem refs :
  forall addr j r,
    refs !! j = Some r ->
    fetched h mem addr refs !! j
    = Some (output_array h mem (addr + Z.of_nat j) r).
Proof.
  induction refs as [|r0 refs IH]; intros addr [|j] r Hj; try discriminate.
  - injection Hj as ->. cbn. rewrite Z.add_0_r. reflexivity.
  - cbn in Hj |- *. rewrite (IH _ _ _ Hj). do 2 f_equal. lia.
Qed.

Lemma fetched_length h mem refs :
  forall addr, length (fetched h mem addr refs) = length refs.
Proof.
  induction refs as [|r refs IH]; intros addr; cbn; [reflexivity|].
  f_equal. apply IH.
Qed.

Lemma fetched_range h mem refs :
  forall addr a,
    In a (fetched h mem addr refs) ->
    addr <= np.ctypes_data a < addr + Z.of_nat (length refs).
Proof.
  induction refs as [|r refs IH]; intros addr a Ha; [destruct Ha|].
  cbn [fetched length] in *. destruct Ha as [<-|Ha].
  - cbn. lia.
  - apply IH in Ha. lia.
Qed.

Lemma fetched_NoDup h mem refs :
  forall addr, NoDup (np.ctypes_data <$> fetched h mem addr refs).
Proof.
  induction refs as [|r refs IH]; intros addr; cbn; constructor; [|apply IH].
  rewrite list_elem_of_In, in_map_iff. intros (a & Ha & Hin).
  apply fetched_range in Hin. cbn in Ha. lia.
Qed.

Lemma fetches_lookup h refs :
  forall addr j r,
    refs !! j = Some r ->
    fetches h addr refs !! j
    = Some (EvMemcpyDtoH (addr + Z.of_nat j) (device_ptr h r)).
Proof.
  induction refs as [|r0 refs IH]; intros addr [|j] r Hj; try discriminate.
  - injection Hj as ->. cbn. rewrite Z.add_0_r. reflexivity.
  - cbn in Hj |- *. rewrite (IH _ _ _ Hj). do 2 f_equal. lia.
Qed.

Lemma filter_map_Forall2 {A B C} (R : A -> B -> Prop) (f : A -> bool)
    (g : B -> bool) (na : A -> C) (nb : B -> C) (l : list A) (k : list B) :
  Forall2 R l k ->
  (forall x y, R x y -> f x = g y /\ na x = nb y) ->
  na <$> List.filter f l = nb <$> List.filter g k /\
  length (List.filter f l) = length (List.filter g k).
Proof.
  intros H HR. induction H as [|x y l k Hxy _ IH]; [split; reflexivity|].
  destruct (HR x y Hxy) as [Hfg Hn]. destruct IH as [IH1 IH2].
  cbn. rewrite Hfg. destruct (g y); cbn; [|auto].
  rewrite Hn, IH1, IH2. auto.
Qed.

(** The bindings of a model follow the tensors of its engine. *)
Lemma bindings_follow_tensors h e bs :
  length bs = trt.num_io_tensors e ->
  (forall i r, bs !! i = Some r -> describes h e i r) ->
  Forall2 (fun r t => ref_is_input h r = reported_input e t /\
                      ref_name h r = trt.tensor_name t)
          bs (trt.io_tensors e).
Proof.
  intros Hlen Hdesc. apply Forall2_same_length_lookup_2; [exact Hlen|].
  intros i r t Hr Ht.
  destruct (Hdesc i r Hr) as (b & n & Hb & Hn & Hname & Hin & _).
  rewrite (get_tensor_name_lookup _ _ _ Ht) in Hn. injection Hn as <-.
  unfold ref_is_input, ref_name, reported_input. rewrite Hb. cbn. auto.
Qed.

(** A call that returns a list has passed validation and taken the last
    path. *)
Lemma run_done_inv env self m e inputs_arg w items w' :
  ready self w ->
  engines self !! m = Some e ->
  run_sequential_tasks env self m inputs_arg w = (inr (VList items), w') ->
  exists bs addr evs,
    bindings self !! m = Some bs /\
    outputs self !! m = Some (output_refs (heap w) bs) /\
    Forall (binding_ready (heap w)) bs /\
    (forall i r, bs !! i = Some r -> describes (heap w) e i r) /\
    length bs = trt.num_io_tensors e /\
    items
    = VArray <$> fetched (heap w) (device_mem w') addr
                   (output_refs (heap w) bs) /\
    next_addr w <= addr /\
    next_addr w' = addr + Z.of_nat (length (output_refs (heap w) bs)) /\
    trace w' = trace w ++ evs ++ fetches (heap w) addr (output_refs (heap w) bs) /\
    heap w' = heap w.
Proof.
  intros Hready He Hrun.
  destruct (run_path_of_ready env self m e inputs_arg w Hready He)
    as (c & ctx & bs & _ & _ & _ & Hbs & _ & Houts & Hrb & Hdesc & Hlen & Hpath).
  rewrite Hrun in Hpath. inversion Hpath; subst.
  exists bs, (next_addr w1), (evs ++ binds e c (device_ptr (heap w) <$> bs) l
                               ++ [EvExecuteAsync c false; EvSynchronize false]).
  conjs; try assumption; try reflexivity.
  match goal with H : trace w' = _ |- _ => rewrite H end.
  rewrite <- !app_assoc. reflexivity.
Qed.

(** C7.  A call that returns a list returns one array per output binding of
    the model, in the order of the output tensors of the engine; each array
    has the shape and type of its binding and the elements found in the
    device buffer of the binding, brought by a device-to-host copy of this
    call; each array lies at an address that was not allocated before the
    call, distinct from the addresses of the other arrays and from every
    host or device buffer of every binding. *)
Theorem outputs_are_fresh_copies env self m e inputs_arg w items w' evs :
  ready self w ->
  engines self !! m = Some e ->
  run_sequential_tasks env self m inputs_arg w = (inr (VList items), w') ->
  trace w' = trace w ++ evs ->
  exists bs arrays,
    bindings self !! m = Some bs /\
    outputs self !! m = Some (output_refs (heap w) bs) /\
    items = VArray <$> arrays /\
    Forall2 (delivers w w' evs) (output_refs (heap w) bs) arrays /\
    ref_name (heap w) <$> output_refs (heap w) bs
    = trt.tensor_name
        <$> List.filter (fun t => negb (reported_input e t)) (trt.io_tensors e) /\
    Forall (fun a =>
              next_addr w <= np.ctypes_data a < next_addr w' /\
              forall r b buf,
                heap w' !! r = Some b ->
                _host_buf b = Some buf \/ _device_buf b = Some buf ->
                ptr buf <> np.ctypes_data a) arrays /\
    NoDup (np.ctypes_data <$> arrays).
Proof.
  intros Hready He Hrun Ht.
  destruct (run_done_inv _ _ _ _ _ _ _ _ Hready He Hrun)
    as (bs & addr & evs0 & Hbs & Houts & Hrb & Hdesc & Hlen & -> & Haddr & Hnext
          & Ht0 & Hh).
  assert (evs = evs0 ++ fetches (heap w) addr (output_refs (heap w) bs)) as ->
    by (rewrite Ht0 in Ht; symmetry; eapply app_inv_head, Ht).
  exists bs, (fetched (heap w) (device_mem w') addr (output_refs (heap w) bs)).
  conjs; try assumption; try reflexivity.
  - apply Forall2_same_length_lookup_2; [symmetry; apply fetched_length|].
    intros j r a Hr Ha.
    rewrite (fetched_lookup _ _ _ _ _ _ Hr) in Ha. injection Ha as <-.
    assert (Hin : In r (output_refs (heap w) bs)).
    { apply list_elem_of_In. eapply list_elem_of_lookup_2, Hr. }
    apply filter_In in Hin as [Hin Hout].
    rewrite List.Forall_forall in Hrb.
    destruct (Hrb r Hin) as (b & buf & Hb & Hbuf & _ & _).
    exists b, buf. unfold output_array, ref_dtype, ref_shape.
    rewrite (binding_ready_ptr _ _ _ _ Hb Hbuf), Hb. cbn.
    conjs; try reflexivity; try assumption.
    + unfold ref_is_input in Hout. rewrite Hb in Hout. cbn in Hout.
      destruct (is_input b); [discriminate | reflexivity].
    + apply in_or_app. right.
      eapply list_elem_of_In, list_elem_of_lookup_2.
      rewrite (fetches_lookup _ _ _ _ _ Hr).
      rewrite (binding_ready_ptr _ _ _ _ Hb Hbuf). reflexivity.
  - eapply (filter_map_Forall2 _ (fun r => negb (ref_is_input (heap w) r))
              (fun t => negb (reported_input e t)));
      [apply (bindings_follow_tensors _ _ _ Hlen Hdesc)|].
    intros r t [-> ->]. auto.
  - apply List.Forall_forall. intros a Ha. apply fetched_range in Ha.
    split; [lia|]. intros r b buf Hb Hbuf. rewrite Hh in Hb.
    destruct Hready as (_ & _ & Hok). destruct (Hok r b Hb) as [Hhost Hdev].
    destruct Hbuf as [Hbuf|Hbuf]; [congruence|].
    destruct (Hdev buf Hbuf) as [_ Hlt]. lia.
  - apply fetched_NoDup.
Qed.

(** A call on the small installation: one output, at a new address. *)
Lemma outputs_are_fresh_copies_witness :
  exists bs arrays,
    bindings Demo.manager !! "feature_extractor" = Some bs /\
    outputs Demo.manager !! "feature_extractor"
    = Some (output_refs (heap Demo.world) bs) /\
    [VArray (np.mk_ndarray 18 np.float32 [2] [0; 0])] = VArray <$> arrays /\
    Forall2 (delivers Demo.world
               (run_sequential_tasks Demo.healthy Demo.manager
                  "feature_extractor" (InList [Demo.x_ok; Demo.y_ok])
                  Demo.world).2
               [EvMemcpyHtoD 1 Demo.x_ok; EvMemcpyHtoD 2 Demo.y_ok;
                EvSetTensorAddress 0 "x" 1; EvSetTensorAddress 0 "y" 2;
                EvSetTensorAddress 0 "out" 3; EvExecuteAsync 0 false;
                EvSynchronize false; EvMemcpyDtoH 18 3])
            (output_refs (heap Demo.world) bs) arrays /\
    ref_name (heap Demo.world) <$> output_refs (heap Demo.world) bs
    = trt.tensor_name
        <$> List.filter (fun t => negb (reported_input Demo.pair_engine t))
              (trt.io_tensors Demo.pair_engine) /\
    Forall (fun a =>
              next_addr Demo.world <= np.ctypes_data a
              < next_addr (run_sequential_tasks Demo.healthy Demo.manager
                             "feature_extractor"
                             (InList [Demo.x_ok; Demo.y_ok]) Demo.world).2 /\
              forall r b buf,
                heap (run_sequential_tasks Demo.healthy Demo.manager
                        "feature_extractor" (InList [Demo.x_ok; Demo.y_ok])
                        Demo.world).2 !! r = Some b ->
                _host_buf b = Some buf \/ _device_buf b = Some buf ->
                ptr buf <> np.ctypes_data a) arrays /\
    NoDup (np.ctypes_data <$> arrays).
Proof.
  refine (outputs_are_fresh_copies Demo.healthy Demo.manager
            "feature_extractor" Demo.pair_engine
            (InList [Demo.x_ok; Demo.y_ok]) Demo.world _ _ _
            demo_manager_ready _ _ _).
  - vm_compute. reflexivity.
  - vm_compute. reflexivity.
  - vm_compute. reflexivity.
Defined.

(** ** The address table of a call *)

Lemma rebound_table_other e l addrs idxs :
  forall table n,
    n ∉ (name_at e <$> idxs) ->
    rebound_table e l addrs idxs table !! n = table !! n.
Proof.
  induction idxs as [|i idxs IH]; intros table n Hn; [reflexivity|].
  cbn in Hn. apply not_elem_of_cons in Hn as [Hne Hn].
  unfold rebound_table in *. cbn [fold_left].
  rewrite IH by exact Hn. apply lookup_insert_ne. congruence.
Qed.

Lemma rebound_table_lookup e l addrs idxs :
  forall table i,
    NoDup (name_at e <$> idxs) ->
    i ∈ idxs ->
    rebound_table e l addrs idxs table !! name_at e i
    = Some (address_at e l addrs i).
Proof.
  induction idxs as [|j idxs IH]; intros table i Hnd Hi.
  - apply elem_of_nil in Hi. destruct Hi.
  - cbn in Hnd. apply NoDup_cons in Hnd as [Hj Hnd].
    unfold rebound_table in *. cbn [fold_left].
    destruct (decide (i ∈ idxs)) as [Hin|Hout].
    + apply IH; assumption.
    + apply elem_of_cons in Hi as [->|Hin]; [|contradiction].
      fold (rebound_table e l addrs idxs
              (<[name_at e j := address_at e l addrs j]> table)).
      rewrite rebound_table_other by exact Hj.
      apply lookup_insert_eq.
Qed.

Lemma names_of_seq e :
  name_at e <$> seq 0 (trt.num_io_tensors e)
  = trt.tensor_name <$> trt.io_tensors e.
Proof.
  apply list_eq. intros i. rewrite !list_lookup_fmap.
  destruct (trt.io_tensors e !! i) as [t|] eqn:Ht.
  - assert (Hi : seq 0 (trt.num_io_tensors e) !! i = Some i).
    { apply lookup_seq. split; [reflexivity|]. eapply lookup_lt_Some, Ht. }
    rewrite Hi. cbn. f_equal. apply name_at_lookup, Ht.
  - apply lookup_ge_None in Ht.
    rewrite (proj2 (lookup_ge_None (seq 0 (trt.num_io_tensors e)) i));
      [reflexivity|].
    rewrite length_seq. exact Ht.
Qed.

(** With distinct names, a query by name finds the tensor itself. *)
Lemma find_tensor_lookup e i t :
  NoDup (trt.tensor_name <$> trt.io_tensors e) ->
  trt.io_tensors e !! i = Some t ->
  trt.find_tensor e (trt.tensor_name t) = Some t.
Proof.
  unfold trt.find_tensor. generalize (trt.io_tensors e) as ts.
  intros ts. revert i. induction ts as [|t0 ts IH]; intros i Hnd Hi;
    [discriminate|].
  cbn in Hnd. apply NoDup_cons in Hnd as [Hfirst Hnd]. cbn.
  destruct i as [|i].
  - injection Hi as ->. rewrite String.eqb_refl. reflexivity.
  - cbn in Hi. destruct (String.eqb (trt.tensor_name t0) (trt.tensor_name t)) eqn:E.
    + apply String.eqb_eq in E. exfalso. apply Hfirst. rewrite E.
      apply list_elem_of_fmap. exists t. split; [reflexivity|].
      eapply list_elem_of_lookup_2, Hi.
    + eapply IH; eassumption.
Qed.

(** A call that returns has bound every tensor, then submitted. *)
Lemma run_bound_inv env self m e inputs_arg w v w' :
  ready self w ->
  engines self !! m = Some e ->
  run_sequential_tasks env self m inputs_arg w = (inr v, w') ->
  exists c ctx bs l evs raised rest,
    contexts self !! m = Some c /\ bindings self !! m = Some bs /\
    context_heap w !! c = Some ctx /\ context_engine ctx = e /\
    length bs = trt.num_io_tensors e /\
    (forall i r, bs !! i = Some r -> describes (heap w) e i r) /\
    resolve (heap w) (input_refs (heap w) bs) inputs_arg = inr l /\
    length l = length (input_refs (heap w) bs) /\
    Forall2 (copy_of (heap w)) (zip l (input_refs (heap w) bs)) evs /\
    trace w' = trace w ++ evs ++ binds e c (device_ptr (heap w) <$> bs) l
               ++ EvExecuteAsync c raised :: rest /\
    context_heap w'
    = <[c := bound_context e ctx (device_ptr (heap w) <$> bs) l]>
        (context_heap w).
Proof.
  intros Hready He Hrun.
  destruct (run_path_of_ready env self m e inputs_arg w Hready He)
    as (c & ctx & bs & Hc & Hctx & Hce & Hbs & _ & _ & _ & Hdesc & Hlen & Hpath).
  rewrite Hrun in Hpath. inversion Hpath; subst.
  - exists c, ctx, bs, l, evs, at_submission.
    destruct at_submission; eexists; conjs; try eassumption; try reflexivity.
  - exists c, ctx, bs, l, evs, false.
    eexists; conjs; try eassumption; try reflexivity.
Qed.

Lemma filter_prefix_length {A} (f : A -> bool) (l : list A) :
  forall n,
    (forall i x, l !! i = Some x -> f x = Nat.ltb i n) ->
    length (List.filter f l) = Nat.min n (length l).
Proof.
  induction l as [|x l IH]; intros n H; [cbn; lia|].
  cbn. rewrite (H 0%nat x eq_refl). destruct n as [|n]; cbn.
  - apply (IH 0%nat). intros i y Hy. rewrite (H (S i) y Hy). reflexivity.
  - f_equal. apply IH. intros i y Hy. rewrite (H (S i) y Hy). reflexivity.
Qed.

Lemma reported_input_eq e t :
  NoDup (trt.tensor_name <$> trt.io_tensors e) ->
  In t (trt.io_tensors e) ->
  reported_input e t = is_input_tensor t.
Proof.
  intros Hnd Hin. apply list_elem_of_In, list_elem_of_lookup in Hin as [i Hi].
  unfold reported_input, is_input_tensor, trt.get_tensor_mode.
  rewrite (find_tensor_lookup _ _ _ Hnd Hi). reflexivity.
Qed.

(** The address table of a call, as the loop over the tensors builds it.
    In every call that passes validation the address of every I/O tensor of
    the engine is set before the execution is submitted, and the table then
    holds, for the tensor of index [i]: the raw address of the [i]-th
    supplied array when [i] is below the number of supplied arrays and the
    tensor is a shape-inference tensor, and the address of the device buffer
    of its binding otherwise.  Only for an engine that lists its inputs
    first is this the rule of [claimed_address]. *)
Theorem address_table_follows_tensor_index
    env self m e c bs inputs_arg w v w' :
  ready self w ->
  engines self !! m = Some e ->
  contexts self !! m = Some c ->
  bindings self !! m = Some bs ->
  NoDup (trt.tensor_name <$> trt.io_tensors e) ->
  run_sequential_tasks env self m inputs_arg w = (inr v, w') ->
  exists l evs raised rest ctx',
    resolve (heap w) (input_refs (heap w) bs) inputs_arg = inr l /\
    Forall2 (copy_of (heap w)) (zip l (input_refs (heap w) bs)) evs /\
    trace w' = trace w ++ evs ++ binds e c (device_ptr (heap w) <$> bs) l
               ++ EvExecuteAsync c raised :: rest /\
    context_heap w' !! c = Some ctx' /\ context_engine ctx' = e /\
    (forall i t r,
       trt.io_tensors e !! i = Some t -> bs !! i = Some r ->
       tensor_addresses ctx' !! trt.tensor_name t
       = indexed_address l (heap w) r i t) /\
    (inputs_first e ->
     forall i t r,
       trt.io_tensors e !! i = Some t -> bs !! i = Some r ->
       tensor_addresses ctx' !! trt.tensor_name t
       = claimed_address e l (heap w) r i t).
Proof.
  intros Hready He Hc Hbs Hnd Hrun.
  destruct (run_bound_inv _ _ _ _ _ _ _ _ Hready He Hrun)
    as (c0 & ctx & bs0 & l & evs & raised & rest & Hc0 & Hbs0 & Hctx & Hce
          & Hlen & Hdesc & Hres & Hll & Hev & Ht & Hch).
  assert (c0 = c) as -> by congruence.
  assert (bs0 = bs) as -> by congruence.
  exists l, evs, raised, rest,
    (bound_context e ctx (device_ptr (heap w) <$> bs) l).
  assert (Hindexed : forall i t r,
    trt.io_tensors e !! i = Some t -> bs !! i = Some r ->
    tensor_addresses (bound_context e ctx (device_ptr (heap w) <$> bs) l)
      !! trt.tensor_name t
    = indexed_address l (heap w) r i t).
  { intros i t r Hti Hri. unfold bound_context. cbn [tensor_addresses].
    rewrite <- (name_at_lookup _ _ _ Hti).
    rewrite rebound_table_lookup.
    - unfold address_at, indexed_address.
      rewrite (name_at_lookup _ _ _ Hti).
      unfold trt.is_shape_inference_io.
      rewrite (find_tensor_lookup _ _ _ Hnd Hti). cbn [from_option].
      destruct (Nat.ltb i (length l) && trt.shape_inference_io t) eqn:Hsel.
      + apply andb_true_iff in Hsel as [Hlt _]. apply Nat.ltb_lt in Hlt.
        destruct (lookup_lt_is_Some_2 l i Hlt) as [a ->]. reflexivity.
      + rewrite list_lookup_fmap, Hri. reflexivity.
    - rewrite names_of_seq. exact Hnd.
    - apply list_elem_of_In, in_seq. split; [lia|].
      cbn. eapply lookup_lt_Some, Hti. }
  conjs; try assumption.
  - rewrite Hch. apply list_lookup_insert_eq. eapply lookup_lt_Some, Hctx.
  - intros [n Hfirst] i t r Hti Hri.
    rewrite (Hindexed i t r Hti Hri).
    unfold indexed_address, claimed_address.
    (* the number of supplied arrays is the number of input tensors *)
    assert (Hcount : length l = Nat.min n (length (trt.io_tensors e))).
    { rewrite Hll. unfold input_refs.
      rewrite <- (filter_prefix_length is_input_tensor _ n Hfirst).
      rewrite <- (List.filter_ext_in (reported_input e) is_input_tensor
                    (trt.io_tensors e) (fun t0 => reported_input_eq e t0 Hnd)).
      eapply (filter_map_Forall2 _ _ _ (fun _ => tt) (fun _ => tt));
        [apply (bindings_follow_tensors _ _ _ Hlen Hdesc)|].
      intros r0 t0 [-> _]. split; reflexivity. }
    assert (Hi : (i < length (trt.io_tensors e))%nat)
      by (eapply lookup_lt_Some, Hti).
    rewrite (Hfirst i t Hti).
    destruct (Nat.ltb i n) eqn:Hin.
    + apply Nat.ltb_lt in Hin.
      assert (Hlt : Nat.ltb i (length l) = true)
        by (apply Nat.ltb_lt; lia).
      rewrite Hlt. cbn [andb].
      destruct (trt.shape_inference_io t); [|reflexivity].
      unfold input_position.
      rewrite (filter_prefix_length is_input_tensor _ n).
      * rewrite length_take. do 2 f_equal. lia.
      * intros j x Hj. apply lookup_take_Some in Hj as [Hj _].
        apply Hfirst, Hj.
    + apply Nat.ltb_ge in Hin.
      assert (Hge : Nat.ltb i (length l) = false)
        by (apply Nat.ltb_ge; lia).
      rewrite Hge. reflexivity.
Qed.

(** A call on the first model of the small installation, whose engine lists
    its inputs first. *)
Lemma address_table_follows_tensor_index_witness :
  exists l evs raised rest ctx',
    resolve (heap Demo.world) (input_refs (heap Demo.world) [0; 1; 2]%nat)
            (InList [Demo.x_ok; Demo.y_ok]) = inr l /\
    Forall2 (copy_of (heap Demo.world))
            (zip l (input_refs (heap Demo.world) [0; 1; 2]%nat)) evs /\
    trace (run_sequential_tasks Demo.healthy Demo.manager "feature_extractor"
             (InList [Demo.x_ok; Demo.y_ok]) Demo.world).2
    = trace Demo.world ++ evs
      ++ binds Demo.pair_engine 0
           (device_ptr (heap Demo.world) <$> [0; 1; 2]%nat) l
      ++ EvExecuteAsync 0 raised :: rest /\
    context_heap (run_sequential_tasks Demo.healthy Demo.manager
                    "feature_extractor" (InList [Demo.x_ok; Demo.y_ok])
                    Demo.world).2 !! 0%nat = Some ctx' /\
    context_engine ctx' = Demo.pair_engine /\
    (forall i t r,
       trt.io_tensors Demo.pair_engine !! i = Some t ->
       [0; 1; 2]%nat !! i = Some r ->
       tensor_addresses ctx' !! trt.tensor_name t
       = indexed_address l (heap Demo.world) r i t) /\
    (inputs_first Demo.pair_engine ->
     forall i t r,
       trt.io_tensors Demo.pair_engine !! i = Some t ->
       [0; 1; 2]%nat !! i = Some r ->
       tensor_addresses ctx' !! trt.tensor_name t
       = claimed_address Demo.pair_engine l (heap Demo.world) r i t).
Proof.
  refine (address_table_follows_tensor_index Demo.healthy Demo.manager
            "feature_extractor" Demo.pair_engine 0 [0; 1; 2]%nat
            (InList [Demo.x_ok; Demo.y_ok]) Demo.world
            (VList [VArray (np.mk_ndarray 18 np.float32 [2] [0; 0])])
            (run_sequential_tasks Demo.healthy Demo.manager
               "feature_extractor" (InList [Demo.x_ok; Demo.y_ok])
               Demo.world).2
            demo_manager_ready _ _ _ _ _).
  - vm_compute. reflexivity.
  - vm_compute. reflexivity.
  - vm_compute. reflexivity.
  - apply (bool_decide_unpack _). vm_compute. reflexivity.
  - vm_compute. reflexivity.
Defined.

(** C8.  The loop over the tensors takes the index of a tensor for the
    position of an input array: it tests [i < len(inputs)] and reads
    [inputs[i]] with the index [i] of the tensor.  So the rule of the claim
    fails as soon as the inputs of the engine do not come first.

    On the engine that lists its output ["out"] before its shape input
    ["s"], the call with the array for ["s"] passes validation and returns
    its output, and ["s"] has been bound to its device buffer (address 11),
    not to the supplied array (address 1002).

    On the engine that has the output shape tensor ["o"] between its inputs
    ["a"] and ["b"], the call with both arrays passes validation and returns
    its output, and the output ["o"] has been bound, before the execution
    was submitted, to the array supplied for the input ["b"] (address 3000)
    instead of its device buffer (address 5), from which the result is then
    read. *)
Theorem tensor_index_is_taken_for_input_position :
  (exists v w' ctx',
     run_sequential_tasks Demo.healthy Demo.manager "stitching_retargeting"
       (InList [Demo.s_ok]) Demo.world = (inr v, w') /\
     engines Demo.manager !! "stitching_retargeting" = Some Demo.shape_engine /\
     trt.io_tensors Demo.shape_engine
     = [trt.mk_tensor "out" trt.OUTPUT trt.FLOAT [2] false;
        trt.mk_tensor "s" trt.INPUT trt.INT32 [1] true] /\
     bindings Demo.manager !! "stitching_retargeting" = Some [9; 10]%nat /\
     contexts Demo.manager !! "stitching_retargeting" = Some 3%nat /\
     context_heap w' !! 3%nat = Some ctx' /\
     tensor_addresses ctx' !! "s" = Some (device_ptr (heap Demo.world) 10) /\
     device_ptr (heap Demo.world) 10 = 11 /\
     claimed_address Demo.shape_engine [Demo.s_ok] (heap Demo.world) 10 1
       (trt.mk_tensor "s" trt.INPUT trt.INT32 [1] true)
     = Some (np.ctypes_data Demo.s_ok) /\
     np.ctypes_data Demo.s_ok = 1002) /\
  (exists v w' ctx',
     run_sequential_tasks mixed_device mixed_manager "motion_extractor"
       (InList [a_in; b_in]) mixed_world = (inr v, w') /\
     engines mixed_manager !! "motion_extractor" = Some mixed_engine /\
     bindings mixed_manager !! "motion_extractor" = Some [3; 4; 5]%nat /\
     contexts mixed_manager !! "motion_extractor" = Some 1%nat /\
     context_heap w' !! 1%nat = Some ctx' /\
     tensor_addresses ctx' !! "o" = Some (np.ctypes_data b_in) /\
     tensor_addresses ctx' !! "b" = Some (device_ptr (heap mixed_world) 5) /\
     claimed_address mixed_engine [a_in; b_in] (heap mixed_world) 4 1
       (trt.mk_tensor "o" trt.OUTPUT trt.INT32 [1] true)
     = Some (device_ptr (heap mixed_world) 4) /\
     device_ptr (heap mixed_world) 4 = 5 /\
     np.ctypes_data b_in = 3000 /\
     trace w'
     = trace mixed_world
       ++ [EvMemcpyHtoD 4 a_in; EvMemcpyHtoD 6 b_in;
           EvSetTensorAddress 1 "a" 4; EvSetTensorAddress 1 "o" 3000;
           EvSetTensorAddress 1 "b" 6;
           EvExecuteAsync 1 false; EvSynchronize false;
           EvMemcpyDtoH 18 5]).
Proof.
  split.
  - eexists _, _, _. split; [vm_compute; reflexivity|].
    conjs; vm_compute; reflexivity.
  - eexists _, _, _. split; [vm_compute; reflexivity|].
    conjs; vm_compute; reflexivity.
Qed.

(** * Further properties *)

(** ** The buffers of a binding *)

(** X1.  The [device_buffer] property allocates on first access only: when
    the binding has no device buffer it makes one of shape volume times
    element size bytes at a new address and stores it in the binding; when
    it has one it returns that one and changes nothing.  Either way a second
    access returns the same buffer and changes nothing. *)
Theorem device_buffer_is_allocated_once r b w :
  heap w !! r = Some b ->
  exists buf w1,
    device_buffer r w = (inr buf, w1) /\
    heap w1 = <[r := with_device b buf]> (heap w) /\
    device_buffer r w1 = (inr buf, w1) /\
    match _device_buf b with
    | Some old => buf = old /\ w1 = w
    | None =>
        buf = mk_buffer (next_addr w)
                (np.volume (shape b) * np.itemsize (dtype b)) /\
        next_addr w1 = next_addr w + 1 /\
        trace w1 = trace w ++ [EvDeviceAlloc buf] /\
        device_mem w1
        = <[ptr buf := replicate (Z.to_nat (np.volume (shape b))) 0]>
            (device_mem w)
    end.
Proof.
  intros Hb.
  assert (Hlt : (r < length (heap w))%nat) by (eapply lookup_lt_Some, Hb).
  unfold device_buffer at 1.
  rewrite (bind_returns _ _ _ _ _ (deref_some _ _ _ Hb)).
  destruct (_device_buf b) as [old|] eqn:Hold.
  - exists old, w. split; [reflexivity|].
    assert (Hsame : with_device b old = b)
      by (destruct b; unfold with_device; cbn in *; congruence).
    split; [rewrite Hsame; symmetry; apply list_insert_id, Hb|].
    split; [apply (device_buffer_cached r b old w Hb Hold) | auto].
  - eexists _, _. split; [unfold gpuarray_empty; py_unfold; cbn; reflexivity|].
    cbn. split; [reflexivity|].
    split; [|repeat split].
    apply device_buffer_cached
      with (b := with_device b (mk_buffer (next_addr w)
                                  (np.nbytes (shape b) (dtype b))));
      [|reflexivity].
    cbn. apply list_lookup_insert_eq. exact Hlt.
Qed.

(** A binding without buffers. *)
Lemma device_buffer_is_allocated_once_witness :
  exists buf w1,
    device_buffer 0 lone_world = (inr buf, w1) /\
    heap w1 = <[0%nat := with_device lone_binding buf]> (heap lone_world) /\
    device_buffer 0 w1 = (inr buf, w1) /\
    buf = mk_buffer 0 24 /\
    next_addr w1 = 1 /\
    trace w1 = [EvDeviceAlloc buf] /\
    device_mem w1 = <[ptr buf := [0; 0; 0; 0; 0; 0]]> ∅.
Proof.
  exact (device_buffer_is_allocated_once 0 lone_binding lone_world eq_refl).
Defined.

(** X2.  The [host_buffer] property allocates on first access only: pinned
    memory of shape volume times element size bytes, stored in the binding;
    later accesses return the same buffer and change nothing.  The device
    buffer of the binding is not touched. *)
Theorem host_buffer_is_allocated_once r b w :
  heap w !! r = Some b ->
  exists buf w1,
    host_buffer r w = (inr buf, w1) /\
    heap w1 = <[r := with_host b buf]> (heap w) /\
    device_mem w1 = device_mem w /\
    host_buffer r w1 = (inr buf, w1) /\
    match _host_buf b with
    | Some old => buf = old /\ w1 = w
    | None =>
        buf = mk_buffer (next_addr w)
                (np.volume (shape b) * np.itemsize (dtype b)) /\
        next_addr w1 = next_addr w + 1 /\
        trace w1 = trace w ++ [EvPagelockedAlloc buf]
    end.
Proof.
  intros Hb.
  assert (Hlt : (r < length (heap w))%nat) by (eapply lookup_lt_Some, Hb).
  assert (Hcached : forall b0 buf0 w0,
            heap w0 !! r = Some b0 -> _host_buf b0 = Some buf0 ->
            host_buffer r w0 = (inr buf0, w0)).
  { intros b0 buf0 w0 H0 H1. unfold host_buffer.
    rewrite (bind_returns _ _ _ _ _ (deref_some _ _ _ H0)), H1. reflexivity. }
  unfold host_buffer at 1.
  rewrite (bind_returns _ _ _ _ _ (deref_some _ _ _ Hb)).
  destruct (_host_buf b) as [old|] eqn:Hold.
  - exists old, w. split; [reflexivity|].
    assert (Hsame : with_host b old = b)
      by (destruct b; unfold with_host; cbn in *; congruence).
    split; [rewrite Hsame; symmetry; apply list_insert_id, Hb|].
    split; [reflexivity|].
    split; [apply (Hcached b old w Hb Hold) | auto].
  - eexists _, _.
    split; [unfold cuda_pagelocked_empty; py_unfold; cbn; reflexivity|].
    cbn. split; [reflexivity|]. split; [reflexivity|].
    split; [|repeat split].
    apply Hcached
      with (b0 := with_host b (mk_buffer (next_addr w)
                                 (np.nbytes (shape b) (dtype b))));
      [|reflexivity].
    cbn. apply list_lookup_insert_eq. exact Hlt.
Qed.

(** A binding without buffers. *)
Lemma host_buffer_is_allocated_once_witness :
  exists buf w1,
    host_buffer 0 lone_world = (inr buf, w1) /\
    heap w1 = <[0%nat := with_host lone_binding buf]> (heap lone_world) /\
    device_mem w1 = device_mem lone_world /\
    host_buffer 0 w1 = (inr buf, w1) /\
    buf = mk_buffer 0 24 /\
    next_addr w1 = 1 /\
    trace w1 = [EvPagelockedAlloc buf].
Proof.
  exact (host_buffer_is_allocated_once 0 lone_binding lone_world eq_refl).
Defined.

Lemma device_buffer_unfold r b w :
  heap w !! r = Some b ->
  device_buffer r w =
  match _device_buf b with
  | Some buf => (inr buf, w)
  | None =>
      let buf := mk_buffer (next_addr w) (np.nbytes (shape b) (dtype b)) in
      (inr buf,
       mk_World (next_addr w + 1) (<[r := with_device b buf]> (heap w))
         (context_heap w)
         (<[next_addr w := replicate (Z.to_nat (np.volume (shape b))) 0]>
            (device_mem w))
         (stream_queue w) (trace w ++ [EvDeviceAlloc buf]))
  end.
Proof.
  intros Hb. unfold device_buffer.
  rewrite (bind_returns _ _ _ _ _ (deref_some _ _ _ Hb)).
  destruct (_device_buf b); reflexivity.
Qed.

Lemma host_buffer_unfold r b w :
  heap w !! r = Some b ->
  host_buffer r w =
  match _host_buf b with
  | Some buf => (inr buf, w)
  | None =>
      let buf := mk_buffer (next_addr w) (np.nbytes (shape b) (dtype b)) in
      (inr buf,
       mk_World (next_addr w + 1) (<[r := with_host b buf]> (heap w))
         (context_heap w) (device_mem w) (stream_queue w)
         (trace w ++ [EvPagelockedAlloc buf]))
  end.
Proof.
  intros Hb. unfold host_buffer.
  rewrite (bind_returns _ _ _ _ _ (deref_some _ _ _ Hb)).
  destruct (_host_buf b); reflexivity.
Qed.

(** X3.  [get_async] leaves the binding with both of its buffers, making
    the device buffer first and the pinned host buffer second when they are
    missing and keeping any that is already there; it issues the copy from
    the device buffer to the host buffer and returns the host buffer.  A
    second [get_async] allocates nothing: it issues the same copy again and
    returns the same host buffer. *)
Theorem get_async_allocates_both_buffers r b w :
  heap w !! r = Some b ->
  exists d h w1,
    get_async r w = (inr h, w1) /\
    heap w1
    = <[r := mk_Binding (name b) (is_input b) (dtype b) (shape b)
                        (Some h) (Some d)]> (heap w) /\
    (forall old, _device_buf b = Some old -> d = old) /\
    (forall old, _host_buf b = Some old -> h = old) /\
    (_device_buf b = None ->
     d = mk_buffer (next_addr w) (np.volume (shape b) * np.itemsize (dtype b))) /\
    (_host_buf b = None ->
     h = mk_buffer (next_addr w + match _device_buf b with Some _ => 0 | None => 1 end)
                   (np.volume (shape b) * np.itemsize (dtype b))) /\
    last (trace w1) = Some (EvMemcpyDtoH (ptr h) (ptr d)) /\
    get_async r w1 = (inr h, logged [EvMemcpyDtoH (ptr h) (ptr d)] w1).
Proof.
  intros Hb.
  assert (Hlt : (r < length (heap w))%nat) by (eapply lookup_lt_Some, Hb).
  assert (Hagain : forall d h w0,
            heap w0 !! r
            = Some (mk_Binding (name b) (is_input b) (dtype b) (shape b)
                               (Some h) (Some d)) ->
            get_async r w0 = (inr h, logged [EvMemcpyDtoH (ptr h) (ptr d)] w0)).
  { intros d h w0 H0. unfold get_async.
    rewrite bind_unfold, (device_buffer_unfold _ _ _ H0). cbn.
    rewrite bind_unfold, (host_buffer_unfold _ _ _ H0). reflexivity. }
  unfold get_async at 1.
  rewrite bind_unfold, (device_buffer_unfold _ _ _ Hb).
  destruct b as [n inp dt sh hb db]. cbn [_device_buf _host_buf name is_input dtype shape] in *.
  destruct db as [d|]; cbv zeta.
  - rewrite bind_unfold, (host_buffer_unfold _ _ _ Hb). cbn [_host_buf].
    destruct hb as [h|]; cbv zeta.
    + exists d, h, (logged [EvMemcpyDtoH (ptr h) (ptr d)] w).
      split; [reflexivity|]. cbn [heap logged].
      split; [symmetry; apply list_insert_id, Hb|].
      split; [intros ? [= <-]; reflexivity|].
      split; [intros ? [= <-]; reflexivity|].
      split; [discriminate|]. split; [discriminate|].
      split; [cbn; apply last_snoc|].
      apply Hagain. exact Hb.
    + set (h := mk_buffer (next_addr w) (np.nbytes sh dt)).
      eexists d, h, _. split; [reflexivity|]. cbn [heap logged trace].
      split; [reflexivity|].
      split; [intros ? [= <-]; reflexivity|].
      split; [discriminate|]. split; [discriminate|].
      split; [intros _; unfold h; f_equal; lia|].
      split; [rewrite last_snoc; reflexivity|].
      apply (Hagain d h). cbn [heap logged].
      apply list_lookup_insert_eq. exact Hlt.
  - set (d := mk_buffer (next_addr w) (np.nbytes sh dt)).
    set (w0 := mk_World _ _ _ _ _ _).
    assert (H0 : heap w0 !! r = Some (mk_Binding n inp dt sh hb (Some d)))
      by (cbn; apply list_lookup_insert_eq; exact Hlt).
    rewrite bind_unfold, (host_buffer_unfold _ _ _ H0). cbn [_host_buf].
    destruct hb as [h|]; cbv zeta.
    + exists d, h, (logged [EvMemcpyDtoH (ptr h) (ptr d)] w0).
      split; [reflexivity|]. cbn [heap logged trace w0].
      split; [reflexivity|].
      split; [discriminate|].
      split; [intros ? [= <-]; reflexivity|].
      split; [reflexivity|]. split; [discriminate|].
      split; [rewrite last_snoc; reflexivity|].
      apply (Hagain d h). exact H0.
    + set (h := mk_buffer (next_addr w0) (np.nbytes sh dt)).
      eexists d, h, _. split; [reflexivity|]. cbn [heap logged trace].
      split; [unfold w0; cbn [heap]; rewrite list_insert_insert_eq; reflexivity|].
      split; [discriminate|]. split; [discriminate|].
      split; [reflexivity|].
      split; [intros _; reflexivity|].
      split; [rewrite last_snoc; reflexivity|].
      apply (Hagain d h). cbn [heap logged].
      apply list_lookup_insert_eq.
      unfold w0; cbn [heap]. rewrite length_insert. exact Hlt.
Qed.

(** A binding without buffers: the device buffer at address 0, the host
    buffer at address 1. *)
Lemma get_async_allocates_both_buffers_witness :
  exists d h w1,
    get_async 0 lone_world = (inr h, w1) /\
    heap w1 = [mk_Binding "t" true np.float32 [2; 3] (Some h) (Some d)] /\
    d = mk_buffer 0 24 /\ h = mk_buffer 1 24 /\
    get_async 0 w1 = (inr h, logged [EvMemcpyDtoH 1 0] w1).
Proof.
  destruct (get_async_allocates_both_buffers 0 lone_binding lone_world eq_refl)
    as (d & h & w1 & Hrun & Hheap & _ & _ & Hd & _ & _ & Hagain).
  specialize (Hd eq_refl).
  exists d, h, w1.
  assert (Hh : h = mk_buffer 1 24).
  { subst d. vm_compute in Hrun. injection Hrun as <- _. reflexivity. }
  subst d h. repeat split; try assumption; try reflexivity.
Defined.

(** X4.  [Binding(engine, i)] on an engine whose tensor names are distinct:
    an index outside the engine, or a tensor with an empty name, raises
    [IndexError]; a tensor whose type is not in the table raises [KeyError];
    otherwise the new binding is a new object that carries the name, the
    direction and the shape of tensor [i] and the numpy type of the table,
    with neither buffer allocated.  In no case is anything allocated or any
    foreign call made. *)
Theorem binding_mirrors_its_tensor e i w :
  NoDup (trt.tensor_name <$> trt.io_tensors e) ->
  Binding_init e i w =
  match trt.io_tensors e !! i with
  | None => (inl (IndexError (msg_binding_index i)), w)
  | Some t =>
      if String.eqb (trt.tensor_name t) "" then
        (inl (IndexError (msg_binding_index i)), w)
      else
        match dtype_map (trt.tensor_dtype t) with
        | None => (inl (KeyError "DataType"), w)
        | Some dt =>
            (inr (length (heap w)),
             with_heap (heap w ++ [binding_of_tensor t dt]) w)
        end
  end.
Proof.
  intros Hnd. unfold Binding_init, trt.get_tensor_name.
  destruct (trt.io_tensors e !! i) as [t|] eqn:Ht; cbn [fmap option_fmap option_map];
    [|reflexivity].
  destruct (String.eqb_spec (trt.tensor_name t) "") as [Hn|Hn].
  - rewrite Hn. reflexivity.
  - assert (Hfind := find_tensor_lookup e i t Hnd Ht).
    unfold trt.get_tensor_mode, trt.get_tensor_dtype, trt.get_tensor_shape.
    rewrite Hfind. cbn [from_option].
    destruct (trt.tensor_name t) as [|ch rest] eqn:Hname; [congruence|].
    destruct (dtype_map (trt.tensor_dtype t)) as [dt|]; [|reflexivity].
    unfold binding_of_tensor. rewrite Hname. reflexivity.
Qed.

(** The second tensor of the two-input engine, in a new process. *)
Lemma binding_mirrors_its_tensor_witness :
  Binding_init Demo.pair_engine 1 Demo.boot
  = (inr 0%nat,
     with_heap [mk_Binding "y" true np.float32 [2] None None] Demo.boot).
Proof.
  refine (binding_mirrors_its_tensor Demo.pair_engine 1 Demo.boot _).
  apply (bool_decide_unpack _). vm_compute. reflexivity.
Defined.

(** ** Validation *)

Lemma dtype_eqb_true a b : np.dtype_eqb a b = true <-> a = b.
Proof. destruct a, b; cbn; split; intros H; congruence. Qed.

(** What an accepted array looks like after [check_input_validity]. *)
Lemma checked_facts addr a b :
  validation_error 0 a b = None ->
  np.arr_shape (checked addr a b) = np.arr_shape a /\
  np.arr_dtype (checked addr a b) = dtype b /\
  forall idx, validation_error idx (checked addr a b) b = None /\
              checked addr (checked addr a b) b = checked addr a b.
Proof.
  unfold validation_error, checked, shape_ok, dtype_ok. intros Hv.
  destruct (np.shape_eqb (np.arr_shape a) (shape b)
            || np.shape_eqb (shape b) [1] && np.shape_eqb (np.arr_shape a) [])
    eqn:Hs; [|discriminate]. cbn [negb] in Hv.
  destruct (np.dtype_eqb (np.arr_dtype a) (dtype b)) eqn:Hd.
  - apply dtype_eqb_true in Hd as Hd'.
    split; [reflexivity|]. split; [exact Hd'|]. intros idx.
    rewrite Hs, Hd. cbn. split; reflexivity.
  - cbn [orb] in Hv.
    destruct (np.dtype_eqb (np.arr_dtype a) np.int64
              && np.dtype_eqb (dtype b) np.int32) eqn:Hn; [|discriminate].
    apply andb_true_iff in Hn as [_ Hb]. apply dtype_eqb_true in Hb.
    cbn [np.arr_shape np.arr_dtype]. split; [reflexivity|].
    split; [congruence|]. intros idx. rewrite Hs, Hb. cbn. split; reflexivity.
Qed.

Lemma validation_error_index i j a b :
  validation_error i a b = None -> validation_error j a b = None.
Proof.
  unfold validation_error.
  destruct (negb (shape_ok a b)); [discriminate|].
  destruct (negb (dtype_ok a b)); [discriminate|]. reflexivity.
Qed.

(** X5.  An array that [check_input_validity] has accepted for a binding is
    accepted again for that binding at any position, and is then returned as
    it is, with no copy made: the accepted array has the shape of the given
    one and the type of the binding.  When the given array already had the
    type of the binding, it is itself the result and nothing was allocated. *)
Theorem accepted_array_is_accepted_again i j a b a' w w' :
  check_input_validity i a b w = (inr a', w') ->
  check_input_validity j a' b w' = (inr a', w') /\
  np.arr_shape a' = np.arr_shape a /\
  np.arr_dtype a' = dtype b /\
  (np.arr_dtype a = dtype b -> a' = a /\ w' = w).
Proof.
  rewrite check_input_validity_spec.
  destruct (validation_error i a b) eqn:Hv; [discriminate|].
  intros [= <- <-].
  apply (validation_error_index i 0) in Hv.
  destruct (checked_facts (next_addr w) a b Hv) as (Hs & Hd & Hagain).
  split; [|split; [exact Hs|split; [exact Hd|]]].
  - rewrite check_input_validity_spec.
    destruct (Hagain j) as [-> _].
    apply dtype_eqb_true in Hd. rewrite Hd.
    f_equal. unfold checked at 1. rewrite Hd. reflexivity.
  - intros Heq. apply dtype_eqb_true in Heq.
    unfold checked. rewrite Heq. split; reflexivity.
Qed.

(** The 64-bit array of the demonstration, narrowed for a 32-bit binding and
    checked again. *)
Lemma accepted_array_is_accepted_again_witness :
  check_input_validity 3
    (np.mk_ndarray 0 np.int32 [1] [- 2 ^ 31])
    (mk_Binding "x" true np.int32 [1] None None) (bump 2 Demo.boot)
  = (inr (np.mk_ndarray 0 np.int32 [1] [- 2 ^ 31]), bump 2 Demo.boot).
Proof.
  exact (proj1 (accepted_array_is_accepted_again 0 3 Demo.x_wide
                  (mk_Binding "x" true np.int32 [1] None None)
                  (np.mk_ndarray 0 np.int32 [1] [- 2 ^ 31])
                  Demo.boot (bump 2 Demo.boot) eq_refl)).
Defined.

Lemma dtype_ok_false a b : dtype_ok a b = false <-> dtype_mismatch a b.
Proof.
  unfold dtype_ok, dtype_mismatch.
  destruct (np.dtype_eqb (np.arr_dtype a) (dtype b)) eqn:H1;
    destruct (np.dtype_eqb (np.arr_dtype a) np.int64) eqn:H2;
    destruct (np.dtype_eqb (dtype b) np.int32) eqn:H3; cbn;
    try apply dtype_eqb_true in H1; try apply dtype_eqb_true in H2;
    try apply dtype_eqb_true in H3;
    (split; [try discriminate; intros _|try tauto]).
  all: try (intros [Hne _]; congruence).
  all: try (intros [_ Hn]; exfalso; apply Hn; split; assumption).
  all: split; [intros Heq|intros [Ha Hb]].
  all: try (apply dtype_eqb_true in Heq; congruence).
  all: try (apply dtype_eqb_true in Ha; congruence).
  all: try (apply dtype_eqb_true in Hb; congruence).
Qed.

Lemma validation_error_dtype idx a b :
  validation_error idx a b
  = Some (TypeError (msg_wrong_dtype idx (dtype b) (np.arr_dtype a)))
  <-> ~ shape_mismatch a b /\ dtype_mismatch a b.
Proof.
  rewrite <- shape_ok_false, <- dtype_ok_false. unfold validation_error.
  destruct (shape_ok a b); cbn.
  - destruct (dtype_ok a b); cbn; split.
    + discriminate.
    + intros [_ H]. discriminate.
    + intros _. split; [discriminate|reflexivity].
    + reflexivity.
  - split; [discriminate|]. intros [H _]. exfalso. apply H. reflexivity.
Qed.

(** X6.  The type rule of a call.  When the arrays before position [k] are
    valid, the call raises the [TypeError] of position [k] exactly when the
    array there passes the shape rule and its type differs from the type of
    the binding, other than as 64-bit integers for a 32-bit binding.  No call
    ever raises the error of an unsafe cast. *)
Theorem dtype_rule_of_run env self m e ins inputs_arg l w k a r b :
  ready self w ->
  engines self !! m = Some e ->
  inputs self !! m = Some ins ->
  resolve (heap w) ins inputs_arg = inr l ->
  length l = length ins ->
  l !! k = Some a -> ins !! k = Some r -> heap w !! r = Some b ->
  valid_before (heap w) l ins k ->
  ((exists w',
      run_sequential_tasks env self m inputs_arg w
      = (inl (TypeError (msg_wrong_dtype k (dtype b) (np.arr_dtype a))), w'))
   <-> ~ shape_mismatch a b /\ dtype_mismatch a b) /\
  (forall ex w',
     run_sequential_tasks env self m inputs_arg w = (inl ex, w') ->
     forall i d d', ex <> TypeError (msg_unsafe_cast i d d')).
Proof.
  intros Hready He Hins Hres Hlen Ha Hr Hb Hbefore. split; [split|].
  - intros [w' Hrun].
    destruct (run_raise_inv _ _ _ _ _ _ _ _ _ Hready He Hins Hrun)
      as [Hbad|[(l0 & Hres0 & Hne & Hex)|(l0 & k0 & a0 & r0 & b0 & Hres0 & _
                                            & Ha0 & Hr0 & Hb0 & Hv & _)]].
    + congruence.
    + discriminate.
    + assert (l0 = l) as -> by congruence.
      destruct (validation_error_kind _ _ _ _ Hv) as [Hk|Hk]; [discriminate|].
      injection Hk as <- _ _.
      assert (a0 = a) as -> by congruence.
      assert (r0 = r) as -> by congruence.
      assert (b0 = b) as -> by congruence.
      apply (validation_error_dtype k). exact Hv.
  - intros Hmis. apply validation_error_dtype with (idx := k) in Hmis.
    destruct (run_first_invalid env _ _ _ _ _ _ _ _ _ _ _ _ Hready He Hins
                Hres Hlen Hbefore Ha Hr Hb Hmis) as (w' & _ & Hrun & _).
    eauto.
  - intros ex w' Hrun i d d' ->.
    destruct (run_raise_inv _ _ _ _ _ _ _ _ _ Hready He Hins Hrun)
      as [Hbad|[(l0 & Hres0 & Hne & Hex)|(l0 & k0 & a0 & r0 & b0 & _ & _
                                            & _ & _ & _ & Hv & _)]].
    + rewrite Hres in Hbad. discriminate.
    + discriminate.
    + destruct (validation_error_kind _ _ _ _ Hv); discriminate.
Qed.

(** A float array for the 32-bit integer input of the first model. *)
Lemma dtype_rule_of_run_witness :
  exists w',
    run_sequential_tasks Demo.healthy Demo.manager "feature_extractor"
      (InList [x_float; Demo.y_ok]) Demo.world
    = (inl (TypeError (msg_wrong_dtype 0 np.int32 np.float32)), w').
Proof.
  refine (proj2 (proj1 (dtype_rule_of_run Demo.healthy Demo.manager
                   "feature_extractor" Demo.pair_engine [0; 1]%nat
                   (InList [x_float; Demo.y_ok]) [x_float; Demo.y_ok]
                   Demo.world 0 x_float 0
                   (mk_Binding "x" true np.int32 [1] None
                      (Some (mk_buffer 1 4)))
                   demo_manager_ready _ _ _ _ _ _ _ _)) _).
  - vm_compute. reflexivity.
  - vm_compute. reflexivity.
  - reflexivity.
  - reflexivity.
  - reflexivity.
  - reflexivity.
  - vm_compute. reflexivity.
  - intros j a r b Hj. lia.
  - split.
    + intros [H _]. apply H. reflexivity.
    + split; [discriminate|]. intros [H _]. discriminate.
Defined.

(** ** The arguments of a call *)

(** The call of a ready manager in closed form. *)
Lemma run_closed_of_ready env self m e w :
  ready self w ->
  engines self !! m = Some e ->
  exists c ctx bs,
    inputs self !! m = Some (input_refs (heap w) bs) /\
    outputs self !! m = Some (output_refs (heap w) bs) /\
    Forall (binding_ready (heap w)) bs /\
    forall inputs_arg,
      run_sequential_tasks env self m inputs_arg w
      = run_closed env m e c ctx (device_ptr (heap w) <$> bs)
          (input_refs (heap w) bs) (output_refs (heap w) bs) inputs_arg w.
Proof.
  intros (Htab & Hq & Hok) He.
  specialize (Htab m). rewrite He in Htab.
  destruct Htab as (c & ctx & bs & Hcm & Hctx & Hce & Hbs & Haddr & Hins
                      & Houts & Hready & Hdesc & Hlen).
  exists c, ctx, bs. conjs; try assumption.
  intros inputs_arg.
  eapply run_sequential_tasks_closed; eauto.
  - rewrite length_fmap. exact Hlen.
  - apply Forall_filter_list, Hready.
  - apply Forall_filter_list, Hready.
Qed.

Lemma binding_ready_name h r :
  binding_ready h r -> exists b, h !! r = Some b /\ ref_name h r = name b.
Proof.
  intros (b & _ & Hb & _). exists b. split; [exact Hb|].
  unfold ref_name. rewrite Hb. reflexivity.
Qed.

Lemma by_names_found h d refs l :
  Forall (binding_ready h) refs ->
  Forall2 (fun r a => d !! ref_name h r = Some a) refs l ->
  by_names h d refs = inr l.
Proof.
  intros Hready H. induction H as [|r a refs l Hr _ IH]; [reflexivity|].
  apply Forall_cons in Hready as [Hrr Hready].
  destruct (binding_ready_name _ _ Hrr) as (b & Hb & Hn).
  cbn. rewrite Hb, <- Hn, Hr, (IH Hready). reflexivity.
Qed.

Lemma by_names_missing h d refs :
  Forall (binding_ready h) refs ->
  forall k r,
    refs !! k = Some r ->
    d !! ref_name h r = None ->
    (forall j r', (j < k)%nat -> refs !! j = Some r' ->
                  is_Some (d !! ref_name h r')) ->
    by_names h d refs = inl (KeyError (ref_name h r)).
Proof.
  induction 1 as [|r0 refs Hr0 _ IH]; intros k r Hk Hnone Hbefore;
    [discriminate|].
  destruct (binding_ready_name _ _ Hr0) as (b & Hb & Hn).
  cbn. rewrite Hb, <- Hn.
  destruct k as [|k].
  - injection Hk as <-. rewrite Hnone. reflexivity.
  - destruct (Hbefore 0%nat r0 ltac:(lia) eq_refl) as [a ->].
    rewrite (IH k r Hk Hnone); [reflexivity|].
    intros j r' Hj Hr'. apply (Hbefore (S j) r'); [lia|exact Hr'].
Qed.

Lemma run_rejects_count env self m e ins l w :
  ready self w ->
  engines self !! m = Some e ->
  inputs self !! m = Some ins ->
  length l <> length ins ->
  run_sequential_tasks env self m (InList l) w
  = (inl (ValueError (msg_input_count m)), w).
Proof.
  intros Hready He Hins Hlen.
  destruct (run_closed_of_ready env self m e w Hready He)
    as (c & ctx & bs & Hins' & _ & _ & Hrun).
  rewrite Hins in Hins'. injection Hins' as Hins'.
  rewrite Hrun. unfold run_closed. cbn [resolve]. rewrite <- Hins'.
  destruct (Nat.eqb_spec (length l) (length ins)); [contradiction|].
  reflexivity.
Qed.

(** X7.  A list with more or fewer arrays than the model has input bindings
    is rejected with the [ValueError] of the count, before any array is
    looked at: nothing is validated, copied or allocated, and the world is
    left as it was. *)
Theorem wrong_number_of_arrays_is_rejected env self m e ins l w :
  ready self w ->
  engines self !! m = Some e ->
  inputs self !! m = Some ins ->
  length l <> length ins ->
  run_sequential_tasks env self m (InList l) w
  = (inl (ValueError (msg_input_count m)), w).
Proof. exact (run_rejects_count env self m e ins l w). Qed.

(** One array for the two inputs of the first model; the array is not even
    of the right type. *)
Lemma wrong_number_of_arrays_is_rejected_witness :
  run_sequential_tasks Demo.healthy Demo.manager "feature_extractor"
    (InList [x_float]) Demo.world
  = (inl (ValueError (msg_input_count "feature_extractor")), Demo.world).
Proof.
  refine (wrong_number_of_arrays_is_rejected Demo.healthy Demo.manager
            "feature_extractor" Demo.pair_engine [0; 1]%nat [x_float]
            Demo.world demo_manager_ready _ _ _).
  - vm_compute. reflexivity.
  - vm_compute. reflexivity.
  - cbn. lia.
Defined.

(** X8.  A dict of arrays is read by the names of the input bindings, in the
    order of the bindings: when it has an array under each of these names, the
    call does what the call with the list of these arrays does, in result and
    in effect.  Entries under other names are never read, so two dicts that
    agree on the names of the input bindings give the same call. *)
Theorem dict_inputs_are_taken_by_name env self m e ins d l w :
  ready self w ->
  engines self !! m = Some e ->
  inputs self !! m = Some ins ->
  Forall2 (fun r a => d !! ref_name (heap w) r = Some a) ins l ->
  run_sequential_tasks env self m (InDict d) w
  = run_sequential_tasks env self m (InList l) w /\
  forall d',
    (forall r, In r ins -> d' !! ref_name (heap w) r = d !! ref_name (heap w) r) ->
    run_sequential_tasks env self m (InDict d') w
    = run_sequential_tasks env self m (InDict d) w.
Proof.
  intros Hready He Hins Hd.
  destruct (run_closed_of_ready env self m e w Hready He)
    as (c & ctx & bs & Hins' & _ & Hrb & Hrun).
  rewrite Hins in Hins'. injection Hins' as Hins'.
  assert (Hrins : Forall (binding_ready (heap w)) ins)
    by (rewrite Hins'; apply Forall_filter_list, Hrb).
  assert (Hby : forall d0,
            Forall2 (fun r a => d0 !! ref_name (heap w) r = Some a) ins l ->
            run_sequential_tasks env self m (InDict d0) w
            = run_sequential_tasks env self m (InList l) w).
  { intros d0 Hd0. rewrite !Hrun. unfold run_closed. cbn [resolve].
    rewrite <- Hins', (by_names_found _ _ _ _ Hrins Hd0). reflexivity. }
  split; [apply Hby, Hd|].
  intros d' Hsame. rewrite (Hby d Hd). apply Hby.
  clear - Hd Hsame. induction Hd as [|r a ins l Hr _ IH]; constructor.
  - rewrite Hsame; [exact Hr|left; reflexivity].
  - apply IH. intros r' Hin. apply Hsame. right. exact Hin.
Qed.

(** The two inputs of the first model by name, in another order and with
    one entry that names no input. *)
Lemma dict_inputs_are_taken_by_name_witness :
  run_sequential_tasks Demo.healthy Demo.manager "feature_extractor"
    (InDict by_name_xy) Demo.world
  = run_sequential_tasks Demo.healthy Demo.manager "feature_extractor"
      (InList [Demo.x_ok; Demo.y_ok]) Demo.world.
Proof.
  refine (proj1 (dict_inputs_are_taken_by_name Demo.healthy Demo.manager
                   "feature_extractor" Demo.pair_engine [0; 1]%nat by_name_xy
                   [Demo.x_ok; Demo.y_ok] Demo.world demo_manager_ready
                   _ _ _)).
  - vm_compute. reflexivity.
  - vm_compute. reflexivity.
  - repeat constructor.
Defined.

(** X9.  A dict that lacks the name of an input binding makes the call raise
    [KeyError] with the first such name, in the order of the bindings; no
    array has been validated or copied by then, and the world is left as it
    was. *)
Theorem missing_input_name_is_a_KeyError env self m e ins d k r w :
  ready self w ->
  engines self !! m = Some e ->
  inputs self !! m = Some ins ->
  ins !! k = Some r ->
  d !! ref_name (heap w) r = None ->
  (forall j r', (j < k)%nat -> ins !! j = Some r' ->
                is_Some (d !! ref_name (heap w) r')) ->
  run_sequential_tasks env self m (InDict d) w
  = (inl (KeyError (ref_name (heap w) r)), w).
Proof.
  intros Hready He Hins Hk Hnone Hbefore.
  destruct (run_closed_of_ready env self m e w Hready He)
    as (c & ctx & bs & Hins' & _ & Hrb & Hrun).
  rewrite Hins in Hins'. injection Hins' as Hins'.
  assert (Hrins : Forall (binding_ready (heap w)) ins)
    by (rewrite Hins'; apply Forall_filter_list, Hrb).
  rewrite Hrun. unfold run_closed. cbn [resolve].
  rewrite <- Hins', (by_names_missing _ _ _ Hrins k r Hk Hnone Hbefore).
  reflexivity.
Qed.

(** Only the first input of the first model is given. *)
Lemma missing_input_name_is_a_KeyError_witness :
  run_sequential_tasks Demo.healthy Demo.manager "feature_extractor"
    (InDict by_name_x) Demo.world
  = (inl (KeyError "y"), Demo.world).
Proof.
  refine (missing_input_name_is_a_KeyError Demo.healthy Demo.manager
            "feature_extractor" Demo.pair_engine [0; 1]%nat by_name_x 1 1
            Demo.world demo_manager_ready _ _ _ _ _).
  - vm_compute. reflexivity.
  - vm_compute. reflexivity.
  - reflexivity.
  - vm_compute. reflexivity.
  - intros j r' Hj Hr'. destruct j as [|j]; [|lia].
    injection Hr' as <-. vm_compute. eexists. reflexivity.
Defined.

(** ** [inference_tensorrt] *)

Lemma comprehension_prevalidate task_inputs l :
  forall start w,
    comprehension (enumerate_from start l)
      (fun '(i, input_array) =>
         a ← np_array input_array;
         r ← list_get task_inputs i;
         b ← deref r;
         check_input_validity i a b) w
    = let '(r, addr) :=
        prevalidated (heap w) task_inputs start l (next_addr w) in
      (r, at_addr addr w).
Proof.
  induction l as [|a l IH]; intros start w.
  - destruct w; reflexivity.
  - cbn [enumerate_from comprehension prevalidated].
    rewrite bind_unfold, bind_unfold.
    change (np_array a w)
      with (inr (A := exn) (copy_at (next_addr w) a), bump 1 w).
    cbv iota beta. unfold list_get.
    destruct (task_inputs !! start) as [r|]; [|reflexivity].
    rewrite bind_mret, bind_unfold. unfold deref at 1.
    change (heap (bump 1 w)) with (heap w).
    destruct (heap w !! r) as [b|]; [|reflexivity].
    cbv iota beta. rewrite check_input_validity_spec.
    change (next_addr (bump 1 w)) with (next_addr w + 1).
    destruct (validation_error start (copy_at (next_addr w) a) b) as [ex|];
      [reflexivity|].
    change (np.arr_dtype (copy_at (next_addr w) a)) with (np.arr_dtype a).
    cbv zeta.
    destruct (np.dtype_eqb (np.arr_dtype a) (dtype b));
      rewrite bind_unfold, IH; cbn [heap next_addr bump];
      match goal with
      | |- context [prevalidated ?h ?t ?s ?l ?x] =>
          destruct (prevalidated h t s l x) as [[ex|rest] addr']
      end; reflexivity.
Qed.

Lemma prevalidated_addr h task_inputs l :
  forall start addr,
    addr <= (prevalidated h task_inputs start l addr).2.
Proof.
  induction l as [|a l IH]; intros start addr; cbn [prevalidated].
  - cbn. lia.
  - destruct (task_inputs !! start) as [r|]; [|cbn; lia].
    destruct (h !! r) as [b|]; [|cbn; lia].
    destruct (validation_error start (copy_at addr a) b); [cbn; lia|].
    cbv zeta.
    match goal with
    | |- context [prevalidated ?h ?t ?s ?l ?x] =>
        specialize (IH s x);
        destruct (prevalidated h t s l x) as [[ex|rest] addr']
    end; cbn [snd] in *;
      destruct (np.dtype_eqb (np.arr_dtype a) (dtype b)); lia.
Qed.

(** The arrays that come out of the comprehension are valid for their
    bindings, and there are as many of them as were given. *)
Lemma prevalidated_valid h task_inputs l :
  forall start addr l' addr',
    prevalidated h task_inputs start l addr = (inr l', addr') ->
    length l' = length l /\
    forall j a' r b,
      l' !! j = Some a' -> task_inputs !! (start + j)%nat = Some r ->
      h !! r = Some b -> valid a' b = true.
Proof.
  induction l as [|a l IH]; intros start addr l' addr'; cbn [prevalidated].
  - intros [= <- _]. split; [reflexivity|]. intros j a' r b Hj. discriminate.
  - destruct (task_inputs !! start) as [r0|] eqn:Hr0; [|discriminate].
    destruct (h !! r0) as [b0|] eqn:Hb0; [|discriminate].
    destruct (validation_error start (copy_at addr a) b0) eqn:Hv;
      [discriminate|].
    cbv zeta.
    match goal with
    | |- context [prevalidated ?h ?t ?s ?l ?x] =>
        specialize (IH s x);
        destruct (prevalidated h t s l x) as [[ex|rest] addr1]
    end; [discriminate|].
    intros [= <- <-]. destruct (IH rest addr1 eq_refl) as [Hlen Hrest].
    split; [cbn; lia|].
    intros [|j] a' r b Ha' Hr Hb.
    + rewrite Nat.add_0_r in Hr. injection Ha' as <-.
      assert (r = r0) as -> by congruence.
      assert (b = b0) as -> by congruence.
      apply (validation_error_index start 0) in Hv.
      destruct (checked_facts (addr + 1) _ _ Hv) as (_ & _ & Hagain).
      apply (validation_error_none 0). apply Hagain.
    + apply (Hrest j a' r b Ha'); [|exact Hb].
      rewrite <- Hr. f_equal. lia.
Qed.

(** Valid arrays pass the comprehension as long as there are bindings for
    them; the first array beyond the bindings stops it. *)
Lemma prevalidated_progress h task_inputs l :
  Forall (binding_ready h) task_inputs ->
  forall start addr,
    (start <= length task_inputs)%nat ->
    (forall j a r b,
       l !! j = Some a -> task_inputs !! (start + j)%nat = Some r ->
       h !! r = Some b -> valid a b = true) ->
    exists addr',
      if Nat.leb (start + length l) (length task_inputs)
      then exists l', prevalidated h task_inputs start l addr = (inr l', addr')
      else prevalidated h task_inputs start l addr
           = (inl (IndexError (msg_foreign "list index out of range")), addr').
Proof.
  intros Hready. induction l as [|a l IH]; intros start addr Hstart Hvalid.
  - exists addr. cbn [length]. rewrite Nat.add_0_r.
    apply Nat.leb_le in Hstart. rewrite Hstart. exists []. reflexivity.
  - cbn [prevalidated length]. rewrite Nat.add_succ_r.
    destruct (task_inputs !! start) as [r|] eqn:Hr.
    + assert (Hlt : (start < length task_inputs)%nat)
        by (eapply lookup_lt_Some, Hr).
      rewrite Forall_lookup in Hready.
      destruct (Hready _ _ Hr) as (b & buf & Hb & _).
      rewrite Hb.
      assert (Hv : validation_error start (copy_at addr a) b = None).
      { apply validation_error_none.
        apply (Hvalid 0%nat a r b eq_refl); [|exact Hb].
        rewrite Nat.add_0_r. exact Hr. }
      rewrite Hv. cbv zeta.
      match goal with
      | |- context [prevalidated ?h ?t ?s ?l ?x] =>
          destruct (IH s x) as [addr' Hnext]
      end; [lia| |].
      { intros j a0 r0 b0 Ha0 Hr0. apply (Hvalid (S j) a0 r0 b0 Ha0).
        rewrite <- Hr0. f_equal. lia. }
      exists addr'. cbn [Nat.add] in Hnext.
      destruct (Nat.leb (S (start + length l)) (length task_inputs)).
      * destruct Hnext as [l' ->]. eexists. reflexivity.
      * rewrite Hnext. reflexivity.
    + apply lookup_ge_None in Hr.
      exists (addr + 1).
      destruct (Nat.leb_spec (S (start + length l)) (length task_inputs));
        [lia|reflexivity].
Qed.

Lemma ready_at_addr self w addr :
  ready self w -> next_addr w <= addr -> ready self (at_addr addr w).
Proof.
  intros (Htab & Hq & Hok) Hle. split; [|split].
  - apply (tables_ready_mono self w); [apply heap_le_refl| |exact Htab].
    apply contexts_le_refl.
  - exact Hq.
  - apply (heap_ok_mono w); [reflexivity|exact Hle|exact Hok].
Qed.

Lemma inference_unfold env self task ins l w :
  inputs self !! task = Some ins ->
  inference_tensorrt env self task (InList l) w
  = match prevalidated (heap w) ins 0 l (next_addr w) with
    | (inl ex, addr) => (inl ex, at_addr addr w)
    | (inr l', addr) =>
        run_sequential_tasks env self task (InList l') (at_addr addr w)
    end.
Proof.
  intros Hins. unfold inference_tensorrt. rewrite Hins.
  rewrite bind_unfold. unfold enumerate. rewrite comprehension_prevalidate.
  destruct (prevalidated (heap w) ins 0 l (next_addr w)) as [[ex|l'] addr];
    reflexivity.
Qed.

(** A call with valid arrays raises only for their number. *)
Lemma run_raise_valid env self m e ins l w ex w' :
  ready self w ->
  engines self !! m = Some e ->
  inputs self !! m = Some ins ->
  valid_before (heap w) l ins (length l) ->
  run_sequential_tasks env self m (InList l) w = (inl ex, w') ->
  w' = w /\ length l <> length ins /\ ex = ValueError (msg_input_count m).
Proof.
  intros Hready He Hins Hvalid Hrun.
  destruct (Nat.eq_dec (length l) (length ins)) as [Hlen|Hlen].
  - exfalso.
    destruct (run_raise_inv _ _ _ _ _ _ _ _ _ Hready He Hins Hrun)
      as [Hbad|[(l0 & Hres0 & Hne & _)|(l0 & k & a & r & b & Hres0 & _ & Ha
                                          & Hr & Hb & Hv & _)]].
    + discriminate.
    + injection Hres0 as <-. contradiction.
    + injection Hres0 as <-.
      assert (Hk : (k < length l)%nat) by (eapply lookup_lt_Some, Ha).
      pose proof (Hvalid k a r b Hk Ha Hr Hb) as Hok.
      apply (validation_error_none k) in Hok. congruence.
  - rewrite (run_rejects_count env self m e ins l w Hready He Hins Hlen) in Hrun.
    injection Hrun as <- <-. auto.
Qed.

Lemma inputs_have_engine self w task ins :
  ready self w -> inputs self !! task = Some ins ->
  exists e, engines self !! task = Some e.
Proof.
  intros (Htab & _) Hins. specialize (Htab task).
  destruct (engines self !! task) as [e|]; [eauto|congruence].
Qed.

(** X10.  When [inference_tensorrt] raises, no foreign call has been made
    and nothing on the device has changed: every array is validated before
    the first one is copied, so a rejected array leaves the trace, the
    bindings, the contexts, the device memory and the stream as they were. *)
Theorem inference_raises_before_any_device_work env self task l w ex w' :
  ready self w ->
  inference_tensorrt env self task (InList l) w = (inl ex, w') ->
  trace w' = trace w /\ heap w' = heap w /\
  context_heap w' = context_heap w /\ device_mem w' = device_mem w /\
  stream_queue w' = stream_queue w /\ next_addr w <= next_addr w'.
Proof.
  intros Hready Hrun.
  assert (Hgoal : exists addr, w' = at_addr addr w /\ next_addr w <= addr).
  { destruct (inputs self !! task) as [ins|] eqn:Hins.
    - destruct (inputs_have_engine _ _ _ _ Hready Hins) as [e He].
      rewrite (inference_unfold env _ _ _ _ _ Hins) in Hrun.
      pose proof (prevalidated_addr (heap w) ins l 0 (next_addr w)) as Hle.
      destruct (prevalidated (heap w) ins 0 l (next_addr w))
        as [[ex0|l'] addr] eqn:Hpre; cbn [snd] in Hle.
      + injection Hrun as _ <-. eauto.
      + destruct (prevalidated_valid _ _ _ _ _ _ _ Hpre) as [Hlen Hvalid].
        destruct (run_raise_valid env self task e ins l' (at_addr addr w) ex w'
                    (ready_at_addr _ _ _ Hready Hle) He Hins) as (-> & _).
        * intros j a r b _ Ha Hr Hb. apply (Hvalid j a r b Ha Hr Hb).
        * exact Hrun.
        * eauto.
    - unfold inference_tensorrt in Hrun. rewrite Hins in Hrun.
      injection Hrun as _ <-. exists (next_addr w).
      split; [destruct w; reflexivity|lia]. }
  destruct Hgoal as (addr & -> & Hle). cbn. conjs; auto.
Qed.

(** The call that [run_sequential_tasks] stops after one copy is stopped by
    [inference_tensorrt] before any. *)
Lemma inference_raises_before_any_device_work_witness :
  trace (inference_tensorrt Demo.healthy Demo.manager "feature_extractor"
           (InList [Demo.x_ok; Demo.y_bad]) Demo.world).2
  = trace Demo.world.
Proof.
  refine (proj1 (inference_raises_before_any_device_work Demo.healthy
                   Demo.manager "feature_extractor"
                   [Demo.x_ok; Demo.y_bad] Demo.world
                   (ValueError (msg_wrong_shape 1 [2] [3]))
                   (inference_tensorrt Demo.healthy Demo.manager
                      "feature_extractor" (InList [Demo.x_ok; Demo.y_bad])
                      Demo.world).2
                   demo_manager_ready _)).
  vm_compute. reflexivity.
Defined.

(** X11.  The number of arrays in [inference_tensorrt].  With valid arrays for
    the bindings there are, one array too many raises the [IndexError] of
    the list of input bindings, not the [ValueError] of the count; too few
    arrays raise that [ValueError], from [run_sequential_tasks].  Either way
    only addresses of temporary arrays have been used up. *)
Theorem wrong_number_of_arrays_in_inference env self task e ins l w :
  ready self w ->
  engines self !! task = Some e ->
  inputs self !! task = Some ins ->
  length l <> length ins ->
  valid_before (heap w) l ins (length ins) ->
  exists addr,
    next_addr w <= addr /\
    inference_tensorrt env self task (InList l) w
    = (inl (if Nat.ltb (length ins) (length l)
            then IndexError (msg_foreign "list index out of range")
            else ValueError (msg_input_count task)),
       at_addr addr w).
Proof.
  intros Hready He Hins Hlen Hvalid.
  assert (Hrins : Forall (binding_ready (heap w)) ins).
  { destruct (run_closed_of_ready env self task e w Hready He)
      as (c & ctx & bs & Hins' & _ & Hrb & _).
    rewrite Hins in Hins'. injection Hins' as ->.
    apply Forall_filter_list, Hrb. }
  rewrite (inference_unfold env _ _ _ _ _ Hins).
  pose proof (prevalidated_addr (heap w) ins l 0 (next_addr w)) as Hle.
  destruct (prevalidated_progress (heap w) ins l Hrins 0 (next_addr w))
    as [addr Hpre]; [lia| |].
  { intros j a r b Ha Hr Hb. apply (Hvalid j a r b); try assumption.
    eapply lookup_lt_Some, Hr. }
  cbn [Nat.add] in Hpre. exists addr.
  destruct (Nat.leb_spec (length l) (length ins)) as [Hfew|Hmany].
  - destruct Hpre as [l' Hpre]. rewrite Hpre in Hle |- *. cbn [snd] in Hle.
    split; [exact Hle|].
    destruct (prevalidated_valid _ _ _ _ _ _ _ Hpre) as [Hlen' _].
    destruct (Nat.ltb_spec (length ins) (length l)); [lia|].
    apply (run_rejects_count env self task e ins);
      [apply ready_at_addr; assumption|exact He|exact Hins|lia].
  - rewrite Hpre in Hle |- *. cbn [snd] in Hle. split; [exact Hle|].
    destruct (Nat.ltb_spec (length ins) (length l)); [reflexivity|lia].
Qed.

(** Three arrays for the two inputs of the first model. *)
Lemma wrong_number_of_arrays_in_inference_witness :
  exists addr,
    next_addr Demo.world <= addr /\
    inference_tensorrt Demo.healthy Demo.manager "feature_extractor"
      (InList [Demo.x_ok; Demo.y_ok; Demo.y_ok]) Demo.world
    = (inl (IndexError (msg_foreign "list index out of range")),
       at_addr addr Demo.world).
Proof.
  refine (wrong_number_of_arrays_in_inference Demo.healthy Demo.manager
            "feature_extractor" Demo.pair_engine [0; 1]%nat
            [Demo.x_ok; Demo.y_ok; Demo.y_ok] Demo.world
            demo_manager_ready _ _ _ _).
  - vm_compute. reflexivity.
  - vm_compute. reflexivity.
  - cbn. lia.
  - intros j a r b Hj Ha Hr Hb.
    destruct j as [|[|j]]; [| |cbn in Hj; lia];
      cbn in Ha, Hr; injection Ha as <-; injection Hr as <-;
      vm_compute in Hb; injection Hb as <-; reflexivity.
Defined.

(** X12.  With as many arrays as the model has input bindings, each valid
    for its binding, and a device that does not fail, [inference_tensorrt]
    returns a list with one array for each output binding. *)
Theorem inference_succeeds env self task e ins outs l w :
  ready self w ->
  engines self !! task = Some e ->
  inputs self !! task = Some ins ->
  outputs self !! task = Some outs ->
  length l = length ins ->
  valid_before (heap w) l ins (length l) ->
  healthy_device env ->
  exists results w',
    inference_tensorrt env self task (InList l) w
    = (inr (VList (VArray <$> results)), w') /\
    length results = length outs.
Proof.
  intros Hready He Hins Houts Hlen Hvalid Hdev.
  assert (Hrins : Forall (binding_ready (heap w)) ins).
  { destruct (run_closed_of_ready env self task e w Hready He)
      as (c & ctx & bs & Hins' & _ & Hrb & _).
    rewrite Hins in Hins'. injection Hins' as ->.
    apply Forall_filter_list, Hrb. }
  rewrite (inference_unfold env _ _ _ _ _ Hins).
  pose proof (prevalidated_addr (heap w) ins l 0 (next_addr w)) as Hle.
  destruct (prevalidated_progress (heap w) ins l Hrins 0 (next_addr w))
    as [addr Hpre]; [lia| |].
  { intros j a r b Ha Hr Hb. apply (Hvalid j a r b); try assumption.
    eapply lookup_lt_Some, Ha. }
  cbn [Nat.add] in Hpre. rewrite Hlen, Nat.leb_refl in Hpre.
  destruct Hpre as [l' Hpre]. rewrite Hpre in Hle |- *. cbn [snd] in Hle.
  destruct (prevalidated_valid _ _ _ _ _ _ _ Hpre) as [Hlen' Hvalid'].
  apply (run_succeeds env self task e ins outs l' (at_addr addr w)).
  - apply ready_at_addr; assumption.
  - exact He.
  - exact Hins.
  - exact Houts.
  - lia.
  - intros j a r b _ Ha Hr Hb. apply (Hvalid' j a r b Ha Hr Hb).
  - exact Hdev.
Qed.

(** The two valid arrays of the first model. *)
Lemma inference_succeeds_witness :
  exists results w',
    inference_tensorrt Demo.healthy Demo.manager "feature_extractor"
      (InList [Demo.x_ok; Demo.y_ok]) Demo.world
    = (inr (VList (VArray <$> results)), w') /\
    length results = length [2%nat].
Proof.
  refine (inference_succeeds Demo.healthy Demo.manager "feature_extractor"
            Demo.pair_engine [0; 1]%nat [2%nat] [Demo.x_ok; Demo.y_ok]
            Demo.world demo_manager_ready _ _ _ _ _ _).
  - vm_compute. reflexivity.
  - vm_compute. reflexivity.
  - vm_compute. reflexivity.
  - reflexivity.
  - intros j a r b Hj Ha Hr Hb.
    destruct j as [|[|j]]; [| |cbn in Hj; lia];
      cbn in Ha, Hr; injection Ha as <-; injection Hr as <-;
      vm_compute in Hb; injection Hb as <-; reflexivity.
  - intros e table. split; [reflexivity|].
    intros mem. exists mem. reflexivity.
Defined.

(** ** Construction: the configuration *)

Lemma read_paths_missing half kwargs k w :
  first_missing kwargs (path_keys half) = Some k ->
  read_paths half kwargs w = (inl (KeyError k), w).
Proof.
  unfold read_paths. destruct half; cbn [path_keys first_missing]; intros H;
    repeat (rewrite bind_unfold, dict_get_spec;
            match goal with
            | |- context [kwargs !! ?key] => destruct (kwargs !! key)
            end;
            [|injection H as <-; reflexivity]);
    discriminate.
Qed.

Lemma read_paths_found half kwargs w :
  first_missing kwargs (path_keys half) = None ->
  read_paths half kwargs w = (inr (configured half kwargs), w).
Proof.
  unfold read_paths, configured.
  destruct half; cbn [path_keys first_missing omap list_omap]; intros H;
    repeat (rewrite bind_unfold, dict_get_spec;
            match goal with
            | |- context [kwargs !! ?key] => destruct (kwargs !! key)
            end;
            [|discriminate]);
    reflexivity.
Qed.

Lemma first_missing_app kwargs ks ks' :
  first_missing kwargs (ks ++ ks')
  = match first_missing kwargs ks with
    | Some k => Some k
    | None => first_missing kwargs ks'
    end.
Proof.
  induction ks as [|k ks IH]; [reflexivity|]. cbn.
  destruct (kwargs !! k); [exact IH|reflexivity].
Qed.

(** X13.  Construction reads the six paths of the chosen precision and then
    the path of the plugin.  When the configuration lacks one of these keys,
    [__init__] raises [KeyError] with the first key that is missing, before
    the plugin is loaded or any file is read: the world is left as it
    was.  The keys of the other precision are not asked for. *)
Theorem missing_configuration_key env half kwargs k w :
  first_missing kwargs (required_keys half) = Some k ->
  __init__ env half kwargs w = (inl (KeyError k), w).
Proof.
  unfold required_keys. rewrite first_missing_app. intros H.
  rewrite init_unfold, bind_unfold.
  destruct (first_missing kwargs (path_keys half)) as [k'|] eqn:Hp.
  - injection H as ->. rewrite (read_paths_missing _ _ _ _ Hp). reflexivity.
  - rewrite (read_paths_found _ _ _ Hp), bind_unfold, dict_get_spec.
    cbn [first_missing] in H.
    destruct (kwargs !! "grid_sample_3d"); [discriminate|].
    injection H as <-. reflexivity.
Qed.

(** The configuration of the demonstration without the path of the
    generator. *)
Lemma missing_configuration_key_witness :
  __init__ Demo.healthy false kwargs_without_generator Demo.boot
  = (inl (KeyError "rt_GW"), Demo.boot).
Proof.
  refine (missing_configuration_key Demo.healthy false
            kwargs_without_generator "rt_GW" Demo.boot _).
  vm_compute. reflexivity.
Defined.

(** X14.  When the plugin library cannot be loaded, [__init__] raises what
    the loader raised.  By then it has made the one call to the loader and
    nothing else: the plugins are not initialized, no stream is made, no
    engine file is read and nothing is allocated. *)
Theorem plugin_failure_stops_construction env half kwargs plugin ex w :
  first_missing kwargs (required_keys half) = None ->
  kwargs !! "grid_sample_3d" = Some plugin ->
  dlopen env plugin = Some ex ->
  __init__ env half kwargs w = (inl ex, logged [EvDlopen plugin] w).
Proof.
  unfold required_keys. rewrite first_missing_app. intros H Hplugin Hdl.
  destruct (first_missing kwargs (path_keys half)) eqn:Hp; [discriminate|].
  rewrite init_unfold, bind_unfold, (read_paths_found _ _ _ Hp).
  rewrite bind_unfold, dict_get_spec, Hplugin.
  rewrite bind_unfold, load_plugins_spec, Hdl. reflexivity.
Qed.

Lemma plugin_failure_stops_construction_witness :
  __init__ no_plugin false Demo.kwargs Demo.boot
  = (inl (OSError (msg_foreign "cannot open shared object file")),
     logged [EvDlopen "libgrid_sample_3d_plugin.so"] Demo.boot).
Proof.
  refine (plugin_failure_stops_construction no_plugin false Demo.kwargs
            "libgrid_sample_3d_plugin.so"
            (OSError (msg_foreign "cannot open shared object file"))
            Demo.boot _ _ _).
  - vm_compute. reflexivity.
  - vm_compute. reflexivity.
  - reflexivity.
Defined.

(** ** Construction: the engines *)

Lemma Binding_init_outcome e i w :
  match binding_error e i with
  | Some ex => Binding_init e i w = (inl ex, w)
  | None => exists r w', Binding_init e i w = (inr r, w')
  end.
Proof.
  unfold binding_error, Binding_init.
  destruct (trt.get_tensor_name e i) as [[|ch n]|]; try reflexivity.
  destruct (dtype_map (trt.get_tensor_dtype e (String ch n)));
    [|reflexivity].
  eexists _, _. reflexivity.
Qed.

Lemma comprehension_Binding_init_outcome e idxs :
  forall w,
    match tensors_error e idxs with
    | Some ex => exists w', comprehension idxs (Binding_init e) w = (inl ex, w')
    | None => exists bs w', comprehension idxs (Binding_init e) w = (inr bs, w')
    end.
Proof.
  induction idxs as [|i idxs IH]; intros w; cbn [tensors_error comprehension].
  - eexists _, _. reflexivity.
  - rewrite bind_unfold. pose proof (Binding_init_outcome e i w) as Hi.
    destruct (binding_error e i) as [ex|].
    + rewrite Hi. eauto.
    + destruct Hi as (r & w1 & ->). rewrite bind_unfold.
      specialize (IH w1). destruct (tensors_error e idxs) as [ex|].
      * destruct IH as [w' ->]. eauto.
      * destruct IH as (bs & w' & ->). eexists _, _. reflexivity.
Qed.

(** One turn of the loop of [initialize_engines]: it fails exactly with the
    error of loading, and otherwise records the engine of the file. *)
Lemma initialize_engine_outcome env self m path w :
  tables_ready self w -> heap_ok w ->
  match load_error env path with
  | Some ex => exists w', initialize_engine env self (m, path) w = (inl ex, w')
  | None =>
      exists e self' w',
        read_engine env path = inr (Some e) /\
        initialize_engine env self (m, path) w = (inr self', w') /\
        engines self' = <[m := e]> (engines self) /\
        In (EvDeserialize path) (trace w')
  end.
Proof.
  intros Htab Hok. unfold load_error, initialize_engine.
  rewrite bind_unfold, load_engine_spec.
  destruct (read_engine env path) as [ex|[e|]]; [eauto| |eauto].
  rewrite bind_unfold, create_execution_context_spec. cbv beta iota.
  set (wA := with_context e (logged [EvDeserialize path] w)).
  rewrite bind_unfold.
  pose proof (comprehension_Binding_init_outcome e
                (seq 0 (trt.num_io_tensors e)) wA) as HB.
  destruct (tensors_error e (seq 0 (trt.num_io_tensors e))) as [ex|].
  { destruct HB as [w' ->]. eauto. }
  destruct HB as (bs & wB & HB). rewrite HB.
  destruct (comprehension_Binding_init _ _ _ _ _ HB)
    as (news & -> & Hnone & Hbs).
  destruct (Hbs bs eq_refl) as (-> & Hbuilt). clear Hbs.
  assert (Hlen : length news = trt.num_io_tensors e).
  { apply Forall2_length in Hbuilt. rewrite length_seq in Hbuilt. auto. }
  set (wB := with_heap (heap wA ++ news) wA) in *.
  assert (HokA : heap_ok wA) by exact Hok.
  assert (HokB : heap_ok wB) by (apply heap_ok_app; assumption).
  set (bs := seq (length (heap wA)) (length (seq 0 (trt.num_io_tensors e)))) in *.
  assert (Hrefs : Forall (fun r => is_Some (heap wB !! r)) bs).
  { apply Forall_lookup. intros i r0 Hi. subst bs. rewrite length_seq in Hi.
    destruct (seq_lookup_app (heap wA) news _ i r0 Hlen Hi) as (-> & Hl & Hlt).
    cbn. cbn in Hl. rewrite Hl. apply lookup_lt_is_Some_2. lia. }
  rewrite bind_unfold.
  destruct (comprehension_device_buffer bs wB HokB Hrefs)
    as (addrs & wC & evsC & HC & HleC & HlenC & HokC & HnC & HcC & HqC & HtC
          & HaC & HreadyC & Haddrs).
  rewrite HC.
  assert (HrefsC : Forall (fun r => is_Some (heap wC !! r)) bs).
  { eapply Forall_impl; [exact HreadyC|]. intros r0 (b & ? & Hb & _). eauto. }
  rewrite bind_unfold, (filter_objects_spec _ _ _ HrefsC).
  rewrite bind_unfold, (filter_objects_spec _ _ _ HrefsC).
  set (ins := List.filter _ bs) at 1.
  set (outs := List.filter _ bs) at 1.
  set (self' := mk_TensorRTEngine _ _ _ _ _ _ _ _ _ _).
  assert (Hprep : prepare_buffers self' m wC = (inr tt, wC)).
  { unfold prepare_buffers, dict_get. subst self'. cbn.
    rewrite !lookup_insert_eq, !bind_mret.
    apply for_each_device_buffer, Forall_app.
    split; apply Forall_filter_list, HreadyC. }
  rewrite bind_unfold, Hprep.
  exists e, self', wC. conjs; try reflexivity.
  rewrite HtC. cbn. rewrite !in_app_iff. left. left. right. left. reflexivity.
Qed.

Lemma initialize_engines_outcome env paths :
  forall self w,
    tables_ready self w -> heap_ok w ->
    (forall m path, In (m, path) paths -> load_error env path = None) ->
    exists self' w',
      for_fold paths self (initialize_engine env) w = (inr self', w') /\
      (NoDup (map fst paths) ->
       forall m path,
         In (m, path) paths ->
         exists e, read_engine env path = inr (Some e) /\
                   engines self' !! m = Some e) /\
      (forall m, ~ In m (map fst paths) ->
                 engines self' !! m = engines self !! m).
Proof.
  induction paths as [|[m0 p0] paths IH]; intros self w Htab Hok Hload.
  - exists self, w. conjs; [reflexivity| |reflexivity].
    intros _ m path [].
  - cbn [for_fold]. rewrite bind_unfold.
    pose proof (initialize_engine_outcome env self m0 p0 w Htab Hok) as H0.
    rewrite (Hload m0 p0 (or_introl eq_refl)) in H0.
    destruct H0 as (e0 & self1 & w1 & Hread & Hrun & Heng & Hdes). rewrite Hrun.
    destruct (initialize_engine_spec env self m0 p0 w _ _ Htab Hok Hrun)
      as (_ & _ & Hs).
    destruct (Hs self1 eq_refl) as (Htab1 & Hok1 & _).
    destruct (IH self1 w1 Htab1 Hok1) as (self' & w' & Hfold & Hin & Hout).
    { intros m path Hmp. apply (Hload m path). right. exact Hmp. }
    exists self', w'. conjs; [exact Hfold| |].
    + intros Hnd m path [Hhd|Htl].
      * injection Hhd as <- <-. exists e0. split; [exact Hread|].
        apply NoDup_cons in Hnd as [Hnot _].
        rewrite Hout, Heng; [apply lookup_insert_eq|].
        intros Hm. apply Hnot. apply list_elem_of_In. exact Hm.
      * apply NoDup_cons in Hnd as [_ Hnd]. apply (Hin Hnd m path Htl).
    + intros m Hm. rewrite Hout, Heng.
      * apply lookup_insert_ne. intros ->. apply Hm. left. reflexivity.
      * intros Hm'. apply Hm. right. exact Hm'.
Qed.

Lemma initialize_engines_failure env before :
  forall self w m path after ex,
    tables_ready self w -> heap_ok w ->
    (forall m' path', In (m', path') before -> load_error env path' = None) ->
    load_error env path = Some ex ->
    exists w',
      for_fold (before ++ (m, path) :: after) self (initialize_engine env) w
      = (inl ex, w') /\
      forall m' path', In (m', path') before ->
                       In (EvDeserialize path') (trace w').
Proof.
  induction before as [|[m0 p0] before IH];
    intros self w m path after ex Htab Hok Hload Hfail;
    cbn [app for_fold]; rewrite bind_unfold.
  - pose proof (initialize_engine_outcome env self m path w Htab Hok) as H0.
    rewrite Hfail in H0. destruct H0 as [w' ->]. exists w'.
    split; [reflexivity|]. intros m' path' [].
  - pose proof (initialize_engine_outcome env self m0 p0 w Htab Hok) as H0.
    rewrite (Hload m0 p0 (or_introl eq_refl)) in H0.
    destruct H0 as (e0 & self1 & w1 & Hread & Hrun & Heng & Hdes). rewrite Hrun.
    destruct (initialize_engine_spec env self m0 p0 w _ _ Htab Hok Hrun)
      as (_ & _ & Hs).
    destruct (Hs self1 eq_refl) as (Htab1 & Hok1 & _).
    destruct (IH self1 w1 m path after ex Htab1 Hok1) as (w' & Hfold & Hin);
      [|exact Hfail|].
    { intros m' path' Hmp. apply (Hload m' path'). right. exact Hmp. }
    exists w'. split; [exact Hfold|].
    intros m' path' [Hhd|Htl]; [|apply (Hin m' path' Htl)].
    injection Hhd as <- <-.
    destruct (initialize_engines_spec env _ self1 w1 _ _ Htab1 Hok1 Hfold)
      as ((evs & -> & _) & _).
    apply in_app_iff. left. exact Hdes.
Qed.

Lemma configured_names half kwargs :
  first_missing kwargs (path_keys half) = None ->
  map fst (configured half kwargs) = model_names.
Proof.
  intros Hp.
  destruct (read_paths_spec half kwargs Demo.boot _ _
              (read_paths_found half kwargs Demo.boot Hp)) as [_ Hnames].
  apply Hnames. reflexivity.
Qed.

Lemma model_names_NoDup : NoDup model_names.
Proof. apply (bool_decide_unpack _). vm_compute. reflexivity. Qed.

(** Construction up to the loop over the models. *)
Lemma init_reaches_engines env half kwargs plugin w :
  first_missing kwargs (path_keys half) = None ->
  kwargs !! "grid_sample_3d" = Some plugin ->
  dlopen env plugin = None ->
  __init__ env half kwargs w
  = for_fold (configured half kwargs)
      (mk_TensorRTEngine kwargs (configured half kwargs) plugin ∅ ∅ ∅ ∅ ∅ ∅
                         (next_addr w))
      (initialize_engine env)
      (logged [EvStreamCreate (next_addr w)]
              (bump 1 (logged [EvDlopen plugin; EvInitPlugins] w))).
Proof.
  intros Hp Hplugin Hdl.
  rewrite init_unfold, bind_unfold, (read_paths_found _ _ _ Hp).
  rewrite bind_unfold, dict_get_spec, Hplugin.
  rewrite bind_unfold, load_plugins_spec, Hdl.
  rewrite bind_unfold, cuda_Stream_spec. reflexivity.
Qed.

Lemma init_world_ok plugin w :
  heap_ok w ->
  heap_ok (logged [EvStreamCreate (next_addr w)]
                  (bump 1 (logged [EvDlopen plugin; EvInitPlugins] w))) /\
  forall kwargs paths st,
    tables_ready
      (mk_TensorRTEngine kwargs paths plugin ∅ ∅ ∅ ∅ ∅ ∅ st)
      (logged [EvStreamCreate (next_addr w)]
              (bump 1 (logged [EvDlopen plugin; EvInitPlugins] w))).
Proof.
  intros Hok. split.
  - apply (heap_ok_mono w); [reflexivity|cbn; lia|exact Hok].
  - intros kwargs paths st m. cbn. rewrite !lookup_empty. reflexivity.
Qed.

(** X15.  Construction succeeds when the configuration has the keys of the
    chosen precision and of the plugin, the plugin library loads, and each
    configured file opens, deserializes, and has only tensors with a name
    and a type of the table of [Binding].  The manager then keeps the
    configuration, the paths by model, the plugin path and its stream; it
    has the engine of the configured file under each of the six model names,
    and no other engine; and its tables are in place for every one of
    them. *)
Theorem construction_succeeds env half kwargs plugin w :
  heap_ok w ->
  first_missing kwargs (path_keys half) = None ->
  kwargs !! "grid_sample_3d" = Some plugin ->
  dlopen env plugin = None ->
  (forall m path,
     In (m, path) (configured half kwargs) -> load_error env path = None) ->
  exists self w',
    __init__ env half kwargs w = (inr self, w') /\
    cfg self = kwargs /\ model_paths self = configured half kwargs /\
    plugin_path self = plugin /\ stream self = next_addr w /\
    map fst (model_paths self) = model_names /\
    (forall m path,
       In (m, path) (configured half kwargs) ->
       exists e, read_engine env path = inr (Some e) /\
                 engines self !! m = Some e) /\
    (forall m, ~ In m model_names -> engines self !! m = None) /\
    tables_ready self w'.
Proof.
  intros Hok Hp Hplugin Hdl Hload.
  rewrite (init_reaches_engines env half kwargs plugin w Hp Hplugin Hdl).
  destruct (init_world_ok plugin w Hok) as [Hok2 Htab0].
  set (w2 := logged _ _) in *.
  set (self0 := mk_TensorRTEngine _ _ _ _ _ _ _ _ _ _).
  specialize (Htab0 kwargs (configured half kwargs) (next_addr w)).
  fold self0 in Htab0.
  destruct (initialize_engines_outcome env (configured half kwargs) self0 w2
              Htab0 Hok2 Hload) as (self & w' & Hfold & Hin & Hout).
  destruct (initialize_engines_spec env _ self0 w2 _ _ Htab0 Hok2 Hfold)
    as (_ & _ & Hs).
  destruct (Hs self eq_refl) as (Htab & _ & Hcfg & Hpaths & Hpp & Hst & _).
  exists self, w'. split; [exact Hfold|].
  pose proof (configured_names half kwargs Hp) as Hnames.
  conjs; try assumption.
  - rewrite Hpaths. exact Hnames.
  - apply Hin. rewrite Hnames. exact model_names_NoDup.
  - intros m Hm. rewrite Hout; [apply lookup_empty|].
    rewrite Hnames. exact Hm.
Qed.

(** The installation of the demonstration. *)
Lemma construction_succeeds_witness :
  exists self w',
    __init__ Demo.healthy false Demo.kwargs Demo.boot = (inr self, w') /\
    cfg self = Demo.kwargs /\
    model_paths self = configured false Demo.kwargs /\
    plugin_path self = "libgrid_sample_3d_plugin.so" /\
    stream self = next_addr Demo.boot /\
    map fst (model_paths self) = model_names /\
    (forall m path,
       In (m, path) (configured false Demo.kwargs) ->
       exists e, read_engine Demo.healthy path = inr (Some e) /\
                 engines self !! m = Some e) /\
    (forall m, ~ In m model_names -> engines self !! m = None) /\
    tables_ready self w'.
Proof.
  refine (construction_succeeds Demo.healthy false Demo.kwargs
            "libgrid_sample_3d_plugin.so" Demo.boot demo_boot_ok _ _ _ _).
  - vm_compute. reflexivity.
  - vm_compute. reflexivity.
  - reflexivity.
  - intros m path Hin. vm_compute in Hin.
    repeat (destruct Hin as [Hin|Hin];
            [injection Hin as <- <-; vm_compute; reflexivity|]).
    contradiction.
Defined.

(** X16.  Construction stops at the first model, in the order of the dict
    of paths, whose file does not open or does not deserialize, or one of
    whose tensors has no name or no type in the table of [Binding]:
    [__init__] raises the exception of that failure and returns no manager.
    The files of the models before it have been deserialized by then. *)
Theorem unloadable_engine_stops_construction
    env half kwargs plugin before m path after ex w :
  heap_ok w ->
  first_missing kwargs (path_keys half) = None ->
  kwargs !! "grid_sample_3d" = Some plugin ->
  dlopen env plugin = None ->
  configured half kwargs = before ++ (m, path) :: after ->
  (forall m' path', In (m', path') before -> load_error env path' = None) ->
  load_error env path = Some ex ->
  exists w',
    __init__ env half kwargs w = (inl ex, w') /\
    forall m' path', In (m', path') before ->
                     In (EvDeserialize path') (trace w').
Proof.
  intros Hok Hp Hplugin Hdl Hconf Hload Hfail.
  rewrite (init_reaches_engines env half kwargs plugin w Hp Hplugin Hdl).
  destruct (init_world_ok plugin w Hok) as [Hok2 Htab0].
  set (w2 := logged _ _) in *.
  set (self0 := mk_TensorRTEngine _ _ _ _ _ _ _ _ _ _).
  specialize (Htab0 kwargs (configured half kwargs) (next_addr w)).
  fold self0 in Htab0. rewrite Hconf.
  apply initialize_engines_failure; assumption.
Qed.

(** The file of the third model cannot be opened. *)
Lemma unloadable_engine_stops_construction_witness :
  exists w',
    __init__ no_generator false Demo.kwargs Demo.boot
    = (inl (OSError (msg_foreign "No such file or directory")), w') /\
    forall m' path',
      In (m', path')
         [("feature_extractor", "F.engine"); ("motion_extractor", "M.engine")] ->
      In (EvDeserialize path') (trace w').
Proof.
  refine (unloadable_engine_stops_construction no_generator false Demo.kwargs
            "libgrid_sample_3d_plugin.so"
            [("feature_extractor", "F.engine"); ("motion_extractor", "M.engine")]
            "generator" "GW.engine"
            [("stitching_retargeting", "S.engine");
             ("stitching_retargeting_eye", "SE.engine");
             ("stitching_retargeting_lip", "SL.engine")]
            (OSError (msg_foreign "No such file or directory"))
            Demo.boot demo_boot_ok _ _ _ _ _ _).
  - vm_compute. reflexivity.
  - vm_compute. reflexivity.
  - reflexivity.
  - vm_compute. reflexivity.
  - intros m path Hin.
    repeat (destruct Hin as [Hin|Hin];
            [injection Hin as <- <-; vm_compute; reflexivity|]).
    contradiction.
  - vm_compute. reflexivity.
Defined.

(** ** A manager between calls *)

(** X17.  On a constructed manager [prepare_buffers] finds every buffer of
    the model in place: it allocates nothing and leaves the world as it
    was.  For a name that is not a loaded model it raises [KeyError] with
    that name. *)
Theorem prepare_buffers_finds_buffers_in_place self m w :
  ready self w ->
  prepare_buffers self m w
  = (match engines self !! m with
     | Some _ => inr tt
     | None => inl (KeyError m)
     end, w).
Proof.
  intros (Htab & _ & _). specialize (Htab m). unfold prepare_buffers.
  rewrite bind_unfold, dict_get_spec.
  destruct (engines self !! m) as [e|].
  - destruct Htab as (c & ctx & bs & _ & _ & _ & _ & _ & -> & Houts & Hready & _).
    rewrite bind_unfold, dict_get_spec, Houts.
    apply for_each_device_buffer, Forall_app.
    split; apply Forall_filter_list, Hready.
  - rewrite Htab. reflexivity.
Qed.

Lemma prepare_buffers_finds_buffers_in_place_witness :
  prepare_buffers Demo.manager "generator" Demo.world = (inr tt, Demo.world).
Proof.
  exact (prepare_buffers_finds_buffers_in_place Demo.manager "generator"
           Demo.world demo_manager_ready).
Defined.

(** X18.  Whatever a call of [inference_tensorrt] does, whether it returns
    arrays, reports a failure of the device or raises, the manager is left
    ready for the next call: its tables still describe the bindings and the
    contexts, the stream is drained, no binding has changed, and neither
    device nor pinned host memory has been allocated. *)
Theorem inference_keeps_the_manager_ready env self task inputs_arg w r w' :
  ready self w ->
  inference_tensorrt env self task inputs_arg w = (r, w') ->
  ready self w' /\ heap w' = heap w /\
  exists evs,
    trace w' = trace w ++ evs /\
    forallb (fun ev => negb (is_alloc_event ev)) evs = true.
Proof.
  intros Hready Hrun.
  assert (Hsame : forall addr,
            next_addr w <= addr ->
            ready self (at_addr addr w) /\ heap (at_addr addr w) = heap w /\
            exists evs,
              trace (at_addr addr w) = trace w ++ evs /\
              forallb (fun ev => negb (is_alloc_event ev)) evs = true).
  { intros addr Hle. conjs; [apply ready_at_addr; assumption|reflexivity|].
    exists []. rewrite app_nil_r. split; reflexivity. }
  assert (Hw : at_addr (next_addr w) w = w) by (destruct w; reflexivity).
  destruct inputs_arg as [l|d].
  2:{ injection Hrun as _ <-. rewrite <- Hw. apply Hsame. lia. }
  destruct (inputs self !! task) as [ins|] eqn:Hins.
  2:{ unfold inference_tensorrt in Hrun. rewrite Hins in Hrun.
      injection Hrun as _ <-. rewrite <- Hw. apply Hsame. lia. }
  rewrite (inference_unfold env _ _ _ _ _ Hins) in Hrun.
  pose proof (prevalidated_addr (heap w) ins l 0 (next_addr w)) as Hle.
  destruct (prevalidated (heap w) ins 0 l (next_addr w)) as [[ex|l'] addr];
    cbn [snd] in Hle.
  - injection Hrun as _ <-. apply Hsame. exact Hle.
  - pose proof (ready_at_addr _ _ _ Hready Hle) as Hready1.
    destruct (run_keeps_ready _ _ _ _ _ _ _ Hready1 Hrun) as (Hr & Hh & _).
    destruct (run_events _ _ _ _ _ _ _ Hready1 Hrun) as (evs & Ht & Ha & _).
    conjs; [exact Hr|exact Hh|]. exists evs. split; [exact Ht|exact Ha].
Qed.

(** A call whose device fails at synchronization. *)
Lemma inference_keeps_the_manager_ready_witness :
  ready Demo.manager
    (inference_tensorrt Demo.failing_sync Demo.manager "feature_extractor"
       (InList [Demo.x_ok; Demo.y_ok]) Demo.world).2.
Proof.
  refine (proj1 (inference_keeps_the_manager_ready Demo.failing_sync
                   Demo.manager "feature_extractor"
                   (InList [Demo.x_ok; Demo.y_ok]) Demo.world
                   (inference_tensorrt Demo.failing_sync Demo.manager
                      "feature_extractor" (InList [Demo.x_ok; Demo.y_ok])
                      Demo.world).1
                   _ demo_manager_ready _)).
  vm_compute. reflexivity.
Defined.

(** ** The foreign calls of a call *)

Lemma fetches_length h refs :
  forall addr, length (fetches h addr refs) = length refs.
Proof.
  induction refs as [|r refs IH]; intros addr; [reflexivity|].
  cbn. rewrite IH. reflexivity.
Qed.

Lemma fetches_dtoh h refs :
  forall addr, forallb is_dtoh (fetches h addr refs) = true.
Proof.
  induction refs as [|r refs IH]; intros addr; [reflexivity|].
  cbn. apply IH.
Qed.

(** X19.  The foreign calls of a call that returns, in order: one
    host-to-device copy for each input binding, one [set_tensor_address] for
    each tensor of the engine, the submission and the synchronization, and
    then, when neither failed, one device-to-host copy for each output
    binding and one array for each in the result.  When the submission or
    the synchronization failed, the failure is printed and nothing is copied
    back. *)
Theorem foreign_calls_of_a_call env self m e inputs_arg w v w' :
  ready self w ->
  engines self !! m = Some e ->
  run_sequential_tasks env self m inputs_arg w = (inr v, w') ->
  exists c bs l sent launch received,
    contexts self !! m = Some c /\ bindings self !! m = Some bs /\
    resolve (heap w) (input_refs (heap w) bs) inputs_arg = inr l /\
    trace w'
    = trace w ++ sent ++ binds e c (device_ptr (heap w) <$> bs) l
      ++ launch ++ received /\
    Forall2 (copy_of (heap w)) (zip l (input_refs (heap w) bs)) sent /\
    length sent = length (input_refs (heap w) bs) /\
    length (binds e c (device_ptr (heap w) <$> bs) l) = trt.num_io_tensors e /\
    match v with
    | VList items =>
        launch = [EvExecuteAsync c false; EvSynchronize false] /\
        forallb is_dtoh received = true /\
        length received = length (output_refs (heap w) bs) /\
        length items = length (output_refs (heap w) bs)
    | _ =>
        received = [] /\
        exists ex,
          launch = [EvExecuteAsync c true; EvPrint m ex] \/
          launch = [EvExecuteAsync c false; EvSynchronize true; EvPrint m ex]
    end.
Proof.
  intros Hready He Hrun.
  destruct (run_path_of_ready env self m e inputs_arg w Hready He)
    as (c & ctx & bs & Hc & Hctx & Hce & Hbs & _ & _ & _ & Hdesc & Hlen & Hpath).
  rewrite Hrun in Hpath.
  assert (Hsent : forall l sent,
            length l = length (input_refs (heap w) bs) ->
            Forall2 (copy_of (heap w)) (zip l (input_refs (heap w) bs)) sent ->
            length sent = length (input_refs (heap w) bs)).
  { intros l sent Hl H2. apply Forall2_length in H2.
    rewrite <- H2, (zip_length _ _ Hl). exact Hl. }
  assert (Hbinds : forall l,
            length (binds e c (device_ptr (heap w) <$> bs) l)
            = trt.num_io_tensors e).
  { intros l. unfold binds. rewrite length_map, length_seq. reflexivity. }
  inversion Hpath; subst.
  - exists c, bs, l, evs, (failure_events m c ex at_submission), [].
    conjs; try assumption; try reflexivity; try apply Hbinds;
      try (rewrite app_nil_r; assumption);
      try (eapply Hsent; eassumption).
    exists ex. destruct at_submission; [left|right]; reflexivity.
  - exists c, bs, l, evs, [EvExecuteAsync c false; EvSynchronize false],
      (fetches (heap w) (next_addr w1) (output_refs (heap w) bs)).
    conjs; try assumption; try reflexivity; try apply Hbinds;
      try (eapply Hsent; eassumption).
    + apply fetches_dtoh.
    + apply fetches_length.
    + rewrite length_fmap. apply fetched_length.
Qed.

(** The two valid arrays of the first model, on a device that works. *)
Lemma foreign_calls_of_a_call_witness :
  exists c bs l sent launch received,
    contexts Demo.manager !! "feature_extractor" = Some c /\
    bindings Demo.manager !! "feature_extractor" = Some bs /\
    resolve (heap Demo.world) (input_refs (heap Demo.world) bs)
            (InList [Demo.x_ok; Demo.y_ok]) = inr l /\
    trace (run_sequential_tasks Demo.healthy Demo.manager "feature_extractor"
             (InList [Demo.x_ok; Demo.y_ok]) Demo.world).2
    = trace Demo.world ++ sent
      ++ binds Demo.pair_engine c (device_ptr (heap Demo.world) <$> bs) l
      ++ launch ++ received /\
    Forall2 (copy_of (heap Demo.world))
            (zip l (input_refs (heap Demo.world) bs)) sent /\
    length sent = length (input_refs (heap Demo.world) bs) /\
    length (binds Demo.pair_engine c (device_ptr (heap Demo.world) <$> bs) l)
    = trt.num_io_tensors Demo.pair_engine /\
    launch = [EvExecuteAsync c false; EvSynchronize false] /\
    forallb is_dtoh received = true /\
    length received = length (output_refs (heap Demo.world) bs) /\
    length [VArray (np.mk_ndarray 18 np.float32 [2] [0; 0])]
    = length (output_refs (heap Demo.world) bs).
Proof.
  refine (foreign_calls_of_a_call Demo.healthy Demo.manager
            "feature_extractor" Demo.pair_engine
            (InList [Demo.x_ok; Demo.y_ok]) Demo.world
            (VList [VArray (np.mk_ndarray 18 np.float32 [2] [0; 0])])
            (run_sequential_tasks Demo.healthy Demo.manager
               "feature_extractor" (InList [Demo.x_ok; Demo.y_ok])
               Demo.world).2
            demo_manager_ready _ _).
  - vm_compute. reflexivity.
  - vm_compute. reflexivity.
Defined.

(** ** Several managers in one process *)

Lemma contexts_le_trans c1 c2 c3 :
  contexts_le c1 c2 -> contexts_le c2 c3 -> contexts_le c1 c3.
Proof.
  intros H12 H23 i x Hx.
  destruct (H12 i x Hx) as (y & Hy & Hey).
  destruct (H23 i y Hy) as (z & Hz & Hez).
  exists z. split; [exact Hz|congruence].
Qed.

(** What a world may become while the driver works: bindings and contexts
    are added or given their buffers and addresses, nothing is in flight. *)
Lemma initialize_engine_grows env self m path w r w' :
  heap_ok w ->
  initialize_engine env self (m, path) w = (r, w') ->
  heap_le (heap w) (heap w') /\
  contexts_le (context_heap w) (context_heap w') /\
  heap_ok w' /\ stream_queue w' = stream_queue w.
Proof.
  intros Hok Hrun. unfold initialize_engine in Hrun.
  assert (Hsame : heap_le (heap w) (heap w) /\
                  contexts_le (context_heap w) (context_heap w) /\
                  heap_ok w /\ stream_queue w = stream_queue w).
  { conjs; [apply heap_le_refl|apply contexts_le_refl|exact Hok|reflexivity]. }
  rewrite bind_unfold, load_engine_spec in Hrun.
  destruct (read_engine env path) as [ex|loaded].
  { injection Hrun as <- <-. exact Hsame. }
  rewrite bind_unfold, create_execution_context_spec in Hrun.
  destruct loaded as [e|].
  2:{ injection Hrun as <- <-. exact Hsame. }
  cbv beta iota in Hrun.
  set (wA := with_context e (logged [EvDeserialize path] w)) in Hrun.
  rewrite bind_unfold in Hrun.
  destruct (comprehension (seq 0 (trt.num_io_tensors e)) (Binding_init e) wA)
    as [[ex|bs] wB] eqn:HB;
    destruct (comprehension_Binding_init _ _ _ _ _ HB) as (news & -> & Hnone & Hbs).
  { injection Hrun as <- <-. conjs.
    - apply (heap_le_app (heap w) news).
    - apply (contexts_le_app (context_heap w)).
    - apply (heap_ok_app wA); [exact Hok|exact Hnone].
    - reflexivity. }
  destruct (Hbs bs eq_refl) as (-> & Hbuilt). clear Hbs.
  assert (Hlen : length news = trt.num_io_tensors e).
  { apply Forall2_length in Hbuilt. rewrite length_seq in Hbuilt. auto. }
  set (wB := with_heap (heap wA ++ news) wA) in *.
  assert (HokA : heap_ok wA) by exact Hok.
  assert (HokB : heap_ok wB) by (apply heap_ok_app; assumption).
  set (bs := seq (length (heap wA)) (length (seq 0 (trt.num_io_tensors e)))) in *.
  assert (Hrefs : Forall (fun r => is_Some (heap wB !! r)) bs).
  { apply Forall_lookup. intros i r0 Hi. subst bs. rewrite length_seq in Hi.
    destruct (seq_lookup_app (heap wA) news _ i r0 Hlen Hi) as (-> & Hl & Hlt).
    cbn. cbn in Hl. rewrite Hl. apply lookup_lt_is_Some_2. lia. }
  rewrite bind_unfold in Hrun.
  destruct (comprehension_device_buffer bs wB HokB Hrefs)
    as (addrs & wC & evsC & HC & HleC & HlenC & HokC & HnC & HcC & HqC & HtC
          & HaC & HreadyC & Haddrs).
  rewrite HC in Hrun.
  assert (HrefsC : Forall (fun r => is_Some (heap wC !! r)) bs).
  { eapply Forall_impl; [exact HreadyC|]. intros r0 (b & ? & Hb & _). eauto. }
  rewrite bind_unfold, (filter_objects_spec _ _ _ HrefsC) in Hrun.
  rewrite bind_unfold, (filter_objects_spec _ _ _ HrefsC) in Hrun.
  set (ins := List.filter _ bs) in Hrun at 1.
  set (outs := List.filter _ bs) in Hrun at 1.
  set (self' := mk_TensorRTEngine _ _ _ _ _ _ _ _ _ _) in Hrun.
  assert (Hprep : prepare_buffers self' m wC = (inr tt, wC)).
  { unfold prepare_buffers, dict_get. subst self'. cbn.
    rewrite !lookup_insert_eq, !bind_mret.
    apply for_each_device_buffer, Forall_app.
    split; apply Forall_filter_list, HreadyC. }
  rewrite bind_unfold, Hprep in Hrun. injection Hrun as <- <-.
  conjs.
  - eapply heap_le_trans; [|exact HleC]. apply (heap_le_app (heap w) news).
  - rewrite HcC. apply (contexts_le_app (context_heap w)).
  - exact HokC.
  - rewrite HqC. reflexivity.
Qed.

Lemma initialize_engines_grow env paths :
  forall self w r w',
    heap_ok w ->
    for_fold paths self (initialize_engine env) w = (r, w') ->
    heap_le (heap w) (heap w') /\
    contexts_le (context_heap w) (context_heap w') /\
    heap_ok w' /\ stream_queue w' = stream_queue w.
Proof.
  induction paths as [|[m path] paths IH]; intros self w r w' Hok Hrun.
  - injection Hrun as <- <-.
    conjs; [apply heap_le_refl|apply contexts_le_refl|exact Hok|reflexivity].
  - cbn [for_fold] in Hrun. rewrite bind_unfold in Hrun.
    destruct (initialize_engine env self (m, path) w) as [[ex|self1] w1] eqn:H1;
      destruct (initialize_engine_grows _ _ _ _ _ _ _ Hok H1)
        as (Hh1 & Hc1 & Hok1 & Hq1).
    + injection Hrun as <- <-. conjs; assumption.
    + destruct (IH self1 w1 r w' Hok1 Hrun) as (Hh & Hc & Hok' & Hq).
      conjs; [eapply heap_le_trans; eassumption
             |eapply contexts_le_trans; eassumption
             |exact Hok'|congruence].
Qed.

Lemma init_grows env half kwargs w r w' :
  heap_ok w ->
  __init__ env half kwargs w = (r, w') ->
  heap_le (heap w) (heap w') /\
  contexts_le (context_heap w) (context_heap w') /\
  heap_ok w' /\ stream_queue w' = stream_queue w.
Proof.
  intros Hok Hrun.
  assert (Hsame : forall evs,
            heap_le (heap w) (heap (logged evs w)) /\
            contexts_le (context_heap w) (context_heap (logged evs w)) /\
            heap_ok (logged evs w) /\
            stream_queue (logged evs w) = stream_queue w).
  { intros evs. conjs; [apply heap_le_refl|apply contexts_le_refl| |reflexivity].
    apply (heap_ok_mono w); [reflexivity|cbn; lia|exact Hok]. }
  assert (Hw : logged [] w = w)
    by (destruct w; unfold logged; simpl; f_equal; apply app_nil_r).
  rewrite init_unfold, bind_unfold in Hrun.
  destruct (read_paths half kwargs w) as [[ex|paths] w0] eqn:Hp;
    destruct (read_paths_spec _ _ _ _ _ Hp) as (-> & Hnames).
  { injection Hrun as <- <-. rewrite <- Hw. apply Hsame. }
  rewrite bind_unfold, dict_get_spec in Hrun.
  destruct (kwargs !! "grid_sample_3d") as [plugin|].
  2:{ injection Hrun as <- <-. rewrite <- Hw. apply Hsame. }
  rewrite bind_unfold, load_plugins_spec in Hrun.
  destruct (dlopen env plugin) as [ex|].
  { injection Hrun as <- <-. apply Hsame. }
  rewrite bind_unfold, cuda_Stream_spec in Hrun.
  destruct (init_world_ok plugin w Hok) as [Hok2 _].
  unfold initialize_engines in Hrun.
  exact (initialize_engines_grow env _ _ _ _ _ Hok2 Hrun).
Qed.

Lemma run_grows env self m inputs_arg w r w' :
  ready self w ->
  run_sequential_tasks env self m inputs_arg w = (r, w') ->
  heap w' = heap w /\ next_addr w <= next_addr w' /\ stream_queue w' = [] /\
  contexts_le (context_heap w) (context_heap w').
Proof.
  intros Hready Hrun.
  destruct (engines self !! m) as [e|] eqn:He.
  2:{ unfold run_sequential_tasks in Hrun. rewrite He in Hrun.
      injection Hrun as <- <-. destruct Hready as (_ & Hq & _).
      conjs; [reflexivity|lia|exact Hq|apply contexts_le_refl]. }
  destruct (run_path_of_ready env self m e inputs_arg w Hready He)
    as (c & ctx & bs & Hcm & Hctx & Hce & _ & _ & _ & _ & _ & _ & Hpath).
  rewrite Hrun in Hpath.
  destruct Hready as (Htab & Hq & Hok).
  inversion Hpath; subst.
  - repeat split; [lia | exact Hq | apply contexts_le_refl].
  - repeat split; [lia | exact Hq | apply contexts_le_refl].
  - repeat split; try assumption; [congruence|].
    match goal with H : context_heap w' = _ |- _ => rewrite H end.
    apply contexts_le_refl.
  - repeat split; try assumption; [lia|].
    match goal with H : context_heap w' = _ |- _ => rewrite H end.
    eapply contexts_le_insert; [exact Hctx | reflexivity].
  - repeat split; try assumption; [lia|].
    match goal with H : context_heap w' = _ |- _ => rewrite H end.
    eapply contexts_le_insert; [exact Hctx | reflexivity].
Qed.

Lemma init_keeps_ready env half kwargs self w r w' :
  ready self w ->
  __init__ env half kwargs w = (r, w') ->
  ready self w' /\
  forall self', r = inr self' -> ready self' w'.
Proof.
  intros (Htab & Hq & Hok) Hrun.
  destruct (init_grows _ _ _ _ _ _ Hok Hrun) as (Hh & Hc & Hok' & Hq').
  destruct (init_spec _ _ _ _ _ _ Hok Hrun) as (_ & _ & Hs).
  split.
  - split; [|split; [congruence|exact Hok']].
    eapply tables_ready_mono; [exact Hh|exact Hc|exact Htab].
  - intros self' ->. destruct (Hs self' eq_refl) as (Htab' & _ & _).
    split; [exact Htab'|split; [congruence|exact Hok']].
Qed.

Lemma second_constructed_eq :
  __init__ Demo.healthy false Demo.kwargs Demo.world
  = (inr second_manager, second_world).
Proof. vm_compute. reflexivity. Qed.

Lemma second_managers_ready :
  ready Demo.manager second_world /\ ready second_manager second_world.
Proof.
  destruct (init_keeps_ready _ _ _ _ _ _ _ demo_manager_ready
              second_constructed_eq) as [H1 H2].
  split; [exact H1|apply H2; reflexivity].
Qed.

(** X20.  Constructing a manager does not disturb the managers that exist:
    whether the construction succeeds or raises, a manager that was ready is
    still ready, and a manager that the construction returns is ready
    too. *)
Theorem construction_keeps_other_managers_ready
    env half kwargs self w r w' :
  ready self w ->
  __init__ env half kwargs w = (r, w') ->
  ready self w' /\
  forall self', r = inr self' -> ready self' w'.
Proof. exact (init_keeps_ready env half kwargs self w r w'). Qed.

(** A construction that fails at the third model, next to the manager of
    the demonstration. *)
Lemma construction_keeps_other_managers_ready_witness :
  ready Demo.manager
    (__init__ no_generator false Demo.kwargs Demo.world).2.
Proof.
  refine (proj1 (construction_keeps_other_managers_ready no_generator false
                   Demo.kwargs Demo.manager Demo.world
                   (__init__ no_generator false Demo.kwargs Demo.world).1
                   _ demo_manager_ready _)).
  vm_compute. reflexivity.
Defined.

(** X21.  A call on one manager does not disturb another: whatever the call
    does, every other manager that was ready is still ready, and no binding
    of the process has changed. *)
Theorem calls_keep_other_managers_ready
    env self other m inputs_arg w r w' :
  ready self w ->
  ready other w ->
  run_sequential_tasks env self m inputs_arg w = (r, w') ->
  ready other w' /\ heap w' = heap w.
Proof.
  intros Hself (Htab & Hq & Hok) Hrun.
  destruct (run_grows _ _ _ _ _ _ _ Hself Hrun) as (Hh & Hn & Hq' & Hc).
  split; [|exact Hh].
  split; [|split; [exact Hq'|]].
  - apply (tables_ready_mono other w w');
      [rewrite Hh; apply heap_le_refl | exact Hc | exact Htab].
  - apply (heap_ok_mono w w' Hh Hn Hok).
Qed.

(** A call on the second manager, next to the first. *)
Lemma calls_keep_other_managers_ready_witness :
  ready Demo.manager
    (run_sequential_tasks Demo.failing_sync second_manager "generator"
       (InList [Demo.x_ok; Demo.y_ok]) second_world).2 /\
  heap (run_sequential_tasks Demo.failing_sync second_manager "generator"
          (InList [Demo.x_ok; Demo.y_ok]) second_world).2
  = heap second_world.
Proof.
  refine (calls_keep_other_managers_ready Demo.failing_sync second_manager
            Demo.manager "generator" (InList [Demo.x_ok; Demo.y_ok])
            second_world
            (run_sequential_tasks Demo.failing_sync second_manager "generator"
               (InList [Demo.x_ok; Demo.y_ok]) second_world).1
            _ (proj2 second_managers_ready) (proj1 second_managers_ready) _).
  vm_compute. reflexivity.
Defined.

(** * The download of the checkpoints *)

(** ** Strings *)

Lemma str_split_nonempty sep s : str_split sep s <> [].
Proof.
  destruct s as [|c s]; cbn; [discriminate|].
  destruct (Ascii.eqb c sep); [discriminate|].
  destruct (str_split sep s); discriminate.
Qed.

Lemma append_nil_l s : EmptyString +:+ s = s.
Proof. reflexivity. Qed.

Lemma append_cons c a s : String c a +:+ s = String c (a +:+ s).
Proof. reflexivity. Qed.

Lemma str_split_app sep a b :
  str_split sep (a +:+ String sep b) = str_split sep a ++ str_split sep b.
Proof.
  induction a as [|c a IH]; rewrite ?append_nil_l, ?append_cons; cbn.
  - rewrite Ascii.eqb_refl. reflexivity.
  - destruct (Ascii.eqb c sep); [rewrite IH; reflexivity|].
    rewrite IH.
    destruct (str_split sep a) as [|piece pieces] eqn:Ha; [|reflexivity].
    exfalso. exact (str_split_nonempty sep a Ha).
Qed.

Lemma str_split_none sep s : contains sep s = false -> str_split sep s = [s].
Proof.
  induction s as [|c s IH]; cbn; [reflexivity|].
  intros H. apply orb_false_iff in H as [Hc Hs].
  rewrite Hc, (IH Hs). reflexivity.
Qed.

Lemma contains_app c a b :
  contains c (a +:+ b) = contains c a || contains c b.
Proof.
  induction a as [|c' a IH]; rewrite ?append_nil_l, ?append_cons; cbn;
    [reflexivity|].
  rewrite IH, orb_assoc. reflexivity.
Qed.

(** No piece of a split has a character that the string has not, and none
    has the separator. *)
Lemma str_split_pieces sep c s :
  contains c s = false \/ c = sep ->
  Forall (fun piece => contains c piece = false) (str_split sep s).
Proof.
  induction s as [|c' s IH]; cbn; intros H.
  - repeat constructor.
  - assert (Hs : contains c s = false \/ c = sep).
    { destruct H as [H| ->]; [|right; reflexivity].
      apply orb_false_iff in H as [_ H]. left. exact H. }
    specialize (IH Hs).
    destruct (Ascii.eqb_spec c' sep) as [->|Hne].
    + constructor; [reflexivity|exact IH].
    + destruct (str_split sep s) as [|piece pieces]; [repeat constructor|].
      * cbn. destruct H as [H| ->].
        -- apply orb_false_iff in H as [-> _]. reflexivity.
        -- apply Ascii.eqb_neq in Hne. rewrite Hne. reflexivity.
      * apply Forall_cons in IH as [Hp Hps]. constructor; [|exact Hps].
        cbn. rewrite Hp. destruct H as [H| ->].
        -- apply orb_false_iff in H as [-> _]. reflexivity.
        -- apply Ascii.eqb_neq in Hne. rewrite Hne. reflexivity.
Qed.

Lemma Forall_last {A} (P : A -> Prop) (l : list A) d :
  l <> [] -> Forall P l -> P (List.last l d).
Proof.
  induction l as [|x l IH]; [congruence|]. intros _ H.
  apply Forall_cons in H as [Hx Hl]. destruct l as [|y l]; [exact Hx|].
  apply IH; [discriminate|exact Hl].
Qed.

Lemma Forall_hd {A} (P : A -> Prop) (l : list A) d :
  l <> [] -> Forall P l -> P (hd d l).
Proof.
  destruct l as [|x l]; [congruence|]. intros _ H.
  apply Forall_cons in H as [Hx _]. exact Hx.
Qed.

Lemma filename_of_segment base name :
  contains "/" name = false -> contains "?" name = false ->
  filename_of (base +:+ String "/" name) = name.
Proof.
  intros Hs Hq. unfold filename_of.
  rewrite str_split_app, (str_split_none _ _ Hs), last_last.
  rewrite (str_split_none _ _ Hq). reflexivity.
Qed.

Lemma filename_of_plain name :
  contains "/" name = false -> contains "?" name = false ->
  filename_of name = name.
Proof.
  intros Hs Hq. unfold filename_of.
  rewrite (str_split_none _ _ Hs). cbn [List.last].
  rewrite (str_split_none _ _ Hq). reflexivity.
Qed.

Lemma ends_with_slash a :
  List.last (list_ascii_of_string a) "/"%char = "/"%char ->
  a = EmptyString \/ exists a', a = a' +:+ String "/" EmptyString.
Proof.
  induction a as [|c a IH]; [left; reflexivity|]. right.
  destruct a as [|c' a].
  - cbn in H. subst c. exists EmptyString. reflexivity.
  - destruct IH as [IH|[a' IH]]; [exact H|discriminate|].
    exists (String c a'). rewrite append_cons, <- IH. reflexivity.
Qed.

Lemma append_assoc_slash a name :
  (a +:+ String "/" EmptyString) +:+ name = a +:+ String "/" name.
Proof.
  induction a as [|c a IH]; rewrite ?append_nil_l, ?append_cons;
    [reflexivity|rewrite IH; reflexivity].
Qed.

(** X24.  The name under which a checkpoint is saved.  For a URL that ends
    in a path segment without a question mark, followed or not by a query
    without a slash, [url.split('/')[-1].split('?')[0]] is that segment; and
    the path [os.path.join(dir_path, filename)] under which it is saved has
    that segment as its own file name, whatever the directory. *)
Theorem checkpoint_is_saved_under_its_url_name base name query dir_path :
  contains "/" name = false ->
  contains "?" name = false ->
  contains "/" query = false ->
  filename_of (base +:+ "/" +:+ name +:+ "?" +:+ query) = name /\
  filename_of (base +:+ "/" +:+ name) = name /\
  filename_of (os_path_join dir_path name) = name.
Proof.
  intros Hs Hq Hqs. conjs.
  - change (base +:+ "/" +:+ name +:+ "?" +:+ query)
      with (base +:+ String "/" (name +:+ String "?" query)).
    unfold filename_of. rewrite str_split_app.
    rewrite (str_split_none "/" (name +:+ String "?" query)).
    + rewrite last_last, str_split_app, (str_split_none _ _ Hq). reflexivity.
    + rewrite contains_app, Hs. cbn. exact Hqs.
  - apply filename_of_segment; assumption.
  - unfold os_path_join.
    assert (Hpre : match name with
                   | String c _ => Ascii.eqb c "/"
                   | EmptyString => false
                   end = false).
    { destruct name as [|c name]; [reflexivity|]. cbn in Hs.
      apply orb_false_iff in Hs as [Hc _]. exact Hc. }
    rewrite Hpre.
    destruct (String.eqb dir_path EmptyString);
      [apply filename_of_plain; assumption|].
    destruct (Ascii.eqb_spec
                (List.last (list_ascii_of_string dir_path) "/"%char) "/"%char)
      as [Hend|_].
    + destruct (ends_with_slash _ Hend) as [->|[a' ->]].
      * apply filename_of_plain; assumption.
      * rewrite append_assoc_slash. apply filename_of_segment; assumption.
    + apply filename_of_segment; assumption.
Qed.

(** One of the URLs of the module. *)
Lemma checkpoint_is_saved_under_its_url_name_witness :
  filename_of
    "https://huggingface.co/myn0908/Live-Portrait-Models/resolve/main/landmark.onnx?download=true"
  = "landmark.onnx" /\
  filename_of (os_path_join "/root/face2vid_weights/insight_face"
                            "landmark.onnx")
  = "landmark.onnx".
Proof.
  destruct (checkpoint_is_saved_under_its_url_name
              "https://huggingface.co/myn0908/Live-Portrait-Models/resolve/main"
              "landmark.onnx" "download=true"
              "/root/face2vid_weights/insight_face"
              eq_refl eq_refl eq_refl) as (H1 & _ & H3).
  split; [exact H1|exact H3].
Defined.

(** X25.  Whatever the URL, the file name taken from it has neither a
    slash nor a question mark: the checkpoint is created in the directory
    of its model and not below it. *)
Theorem filename_has_no_separator url :
  contains "/" (filename_of url) = false /\
  contains "?" (filename_of url) = false.
Proof.
  unfold filename_of.
  set (segment := List.last (str_split "/" url) EmptyString).
  assert (Hseg : contains "/" segment = false).
  { apply (Forall_last (fun piece => contains "/" piece = false));
      [apply str_split_nonempty|].
    apply str_split_pieces. right. reflexivity. }
  split.
  - apply (Forall_hd (fun piece => contains "/" piece = false));
      [apply str_split_nonempty|].
    apply str_split_pieces. left. exact Hseg.
  - apply (Forall_hd (fun piece => contains "?" piece = false));
      [apply str_split_nonempty|].
    apply str_split_pieces. right. reflexivity.
Qed.

(** ** [downloading] *)

Lemma write_chunks_spec path l :
  forall n d old,
    files d !! path = Some (File old) ->
    write_chunks path l n d
    = (n + Z.of_nat (length (concat l)),
       mk_Disk (<[path := File (old ++ concat l)]> (files d)) (stdout d)).
Proof.
  induction l as [|data l IH]; intros n d old Hold; cbn [write_chunks concat].
  - rewrite app_nil_r, Z.add_0_r, (insert_id _ _ _ Hold).
    destruct d; reflexivity.
  - unfold file_write at 1. rewrite Hold.
    rewrite (IH _ _ (old ++ data)); cbn [files stdout].
    + rewrite insert_insert_eq, length_app, Nat2Z.inj_add, <- app_assoc.
      f_equal. lia.
    + apply lookup_insert_eq.
Qed.

Lemma downloading_skips path (d : Disk) :
  is_Some (files d !! path) ->
  forall net url, downloading net url path d = (inr tt, d).
Proof.
  intros H net url. unfold downloading, os_path_exists.
  rewrite (bool_decide_eq_true_2 _ H). reflexivity.
Qed.

(** The download up to the end of the loop over the chunks. *)
Lemma downloading_writes net url outf d response total :
  files d !! outf = None ->
  requests_get net url = inr response ->
  default (inr 0) (content_length response) = inr total ->
  open_wb net (files d) outf = None ->
  downloading net url outf d
  = let body := concat (chunks response) in
    let d1 := mk_Disk (<[outf := File body]> (files d))
                      (stdout d ++ [line_downloading outf]) in
    match broken response with
    | Some e => (inl e, d1)
    | None =>
        (inr tt,
         print (line_downloaded outf)
           (if negb (Z.eqb total 0)
               && negb (Z.eqb (Z.of_nat (length body)) total)
            then print line_error d1 else d1))
    end.
Proof.
  intros Hnone Hget Hlen Hopen. unfold downloading, os_path_exists.
  rewrite bool_decide_eq_false_2
    by (rewrite Hnone; intros [x Hx]; discriminate).
  cbn [negb]. cbv zeta. rewrite Hget, Hlen. cbn [files print]. rewrite Hopen.
  rewrite (write_chunks_spec outf (chunks response) 0 _ []);
    [|apply lookup_insert_eq].
  cbn [files stdout app]. rewrite insert_insert_eq, Z.add_0_l. reflexivity.
Qed.

(** X22.  A download that runs to its end.  When no file or directory has
    the name, the request is answered, the announced length is a number or
    absent, the file can be created and the connection does not break, the
    file holds the chunks of the answer in their order, whatever the status
    of the answer.  The success line is always printed, after the error line
    when a length was announced and differs from what arrived; and once the
    file is there, no later call downloads it again. *)
Theorem download_saves_what_the_server_sends net url outf d response total :
  files d !! outf = None ->
  requests_get net url = inr response ->
  default (inr 0) (content_length response) = inr total ->
  open_wb net (files d) outf = None ->
  broken response = None ->
  exists d',
    downloading net url outf d = (inr tt, d') /\
    files d' = <[outf := File (concat (chunks response))]> (files d) /\
    stdout d'
    = stdout d ++ [line_downloading outf]
      ++ (if Z.eqb total 0
             || Z.eqb (Z.of_nat (length (concat (chunks response)))) total
          then [] else [line_error])
      ++ [line_downloaded outf] /\
    forall net' url', downloading net' url' outf d' = (inr tt, d').
Proof.
  intros Hnone Hget Hlen Hopen Hbroken.
  rewrite (downloading_writes _ _ _ _ _ _ Hnone Hget Hlen Hopen), Hbroken.
  cbv zeta. eexists. split; [reflexivity|].
  destruct (Z.eqb total 0);
    destruct (Z.eqb (Z.of_nat (length (concat (chunks response)))) total);
    unfold print; cbn [negb andb orb files stdout];
    (conjs; [reflexivity|rewrite <- ?app_assoc; reflexivity|]);
    apply downloading_skips; cbn [files]; rewrite lookup_insert_eq; eauto.
Qed.

(** Five bytes announced, three sent. *)
Lemma download_saves_what_the_server_sends_witness :
  exists d',
    downloading short_server "u" "f.pth" empty_disk = (inr tt, d') /\
    files d' = <[ "f.pth" := File [Byte.x61; Byte.x62; Byte.x63] ]> ∅ /\
    stdout d'
    = [line_downloading "f.pth"; line_error; line_downloaded "f.pth"] /\
    forall net' url', downloading net' url' "f.pth" d' = (inr tt, d').
Proof.
  exact (download_saves_what_the_server_sends short_server "u" "f.pth"
           empty_disk short_response 5 eq_refl eq_refl eq_refl eq_refl
           eq_refl).
Defined.

(** X23.  A download whose connection breaks.  The exception of the
    connection leaves [downloading], and the file stays behind with the
    chunks that had arrived; neither the error line nor the success line is
    printed.  Since the file is there, no later call downloads it again:
    the partial file is taken for the checkpoint. *)
Theorem broken_download_is_never_resumed
    net url outf d response total ex :
  files d !! outf = None ->
  requests_get net url = inr response ->
  default (inr 0) (content_length response) = inr total ->
  open_wb net (files d) outf = None ->
  broken response = Some ex ->
  exists d',
    downloading net url outf d = (inl ex, d') /\
    files d' = <[outf := File (concat (chunks response))]> (files d) /\
    stdout d' = stdout d ++ [line_downloading outf] /\
    forall net' url', downloading net' url' outf d' = (inr tt, d').
Proof.
  intros Hnone Hget Hlen Hopen Hbroken.
  rewrite (downloading_writes _ _ _ _ _ _ Hnone Hget Hlen Hopen), Hbroken.
  cbv zeta. eexists. conjs; try reflexivity.
  apply downloading_skips. cbn [files]. rewrite lookup_insert_eq. eauto.
Qed.

(** Two of five bytes arrive; a later call to a server that works changes
    nothing. *)
Lemma broken_download_is_never_resumed_witness :
  exists d',
    downloading breaking_server "u" "f.pth" empty_disk
    = (inl (OSError (msg_foreign "Connection broken")), d') /\
    files d' = <[ "f.pth" := File [Byte.x61; Byte.x62] ]> ∅ /\
    stdout d' = [line_downloading "f.pth"] /\
    forall net' url', downloading net' url' "f.pth" d' = (inr tt, d').
Proof.
  exact (broken_download_is_never_resumed breaking_server "u" "f.pth"
           empty_disk
           (mk_Response 200 (Some (inr 5)) [[Byte.x61; Byte.x62]]
              (Some (OSError (msg_foreign "Connection broken"))))
           5 (OSError (msg_foreign "Connection broken"))
           eq_refl eq_refl eq_refl eq_refl eq_refl).
Defined.
